(** * Maleta checklist: storage repair, state store and action layer

    A shallow embedding of [src/storage.js], [src/state.js],
    [src/actions.js] and of the parts of [src/app.js] and [src/render.js]
    that decide the checklist data (preset catalog, [newPreset],
    [runProgress], [renderProgress]).

    Conventions.
    - A JavaScript string is the list of its UTF-16 code units ([jstr]), so
      that [slice] and [length] count what the engine counts.
    - A JavaScript value that reaches the repair engine is a [JsVal]
      (what [JSON.parse] can return, plus [undefined]).
    - [uid()] is random in the source; here the k-th call returns [uid k],
      a variable of the development.  Freshness of these values is never
      assumed silently: a theorem that needs it says so.
    - A thrown exception is the outcome [Throw]. *)

From Stdlib Require Import ZArith NArith String Ascii DecimalString.
From Stdlib Require Import QArith Qround.
From stdpp Require Import base tactics option list gmap.

Close Scope Q_scope.
Open Scope Z_scope.
Set Warnings "-register-all".

(** ** Strings *)

Abbreviation jstr := (list N).

(** An ASCII literal as code units. *)
Definition u (s : string) : jstr :=
  (fun c => N_of_ascii c) <$> list_ascii_of_string s.
Arguments u s%_string.

(** [String.prototype.slice(0, n)] for a non-negative [n]. *)
Definition slice0 (n : nat) (s : jstr) : jstr := take n s.

(** WhiteSpace and LineTerminator code points, the ones [trim] removes. *)
Definition ws_units : list N :=
  [9; 10; 11; 12; 13; 32; 160; 5760; 8192; 8193; 8194; 8195; 8196; 8197;
   8198; 8199; 8200; 8201; 8202; 8232; 8233; 8239; 8287; 12288; 65279]%N.

Definition is_ws (c : N) : bool := bool_decide (c ∈ ws_units).

Fixpoint trimStart (s : jstr) : jstr :=
  match s with
  | c :: r => if is_ws c then trimStart r else s
  | [] => []
  end.

Definition trim (s : jstr) : jstr := rev (trimStart (rev (trimStart s))).

(** [s || d] on strings: the empty string is falsy. *)
Definition str_or (s d : jstr) : jstr :=
  match s with [] => d | _ => s end.

Definition str_truthy (s : jstr) : bool :=
  match s with [] => false | _ => true end.

(** ** JavaScript values *)

(** A JavaScript number: not a number, an infinity, or a finite value
    (zero of either sign is [Finite 0]). *)
Inductive JsNum : Type :=
  | NaN
  | Infinite (positive : bool)
  | Finite (q : Q).

(** A number as the program meets it: its value, and the text [String]
    gives for it (the shortest digits that read back as the same number,
    in exponent form from 1e21 on).  The text is carried with the value,
    not computed from it. *)
Record Num : Type := mkNum {
  num_value : JsNum;
  num_text : jstr
}.

(** The decimal digits of an integer, with a minus sign when negative. *)
Definition Z_to_str (z : Z) : jstr := u (NilZero.string_of_int (Z.to_int z)).

(** The number of an integer below 2^53 in absolute value, whose text is
    its decimal digits.  The document version and the streak are written
    with it; no function embedded here converts either of them to text. *)
Definition num_of_int (z : Z) : Num := mkNum (Finite (inject_Z z)) (Z_to_str z).

(** What [JSON.parse] can return, plus [undefined]. *)
Inductive JsVal : Type :=
  | JUndefined
  | JNull
  | JBool (b : bool)
  | JNum (n : Num)
  | JStr (s : jstr)
  | JArr (l : list JsVal)
  | JObj (fields : list (jstr * JsVal)).

(** Own-property lookup in the property list of an object. *)
Fixpoint own (k : jstr) (fs : list (jstr * JsVal)) : option JsVal :=
  match fs with
  | [] => None
  | (k', v) :: r => if decide (k = k') then Some v else own k r
  end.

(** [v?.k] for the keys the program reads ([mode], [cats], [items],
    [__completedOnce], [id], [cat], [name], [emoji], [done]): none of them
    is inherited from a prototype, so only an object's own property
    answers. *)
Definition get (v : JsVal) (k : jstr) : JsVal :=
  match v with
  | JObj fs => default JUndefined (own k fs)
  | _ => JUndefined
  end.

Definition truthy (v : JsVal) : bool :=
  match v with
  | JUndefined | JNull => false
  | JBool b => b
  | JNum n =>
      match num_value n with
      | NaN => false
      | Infinite _ => true
      | Finite q => negb (Qnum q =? 0)
      end
  | JStr s => str_truthy s
  | JArr _ | JObj _ => true
  end.

(** [typeof v === 'object'] (true of [null] as well). *)
Definition typeof_object (v : JsVal) : bool :=
  match v with
  | JNull | JArr _ | JObj _ => true
  | _ => false
  end.

(** [a || b] *)
Definition js_or (a b : JsVal) : JsVal := if truthy a then a else b.

(** [String(v)].  [None] stands for the TypeError of ToPrimitive: an object
    whose own [toString] property is not callable (every value of a parsed
    document is data, never a function) cannot be converted.  An array is
    joined with commas, [null] and [undefined] elements giving the empty
    string. *)
Fixpoint ToString (v : JsVal) : option jstr :=
  match v with
  | JUndefined => Some (u "undefined")
  | JNull => Some (u "null")
  | JBool true => Some (u "true")
  | JBool false => Some (u "false")
  | JNum n => Some (num_text n)
  | JStr s => Some s
  | JArr l =>
      (fix join (l : list JsVal) : option jstr :=
         match l with
         | [] => Some []
         | x :: r =>
             match (match x with
                    | JUndefined | JNull => Some []
                    | _ => ToString x
                    end) with
             | None => None
             | Some sx =>
                 match r with
                 | [] => Some sx
                 | _ => match join r with
                        | None => None
                        | Some sr => Some (sx ++ u "," ++ sr)
                        end
                 end
             end
         end) l
  | JObj fs =>
      match own (u "toString") fs with
      | Some _ => None
      | None => Some (u "[object Object]")
      end
  end.


(** ** Outcomes and state passing *)

(** A computation over a state [S] that returns or throws.  The state
    reached is kept in both cases: a [catch] resumes from it. *)
Inductive outcome (A : Type) : Type :=
  | Ret (a : A)
  | Throw.
Arguments Ret {A} a.
Arguments Throw {A}.

Definition ST (S A : Type) : Type := S -> outcome A * S.

Definition ret {S A} (a : A) : ST S A := fun s => (Ret a, s).
Definition throw {S A} : ST S A := fun s => (Throw, s).
Definition bind {S A B} (m : ST S A) (k : A -> ST S B) : ST S B :=
  fun s => match m s with
           | (Ret a, s') => k a s'
           | (Throw, s') => (Throw, s')
           end.
(** [try { m } catch { h }] *)
Definition catch {S A} (m h : ST S A) : ST S A :=
  fun s => match m s with
           | (Ret a, s') => (Ret a, s')
           | (Throw, s') => h s'
           end.

Declare Scope st_scope.
Delimit Scope st_scope with st.
Notation "x <- m ;; k" := (bind m (fun x => k))
  (at level 100, m at next level, right associativity) : st_scope.
Notation "m ;;; k" := (bind m (fun _ => k))
  (at level 100, right associativity) : st_scope.
Open Scope st_scope.

Fixpoint mapM {S A B} (f : A -> ST S B) (l : list A) : ST S (list B) :=
  match l with
  | [] => ret []
  | x :: r => y <- f x ;; ys <- mapM f r ;; ret (y :: ys)
  end.

(** ** Data model *)

Record Cat : Type := mkCat {
  c_id : jstr;
  c_name : jstr;
  c_emoji : option jstr            (* [None] is [null] *)
}.

Record Item : Type := mkItem {
  i_id : jstr;
  i_cat : jstr;
  i_name : jstr;
  i_emoji : option jstr;
  i_done : bool
}.

Record Document : Type := mkDoc {
  version : Z;
  mode : jstr;
  cats : list Cat;
  items : list Item;
  completedOnce : bool             (* [__completedOnce] *)
}.

(** The four properties of the settings object that the program reads.
    A settings object read from storage can own further properties; the
    source carries them along and never looks at them, and they are not
    represented here. *)
Record Settings : Type := mkSettings {
  tripMode : jstr;
  motion : bool;
  sound : bool;
  streak : Z
}.

(** ** Preset catalog ([src/app.js]) *)

(** An item template of the catalog: no id, no [done]. *)
Record Tpl : Type := mkTpl {
  t_cat : jstr;
  t_name : jstr;
  t_emoji : jstr
}.

Record Preset : Type := mkPreset {
  label : jstr;
  p_cats : list Cat;
  p_items : list Tpl
}.

Definition DEFAULT_SETTINGS : Settings :=
  {| tripMode := u "salida"; motion := true; sound := true; streak := 0 |}.

Definition preset_salida : Preset :=
  mkPreset ( [55358; 56819]%N ++ u " Salida")
       [ mkCat (u "tech") (u "Tecnolog" ++ [237]%N ++ u "a") (Some ([55357; 56588]%N));
         mkCat (u "docs") (u "Documentos") (Some ([55358; 57002]%N));
         mkCat (u "ropa") (u "Ropa") (Some ([55357; 56405]%N));
         mkCat (u "hig") (u "Higiene") (Some ([55358; 56828]%N));
         mkCat (u "otros") (u "Otros") (Some ([10024]%N)) ]
       [ mkTpl (u "tech") (u "Cargador del celular") ([55357; 56588]%N);
         mkTpl (u "tech") (u "Power bank") ([55357; 56587]%N);
         mkTpl (u "tech") (u "Aud" ++ [237]%N ++ u "fonos") ([55356; 57255]%N);
         mkTpl (u "docs") (u "C" ++ [233]%N ++ u "dula / documento") ([55358; 57002]%N);
         mkTpl (u "docs") (u "Tarjeta / efectivo") ([55357; 56499]%N);
         mkTpl (u "ropa") (u "Chaqueta") ([55358; 56805]%N);
         mkTpl (u "hig") (u "Desodorante") ([55358; 56820]%N);
         mkTpl (u "hig") (u "Cepillo + crema") ([55358; 56997]%N);
         mkTpl (u "otros") (u "Llaves") ([55357; 56593]%N) ].

Definition preset_viaje : Preset :=
  mkPreset ( [9992; 65039]%N ++ u " Viaje")
       [ mkCat (u "tech") (u "Tecnolog" ++ [237]%N ++ u "a") (Some ([55357; 56588]%N));
         mkCat (u "docs") (u "Documentos") (Some ([55358; 56830]%N));
         mkCat (u "salud") (u "Salud") (Some ([55357; 56458]%N));
         mkCat (u "ropa") (u "Ropa") (Some ([55358; 56819]%N));
         mkCat (u "otros") (u "Otros") (Some ([10024]%N)) ]
       [ mkTpl (u "docs") (u "Pasaporte / ID") ([55357; 57026]%N);
         mkTpl (u "docs") (u "Tiquetes / reservas") ([55356; 57259]%N);
         mkTpl (u "tech") (u "Cargadores (todos)") ([55357; 56588]%N);
         mkTpl (u "tech") (u "Adaptador") ([55357; 56577]%N);
         mkTpl (u "salud") (u "Medicinas") ([55357; 56458]%N);
         mkTpl (u "ropa") (u "Medias extra") ([55358; 56806]%N) ].

Definition preset_gira : Preset :=
  mkPreset ( [55356; 57261]%N ++ u " Gira")
       [ mkCat (u "tech") (u "Tech") (Some ([55357; 56588]%N));
         mkCat (u "audio") (u "Audio") (Some ([55356; 57243; 65039]%N));
         mkCat (u "ropa") (u "Ropa") (Some ([55357; 56405]%N));
         mkCat (u "docs") (u "Docs") (Some ([55358; 57002]%N));
         mkCat (u "otros") (u "Otros") (Some ([10024]%N)) ]
       [ mkTpl (u "audio") (u "Micr" ++ [243]%N ++ u "fono / adaptadores") ([55356; 57252]%N);
         mkTpl (u "audio") (u "Interfaces / cables") ([55358; 56821]%N);
         mkTpl (u "tech") (u "Cargador laptop") ([55357; 56507]%N);
         mkTpl (u "tech") (u "USB / backup") ([55357; 56510]%N);
         mkTpl (u "ropa") (u "Outfit / cambio") ([55357; 56405]%N);
         mkTpl (u "docs") (u "Info del venue") ([55357; 56516]%N) ].

Definition preset_playa : Preset :=
  mkPreset ( [55356; 57302; 65039]%N ++ u " Playa")
       [ mkCat (u "ropa") (u "Ropa") (Some ([55358; 56947]%N));
         mkCat (u "sol") (u "Sol") (Some ([55358; 56820]%N));
         mkCat (u "tech") (u "Tech") (Some ([55357; 56561]%N));
         mkCat (u "otros") (u "Otros") (Some ([10024]%N)) ]
       [ mkTpl (u "sol") (u "Bloqueador") ([55358; 56820]%N);
         mkTpl (u "sol") (u "Gafas") ([55357; 56694; 65039]%N);
         mkTpl (u "ropa") (u "Vestido de ba" ++ [241]%N ++ u "o") ([55357; 56409]%N);
         mkTpl (u "ropa") (u "Toalla") ([55358; 56827]%N);
         mkTpl (u "tech") (u "Cargador") ([55357; 56588]%N) ].

Definition preset_frio : Preset :=
  mkPreset ( [10052; 65039]%N ++ u " Clima fr" ++ [237]%N ++ u "o")
       [ mkCat (u "ropa") (u "Ropa") (Some ([55358; 56805]%N));
         mkCat (u "salud") (u "Salud") (Some ([55358; 57046]%N));
         mkCat (u "tech") (u "Tech") (Some ([55357; 56588]%N));
         mkCat (u "otros") (u "Otros") (Some ([10024]%N)) ]
       [ mkTpl (u "ropa") (u "Chaqueta gruesa") ([55358; 56805]%N);
         mkTpl (u "ropa") (u "Guantes") ([55358; 56804]%N);
         mkTpl (u "ropa") (u "Gorro") ([55358; 56802]%N);
         mkTpl (u "salud") (u "Humectante / labios") ([55357; 56452]%N);
         mkTpl (u "tech") (u "Cargador") ([55357; 56588]%N) ].

Definition catalog : list (jstr * Preset) :=
  [ (u "salida", preset_salida); (u "viaje", preset_viaje);
    (u "gira", preset_gira); (u "playa", preset_playa);
    (u "frio", preset_frio) ].

(** Property names every object literal inherits from [Object.prototype]. *)
Definition object_prototype_keys : list jstr :=
  [ u "constructor"; u "hasOwnProperty"; u "isPrototypeOf";
    u "propertyIsEnumerable"; u "toLocaleString"; u "toString"; u "valueOf";
    u "__proto__"; u "__defineGetter__"; u "__defineSetter__";
    u "__lookupGetter__"; u "__lookupSetter__" ].

(** What [PRESETS[mode] || PRESETS.salida] evaluates to: a preset of the
    catalog or, for an inherited property name, a member of
    [Object.prototype] (truthy, and without [cats]). *)
Inductive Entry : Type :=
  | IsPreset (p : Preset)
  | IsProtoMember.

Fixpoint assoc {A} (k : jstr) (l : list (jstr * A)) : option A :=
  match l with
  | [] => None
  | (k', a) :: r => if decide (k = k') then Some a else assoc k r
  end.

Definition presetFor (mode : jstr) : Entry :=
  match assoc mode catalog with
  | Some p => IsPreset p
  | None =>
      if bool_decide (mode ∈ object_prototype_keys) then IsProtoMember
      else IsPreset preset_salida
  end.

(** ** Documents as JavaScript values *)

Definition opt_js (o : option jstr) : JsVal :=
  match o with Some s => JStr s | None => JNull end.

Definition cat_js (c : Cat) : JsVal :=
  JObj [ (u "id", JStr (c_id c)); (u "name", JStr (c_name c));
         (u "emoji", opt_js (c_emoji c)) ].

Definition item_js (it : Item) : JsVal :=
  JObj [ (u "id", JStr (i_id it)); (u "cat", JStr (i_cat it));
         (u "name", JStr (i_name it)); (u "emoji", opt_js (i_emoji it));
         (u "done", JBool (i_done it)) ].

Definition doc_js (d : Document) : JsVal :=
  JObj [ (u "version", JNum (num_of_int (version d)));
         (u "mode", JStr (mode d));
         (u "cats", JArr (cat_js <$> cats d));
         (u "items", JArr (item_js <$> items d));
         (u "__completedOnce", JBool (completedOnce d)) ].

Definition with_id (id : jstr) (it : Item) : Item :=
  mkItem id (i_cat it) (i_name it) (i_emoji it) (i_done it).
Definition with_cat (c : jstr) (it : Item) : Item :=
  mkItem (i_id it) c (i_name it) (i_emoji it) (i_done it).
Definition with_done (b : bool) (it : Item) : Item :=
  mkItem (i_id it) (i_cat it) (i_name it) (i_emoji it) b.
Definition with_latch (b : bool) (d : Document) : Document :=
  mkDoc (version d) (mode d) (cats d) (items d) b.
Definition with_items (l : list Item) (d : Document) : Document :=
  mkDoc (version d) (mode d) (cats d) l (completedOnce d).

Definition ids (d : Document) : list jstr := i_id <$> items d.
Definition cat_ids (d : Document) : list jstr := c_id <$> cats d.

(** What [localStorage.getItem] followed by [JSON.parse] comes to. *)
Inductive Stored : Type :=
  | StorageThrows                  (* [getItem] itself throws *)
  | NoEntry                        (* [null] or the empty string *)
  | Malformed                      (* [JSON.parse] throws *)
  | Parsed (v : JsVal).

(** The argument of [loadData]: a mode string, a settings object, or
    nothing usable. *)
Inductive ModeArg : Type :=
  | ModeStr (m : jstr)
  | ModeSettings (s : Settings)
  | ModeAbsent.

(** [String(v)] inside a computation: the TypeError propagates. *)
Definition String_ {S} (v : JsVal) : ST S jstr :=
  match ToString v with
  | Some s => ret s
  | None => throw
  end.

Section Storage.

(** [uid k] is what the k-th call of [uid()] returns. *)
Variable uid : nat -> jstr.

(** The state of this layer: how many ids were drawn so far. *)
Definition makeId : ST nat jstr := fun n => (Ret (uid n), S n).

(** The callback of [p.items.map] in [newPreset]. *)
Definition materialize (x : Tpl) : ST nat Item :=
  id <- makeId ;;
  ret (mkItem id (t_cat x) (t_name x)
              (if str_truthy (t_emoji x) then Some (t_emoji x) else None)
              false).

(** [newPreset] of [src/app.js]. *)
Definition newPreset (mode : jstr) : ST nat Document :=
  match presetFor mode with
  | IsProtoMember => throw       (* [p.cats] is undefined: [.map] throws *)
  | IsPreset p =>
      its <- mapM materialize (p_items p) ;;
      ret (mkDoc 2 mode (p_cats p) its false)
  end.

Definition repair_emoji (v : JsVal) : ST nat (option jstr) :=
  if truthy (get v (u "emoji"))
  then e <- String_ (get v (u "emoji")) ;; ret (Some (slice0 4 e))
  else ret None.

Definition repairCat (c : JsVal) : ST nat Cat :=
  id <- String_ (js_or (get c (u "id")) (JStr (u "otros"))) ;;
  name <- String_ (js_or (get c (u "name")) (JStr (u "Otros"))) ;;
  emoji <- repair_emoji c ;;
  ret (mkCat (str_or (trim id) (u "otros"))
             (str_or (trim name) (u "Otros")) emoji).

Definition repairItem (it : JsVal) : ST nat Item :=
  id <- (if truthy (get it (u "id")) then String_ (get it (u "id"))
         else makeId) ;;
  cat <- String_ (js_or (get it (u "cat")) (JStr (u "otros"))) ;;
  name <- String_ (js_or (get it (u "name")) (JStr (u "Sin nombre"))) ;;
  emoji <- repair_emoji it ;;
  ret (mkItem id cat (slice0 80 name) emoji (truthy (get it (u "done")))).

(** The [forEach] that makes ids unique; [seen] is the [Set]. *)
Fixpoint dedupe (seen : gset jstr) (its : list Item) : ST nat (list Item) :=
  match its with
  | [] => ret []
  | it :: r =>
      id <- (if negb (str_truthy (i_id it)) || bool_decide (i_id it ∈ seen)
             then makeId else ret (i_id it)) ;;
      r' <- dedupe ({[ id ]} ∪ seen) r ;;
      ret (with_id id it :: r')
  end.

(** [Array.isArray(v) ? v.map(f) : null] *)
Definition map_if_array {B} (f : JsVal -> ST nat B) (v : JsVal)
  : ST nat (option (list B)) :=
  match v with
  | JArr l => l' <- mapM f l ;; ret (Some l')
  | _ => ret None
  end.

Definition repoint (catIds : gset jstr) (fallbackCat : jstr) (it : Item) : Item :=
  if bool_decide (i_cat it ∈ catIds) then it else with_cat fallbackCat it.

Definition repairData (d : JsVal) (fallbackMode : jstr) : ST nat Document :=
  if negb (truthy d) || negb (typeof_object d) then newPreset fallbackMode
  else
    mode <- String_ (js_or (get d (u "mode"))
                       (js_or (JStr fallbackMode)
                              (JStr (tripMode DEFAULT_SETTINGS)))) ;;
    ocats <- map_if_array repairCat (get d (u "cats")) ;;
    oitems <- map_if_array repairItem (get d (u "items")) ;;
    let latch := truthy (get d (u "__completedOnce")) in
    match ocats, oitems with
    | Some cs, Some its =>
        match cs with
        | [] => newPreset mode
        | c0 :: _ =>
            let catIds : gset jstr := list_to_set (c_id <$> cs) in
            let fallbackCat :=
              if bool_decide (u "otros" ∈ catIds) then u "otros"
              else c_id c0 in
            its' <- dedupe ∅ (repoint catIds fallbackCat <$> its) ;;
            ret (mkDoc 2 mode cs its' latch)
        end
    | _, _ => newPreset mode
    end.

Definition resolve_mode (a : ModeArg) : jstr :=
  match a with
  | ModeStr m => m
  | ModeSettings s => str_or (tripMode s) (tripMode DEFAULT_SETTINGS)
  | ModeAbsent => tripMode DEFAULT_SETTINGS
  end.

Definition loadData (settingsOrMode : ModeArg) (stored : Stored)
  : ST nat Document :=
  let mode := resolve_mode settingsOrMode in
  catch (match stored with
         | StorageThrows | Malformed => throw
         | NoEntry => newPreset mode
         | Parsed parsed => repairData parsed mode
         end)
        (newPreset mode).

End Storage.


(** ** State store ([src/state.js]) *)

(** A JavaScript object the program compares with [===]: its identity
    [loc] and its contents. *)
Record Box (A : Type) : Type := mkBox { loc : nat; val : A }.
Arguments mkBox {A} loc val.
Arguments loc {A} b.
Arguments val {A} b.

Record State : Type := mkState {
  s_loc : nat;                     (* identity of the state object *)
  settings : Box Settings;
  data : Box Document;
  activeCat : jstr
}.

Inductive Toast : Type :=
  | TItemDeleted | TChecksReset | TAllChecked | TAllUnchecked
  | TNameMissing | TAdded | TModeChanged | TWiped | TCompleted.

(** What the outside observes. *)
Inductive Event : Type :=
  | Notified (listener : nat)      (* the listener-th subscriber was called *)
  | SaveSettingsDebounced (s : Settings)
  | SaveDataDebounced (d : Document)
  | Toasted (t : Toast)
  | Haptic (ms : Z)
  | Tick
  | Confetti
  | Glow.

(** A subscriber [(prev, next) => ...], by the events it causes. *)
Definition Listener : Type := State -> State -> list Event.

Record World : Type := mkWorld {
  w_state : State;                 (* [state] of the store *)
  w_listeners : list Listener;     (* [listeners], in insertion order *)
  w_next_loc : nat;                (* the next unused object identity *)
  w_uids : nat;                    (* ids drawn so far *)
  w_trace : list Event             (* oldest first *)
}.

Abbreviation M := (ST World).

Definition getState : M State := fun w => (Ret (w_state w), w).

Definition putState (s : State) : M unit := fun w =>
  (Ret tt, mkWorld s (w_listeners w) (w_next_loc w) (w_uids w) (w_trace w)).

(** A fresh object identity. *)
Definition alloc : M nat := fun w =>
  (Ret (w_next_loc w),
   mkWorld (w_state w) (w_listeners w) (S (w_next_loc w)) (w_uids w) (w_trace w)).

Definition log (es : list Event) : M unit := fun w =>
  (Ret tt,
   mkWorld (w_state w) (w_listeners w) (w_next_loc w) (w_uids w) (w_trace w ++ es)).

(** Run a computation of the storage layer on the id counter. *)
Definition draw {A} (g : ST nat A) : M A := fun w =>
  let '(r, n) := g (w_uids w) in
  (r, mkWorld (w_state w) (w_listeners w) (w_next_loc w) n (w_trace w)).

(** A plain object handed to [setState] or returned by an updater: the
    top-level keys it carries. *)
Record Patch : Type := mkPatch {
  p_settings : option (Box Settings);
  p_data : option (Box Document);
  p_activeCat : option jstr
}.

Inductive JsOut : Type :=
  | Plain (p : Patch)
  | NotPlain.                      (* [null], [undefined], an array, a number... *)

Inductive Update : Type :=
  | Updater (f : State -> M JsOut)
  | PatchObj (p : Patch)
  | Weird.                         (* neither a function nor a plain object *)

(** [{ ...prev, ...p }], a new object at [l]. *)
Definition merge (l : nat) (prev : State) (p : Patch) : State :=
  mkState l (default (settings prev) (p_settings p))
            (default (data prev) (p_data p))
            (default (activeCat prev) (p_activeCat p)).

(** What calling every listener with [(prev, next)] appends to the trace,
    the first listener being number [i]. *)
Fixpoint notices_from (i : nat) (prev next : State) (ls : list Listener)
  : list Event :=
  match ls with
  | [] => []
  | fn :: r => (Notified i :: fn prev next) ++ notices_from (S i) prev next r
  end.

Definition notices (prev next : State) (ls : list Listener) : list Event :=
  notices_from 0 prev next ls.

Definition emit (prev next : State) : M unit := fun w =>
  log (notices prev next (w_listeners w)) w.

(** The candidate [next] of [setState]. *)
Definition compute_next (prev : State) (update : Update) : M State :=
  match update with
  | Updater f =>
      out <- f prev ;;
      match out with
      | Plain p => l <- alloc ;; ret (merge l prev p)
      | NotPlain => ret prev
      end
  | PatchObj p => l <- alloc ;; ret (merge l prev p)
  | Weird => ret prev
  end.

Definition setState (update : Update) : M unit :=
  prev <- getState ;;
  next <- compute_next prev update ;;
  if decide (s_loc next = s_loc prev) then ret tt
  else putState next ;;; emit prev next.

Definition subscribe (fn : Listener) : M unit := fun w =>
  (Ret tt,
   mkWorld (w_state w) (w_listeners w ++ [fn]) (w_next_loc w) (w_uids w) (w_trace w)).

(** [createStore({settings, data, activeCat: 'all'})]: the initial state is
    a deep copy, three new objects. *)
Definition createStore (s : Settings) (d : Document) (drawn : nat) : World :=
  mkWorld (mkState 0 (mkBox 1 s) (mkBox 2 d) (u "all")) [] 3 drawn [].

(** The subscriber registered by [boot] in [src/app.js]. *)
Definition persist_bridge : Listener := fun prev next =>
  (if decide (loc (settings prev) = loc (settings next)) then []
   else [SaveSettingsDebounced (val (settings next))]) ++
  (if decide (loc (data prev) = loc (data next)) then []
   else [SaveDataDebounced (val (data next))]).

Definition boot_store (s : Settings) (d : Document) (drawn : nat) : World :=
  snd (subscribe persist_bridge (createStore s d drawn)).

Definition doc (w : World) : Document := val (data (w_state w)).
Definition prefs (w : World) : Settings := val (settings (w_state w)).

(** ** [renderProgress] ([src/render.js]), without the DOM writes and the
    rounded percentage *)

Record Progress : Type := mkProgress {
  done : nat;
  total : nat;
  completed : bool
}.

Definition renderProgress (st : State) : Progress :=
  let its := items (val (data st)) in
  let done := length (filter (fun i => i_done i = true) its) in
  let total := length its in
  mkProgress done total (bool_decide (0 < total)%nat && bool_decide (done = total)).

(** ** Action layer ([src/actions.js]) and completion logic ([src/app.js]) *)

(** [ensureString(v, maxLen)] for a positive [maxLen]; [None] is [null] or
    [undefined]. *)
Definition ensureString (v : option jstr) (maxLen : nat) : jstr :=
  slice0 maxLen (trim (default [] v)).

Definition normalizeEmoji (v : option jstr) : option jstr :=
  match ensureString v 4 with
  | [] => None
  | e => Some e
  end.

(** The argument of [createItem]; [None] is an absent field.  [a_uid] is
    what the injected [uid] function returns when there is one; without
    it [makeId] draws a random id, from the same source as [uid()]. *)
Record CreateArgs : Type := mkArgs {
  a_name : option jstr;
  a_emoji : option jstr;
  a_cat : option jstr;
  a_uid : option jstr
}.

Record Result : Type := mkResult {
  ok : bool;
  reason : option jstr
}.

(** [it.done = !it.done] on the first item whose id is [id]. *)
Fixpoint toggle_first (id : jstr) (l : list Item) : option (list Item) :=
  match l with
  | [] => None
  | it :: r =>
      if decide (i_id it = id) then Some (with_done (negb (i_done it)) it :: r)
      else (fun r' => it :: r') <$> toggle_first id r
  end.

Section Actions.

Variable uid : nat -> jstr.

(** The injected [saveData] and [saveSettings] of [boot]. *)
Definition saveData : M unit :=
  s <- getState ;; log [SaveDataDebounced (val (data s))].
Definition saveSettings : M unit :=
  s <- getState ;; log [SaveSettingsDebounced (val (settings s))].

Definition safeToast (t : Toast) : M unit := log [Toasted t].
Definition safeHaptic (ms : Z) : M unit := log [Haptic ms].
Definition safeTick : M unit := log [Tick].

Definition updateData (mutator : Document -> M Document) : M unit :=
  setState (Updater (fun s =>
    l <- alloc ;;
    d <- mutator (val (data s)) ;;
    ret (Plain (mkPatch (Some (settings s)) (Some (mkBox l d))
                        (Some (activeCat s)))))) ;;;
  saveData.

Definition updateSettings (mutator : Settings -> M Settings) : M unit :=
  setState (Updater (fun s =>
    l <- alloc ;;
    t <- mutator (val (settings s)) ;;
    ret (Plain (mkPatch (Some (mkBox l t)) (Some (data s))
                        (Some (activeCat s)))))) ;;;
  saveSettings.

Definition toggleDone (id : jstr) : M unit :=
  let cleanId := ensureString (Some id) 120 in
  if str_truthy cleanId then
    updateData (fun d =>
      match toggle_first cleanId (items d) with
      | None => ret d
      | Some l => ret (with_latch false (with_items l d))
      end) ;;;
    s <- getState ;;
    (if sound (val (settings s)) then safeTick else ret tt) ;;;
    safeHaptic 12
  else ret tt.

Definition deleteItem (id : jstr) : M unit :=
  let cleanId := ensureString (Some id) 120 in
  if str_truthy cleanId then
    updateData (fun d =>
      ret (with_latch false
             (with_items (filter (fun x => i_id x ≠ cleanId) (items d)) d))) ;;;
    safeToast TItemDeleted ;;;
    safeHaptic 10
  else ret tt.

Definition resetChecks : M unit :=
  updateData (fun d =>
    ret (with_latch false (with_items (with_done false <$> items d) d))) ;;;
  safeToast TChecksReset ;;;
  safeHaptic 12.

Definition setAll (done : bool) : M unit :=
  updateData (fun d =>
    ret (with_latch false (with_items (with_done done <$> items d) d))) ;;;
  safeToast (if done then TAllChecked else TAllUnchecked) ;;;
  safeHaptic 14.

Definition EMPTY_NAME : jstr := u "EMPTY_NAME".

Definition createItem (a : CreateArgs) : M Result :=
  let cleanName := ensureString (a_name a) 60 in
  let cleanEmoji := normalizeEmoji (a_emoji a) in
  let cleanCat :=
    str_or (ensureString (Some (default (u "otros") (a_cat a))) 40) (u "otros") in
  if str_truthy cleanName then
    updateData (fun d =>
      id <- match a_uid a with
            | Some s => ret s
            | None => draw (makeId uid)
            end ;;
      ret (with_latch false
             (with_items (mkItem id cleanCat cleanName cleanEmoji false :: items d) d))) ;;;
    safeToast TAdded ;;;
    safeHaptic 12 ;;;
    ret (mkResult true None)
  else
    safeToast TNameMissing ;;;
    safeHaptic 18 ;;;
    ret (mkResult false (Some EMPTY_NAME)).

Definition changeMode (mode : option jstr) : M unit :=
  let m := str_or (ensureString mode 24) (u "salida") in
  updateSettings (fun t =>
    ret (mkSettings m (motion t) (sound t) (streak t))) ;;;
  setState (Updater (fun s =>
    d <- draw (newPreset uid m) ;;
    l <- alloc ;;
    ret (Plain (mkPatch (Some (settings s)) (Some (mkBox l d))
                        (Some (u "all")))))) ;;;
  saveData ;;;
  safeToast TModeChanged ;;;
  safeHaptic 12.

Definition wipeAll : M unit :=
  setState (Updater (fun s =>
    ls <- alloc ;;
    d <- draw (newPreset uid (u "salida")) ;;
    l <- alloc ;;
    ret (Plain (mkPatch (Some (mkBox ls (mkSettings (u "salida") true true 0)))
                        (Some (mkBox l d)) (Some (u "all")))))) ;;;
  saveSettings ;;;
  saveData ;;;
  safeToast TWiped ;;;
  safeHaptic 14.

(** [runProgress] of [boot]: the completion latch and the streak. *)
Definition runProgress : M Progress :=
  st <- getState ;;
  let result := renderProgress st in
  (if completed result then
     if completedOnce (val (data st)) then ret tt
     else
       setState (Updater (fun prev =>
         ld <- alloc ;;
         ls <- alloc ;;
         ret (Plain (mkPatch
           (Some (mkBox ls (mkSettings (tripMode (val (settings prev)))
                                       (motion (val (settings prev)))
                                       (sound (val (settings prev)))
                                       (streak (val (settings prev)) + 1))))
           (Some (mkBox ld (with_latch true (val (data prev)))))
           None)))) ;;;
       next <- getState ;;
       (if motion (val (settings next)) then log [Glow; Confetti] else ret tt) ;;;
       log [Toasted TCompleted]
   else
     if completedOnce (val (data st)) then
       setState (Updater (fun prev =>
         ld <- alloc ;;
         ret (Plain (mkPatch None
                             (Some (mkBox ld (with_latch false (val (data prev)))))
                             None))))
     else ret tt) ;;;
  ret result.

(** The [onToggle] handler wired by [boot]. *)
Definition onToggle (id : jstr) : M Progress :=
  toggleDone id ;;; runProgress.

(** The mutations of the action layer. *)
Inductive Action : Type :=
  | ToggleDone (id : jstr)
  | DeleteItem (id : jstr)
  | ResetChecks
  | SetAll (done : bool)
  | CreateItem (a : CreateArgs)
  | ChangeMode (mode : option jstr)
  | WipeAll.

Definition perform (a : Action) : M unit :=
  match a with
  | ToggleDone id => toggleDone id
  | DeleteItem id => deleteItem id
  | ResetChecks => resetChecks
  | SetAll b => setAll b
  | CreateItem args => _ <- createItem args ;; ret tt
  | ChangeMode m => changeMode m
  | WipeAll => wipeAll
  end.

End Actions.


(** ** Properties of documents *)

Definition emoji_short (e : option jstr) : Prop :=
  match e with
  | Some s => (length s <= 4)%nat
  | None => True
  end.

(** What [repairCat] establishes. *)
Definition cat_shape (c : Cat) : Prop :=
  trim (c_id c) = c_id c /\ c_id c <> [] /\
  trim (c_name c) = c_name c /\ c_name c <> [] /\
  emoji_short (c_emoji c).

(** What [repairItem] and the re-pointing establish. *)
Definition item_shape (cids : list jstr) (it : Item) : Prop :=
  i_cat it ∈ cids /\ (length (i_name it) <= 80)%nat /\ emoji_short (i_emoji it).

Definition shape_ok (d : Document) : Prop :=
  version d = 2 /\ cats d <> [] /\
  Forall cat_shape (cats d) /\
  Forall (item_shape (cat_ids d)) (items d).

(** No field that a second repair would read as missing, and no id it
    would draw again. *)
Definition settled (d : Document) : Prop :=
  mode d <> [] /\
  Forall (fun c => c_emoji c <> Some []) (cats d) /\
  Forall (fun it => i_id it <> [] /\ i_name it <> [] /\ i_emoji it <> Some [])
         (items d) /\
  NoDup (ids d).

(** Category referential integrity. *)
Definition refs_ok (d : Document) : Prop :=
  Forall (fun it => i_cat it ∈ cat_ids d) (items d).

Definition tpl_shape (cids : list jstr) (t : Tpl) : Prop :=
  t_cat t ∈ cids /\ (length (t_name t) <= 80)%nat /\ (length (t_emoji t) <= 4)%nat.

Definition preset_shape (p : Preset) : Prop :=
  p_cats p <> [] /\ Forall cat_shape (p_cats p) /\
  Forall (tpl_shape (c_id <$> p_cats p)) (p_items p) /\
  NoDup (c_id <$> p_cats p).

#[global] Instance Cat_eq_dec : EqDecision Cat.
Proof. solve_decision. Defined.
#[global] Instance emoji_short_dec e : Decision (emoji_short e).
Proof. destruct e; simpl; apply _. Defined.
#[global] Instance cat_shape_dec c : Decision (cat_shape c).
Proof. unfold cat_shape. apply _. Defined.
#[global] Instance item_shape_dec cids it : Decision (item_shape cids it).
Proof. unfold item_shape. apply _. Defined.
#[global] Instance shape_ok_dec d : Decision (shape_ok d).
Proof. unfold shape_ok. apply _. Defined.
#[global] Instance settled_dec d : Decision (settled d).
Proof. unfold settled. apply _. Defined.
#[global] Instance refs_ok_dec d : Decision (refs_ok d).
Proof. unfold refs_ok. apply _. Defined.
#[global] Instance tpl_shape_dec cids t : Decision (tpl_shape cids t).
Proof. unfold tpl_shape. apply _. Defined.
#[global] Instance preset_shape_dec p : Decision (preset_shape p).
Proof. unfold preset_shape. apply _. Defined.

(** ** Inputs that lose their structure *)

Definition is_array (v : JsVal) : bool :=
  match v with JArr _ => true | _ => false end.

(** [d] passes the first test of [repairData]. *)
Definition is_object (v : JsVal) : bool := truthy v && typeof_object v.

(** [cats] is not an array, or [items] is not an array, or [cats] is
    empty. *)
Definition lacks_structure (v : JsVal) : Prop :=
  is_array (get v (u "cats")) = false \/
  is_array (get v (u "items")) = false \/
  get v (u "cats") = JArr [].

(** [String(d.mode || fallbackMode || defaultSettings.tripMode)] *)
Definition resolved_mode (v : JsVal) (fallbackMode : jstr) : option jstr :=
  ToString (js_or (get v (u "mode"))
              (js_or (JStr fallbackMode) (JStr (tripMode DEFAULT_SETTINGS)))).

Definition not_parsed (st : Stored) : Prop :=
  match st with Parsed _ => False | _ => True end.

(** ** Sample inputs *)

(** An id source with pairwise distinct values: "i", "ii", "iii", ... *)
Definition uid0 (k : nat) : jstr := replicate (S k) 105%N.

(** A stored category whose emoji is the empty array. *)
Definition blank_emoji_doc : JsVal :=
  JObj [ (u "cats", JArr [ JObj [ (u "id", JStr (u "a"));
                                  (u "name", JStr (u "A"));
                                  (u "emoji", JArr []) ] ]);
         (u "items", JArr []) ].

(** A stored document: the second item has no id, the third names a
    category that does not exist. *)
Definition stored_doc : JsVal :=
  JObj [ (u "version", JNum (num_of_int 2)); (u "mode", JStr (u "viaje"));
         (u "cats", JArr [ JObj [ (u "id", JStr (u "docs"));
                                  (u "name", JStr (u "Documentos")) ];
                           JObj [ (u "id", JStr (u "otros"));
                                  (u "name", JStr (u "Otros"));
                                  (u "emoji", JStr [10024]%N) ] ]);
         (u "items", JArr [ JObj [ (u "id", JStr (u "p1"));
                                   (u "cat", JStr (u "docs"));
                                   (u "name", JStr (u "Pasaporte"));
                                   (u "done", JBool true) ];
                            JObj [ (u "cat", JStr (u "docs"));
                                   (u "name", JStr (u "Tiquetes")) ];
                            JObj [ (u "id", JStr (u "p3"));
                                   (u "cat", JStr (u "salud"));
                                   (u "name", JStr (u "Medicinas")) ] ]);
         (u "__completedOnce", JBool false) ].

(** [cats] is not an array and an item's [cat] cannot be converted to a
    string. *)
Definition throwing_item_doc : JsVal :=
  JObj [ (u "mode", JStr (u "viaje")); (u "cats", JNum (num_of_int 0));
         (u "items", JArr [ JObj [ (u "cat", JObj [ (u "toString",
                                                      JNum (num_of_int 0)) ]) ] ]) ].

(** Two stored categories with the same id. *)
Definition twin_cats_doc : JsVal :=
  JObj [ (u "cats", JArr [ JObj [ (u "id", JStr (u "a")) ];
                           JObj [ (u "id", JStr (u "a")) ] ]);
         (u "items", JArr []) ].

(** A stored item whose id has a blank on either side; [repairItem]
    converts the id and does not trim it. *)
Definition untrimmed_id_doc : JsVal :=
  JObj [ (u "cats", JArr [ JObj [ (u "id", JStr (u "otros"));
                                  (u "name", JStr (u "Otros")) ] ]);
         (u "items", JArr [ JObj [ (u "id", JStr (u " a "));
                                   (u "cat", JStr (u "otros"));
                                   (u "name", JStr (u "Llaves")) ] ]) ].

(** Stored items of which two carry the same id and one the id that
    [uid0] gives first. *)
Definition colliding_draw_doc : JsVal :=
  JObj [ (u "cats", JArr [ JObj [ (u "id", JStr (u "otros")) ] ]);
         (u "items", JArr [ JObj [ (u "id", JStr (u "i")) ];
                            JObj [ (u "id", JStr (u "x")) ];
                            JObj [ (u "id", JStr (u "x")) ] ]) ].

(** The id a stored item carries, as [repairItem] reads it. *)
Definition stored_id (it : JsVal) : option jstr :=
  if truthy (get it (u "id")) then ToString (get it (u "id")) else None.

Definition stored_ids (st : Stored) : list jstr :=
  match st with
  | Parsed v =>
      match get v (u "items") with
      | JArr l => omap stored_id l
      | _ => []
      end
  | _ => []
  end.

(** ** Well-formed stores *)

(** Every object of the current state was allocated before. *)
Definition wf (w : World) : Prop :=
  (s_loc (w_state w) < w_next_loc w)%nat /\
  (loc (settings (w_state w)) < w_next_loc w)%nat /\
  (loc (data (w_state w)) < w_next_loc w)%nat.


(** The world after [setState] committed the plain object [p] returned by
    an updater that created [k] objects and left the id counter at [n]. *)
Definition committed (p : Patch) (k n : nat) (w : World) : World :=
  let next := merge (k + w_next_loc w) (w_state w) p in
  mkWorld next (w_listeners w) (S (k + w_next_loc w)) n
          (w_trace w ++ notices (w_state w) next (w_listeners w)).

(** The world an updater leaves behind: [k] more objects, counter [n]. *)
Definition grown (k n : nat) (w : World) : World :=
  mkWorld (w_state w) (w_listeners w) (k + w_next_loc w) n (w_trace w).

Definition logged (es : list Event) (w : World) : World :=
  mkWorld (w_state w) (w_listeners w) (w_next_loc w) (w_uids w) (w_trace w ++ es).

(** The patch [updateData] hands to the store. *)
Definition data_patch (d : Document) (w : World) : Patch :=
  mkPatch (Some (settings (w_state w))) (Some (mkBox (w_next_loc w) d))
          (Some (activeCat (w_state w))).

Definition settings_patch (t : Settings) (w : World) : Patch :=
  mkPatch (Some (mkBox (w_next_loc w) t)) (Some (data (w_state w)))
          (Some (activeCat (w_state w))).

(** The world after [updateData] stored [d], the id counter at [n]. *)
Definition data_saved (d : Document) (n : nat) (w : World) : World :=
  logged [SaveDataDebounced d] (committed (data_patch d w) 1 n w).

Definition settings_saved (t : Settings) (w : World) : World :=
  logged [SaveSettingsDebounced t] (committed (settings_patch t w) 1 (w_uids w) w).

(** The objects of a patch were allocated below [bound]. *)
Definition patch_below (bound : nat) (p : Patch) : Prop :=
  match p_settings p with Some b => (loc b < bound)%nat | None => True end /\
  match p_data p with Some b => (loc b < bound)%nat | None => True end.

(** ** What the mutators compute *)

Definition toggled (id : jstr) (d : Document) : Document :=
  match toggle_first (ensureString (Some id) 120) (items d) with
  | Some l => with_latch false (with_items l d)
  | None => d
  end.

Definition deleted (id : jstr) (d : Document) : Document :=
  with_latch false
    (with_items (filter (fun x => i_id x ≠ ensureString (Some id) 120) (items d)) d).

Definition all_set (b : bool) (d : Document) : Document :=
  with_latch false (with_items (with_done b <$> items d) d).

Definition clean_cat (a : CreateArgs) : jstr :=
  str_or (ensureString (Some (default (u "otros") (a_cat a))) 40) (u "otros").

Definition new_item (a : CreateArgs) (id : jstr) : Item :=
  mkItem id (clean_cat a) (ensureString (a_name a) 60)
         (normalizeEmoji (a_emoji a)) false.

Definition created (a : CreateArgs) (id : jstr) (d : Document) : Document :=
  with_latch false (with_items (new_item a id :: items d) d).

(** [total > 0 && done === total] *)
Definition complete (d : Document) : bool :=
  bool_decide (0 < length (items d))%nat &&
  bool_decide (length (filter (fun i => i_done i = true) (items d))
               = length (items d)).

Definition streak_up (t : Settings) : Settings :=
  mkSettings (tripMode t) (motion t) (sound t) (streak t + 1).

Definition with_mode (m : jstr) (t : Settings) : Settings :=
  mkSettings m (motion t) (sound t) (streak t).

Definition clean_mode (mode : option jstr) : jstr :=
  str_or (ensureString mode 24) (u "salida").

(** What [runProgress] does to the document and to the settings. *)
Definition settle_doc (d : Document) : Document :=
  with_latch (complete d) d.

Definition settle_prefs (d : Document) (t : Settings) : Settings :=
  if complete d && negb (completedOnce d) then streak_up t else t.

(** An id that [toggleDone] looks up as it is: trimmed, at most 120 code
    units, not empty. *)
Definition clean_id (id : jstr) : Prop :=
  ensureString (Some id) 120 = id /\ id <> [].

(** Items the user still has to tick, in list order. *)
Definition pend (l : list Item) : list jstr :=
  i_id <$> filter (fun i => i_done i = false) l.

Definition pending (d : Document) : list jstr := pend (items d).

(** Every item has its own id and [toggleDone] can find it. *)
Definition tickable (d : Document) : Prop :=
  items d <> [] /\ NoDup (ids d) /\ Forall clean_id (ids d).


(** [onToggle] on each id of a list, in order. *)
Fixpoint toggle_each (l : list jstr) : M unit :=
  match l with
  | [] => ret tt
  | id :: r => _ <- onToggle id ;; toggle_each r
  end.

(** ** Sample store *)

(** The "salida" preset with the ids of [uid0]. *)
Definition sample_doc : Document :=
  match fst (newPreset uid0 (u "salida") O) with
  | Ret d => d
  | Throw => mkDoc 2 [] [] [] false
  end.

(** The store [boot] builds from default settings and [sample_doc]. *)
Definition sample_world : World := boot_store DEFAULT_SETTINGS sample_doc 9.

(** An id injected into [createItem] is new and will not be drawn later. *)
Definition injected_fresh (uid : nat -> jstr) (act : Action) (w : World) : Prop :=
  match act with
  | CreateItem a =>
      match a_uid a with
      | Some s => (s ∉ ids (doc w)) /\
                  (forall k, (w_uids w <= k)%nat -> uid k <> s)
      | None => True
      end
  | _ => True
  end.

(** The category [createItem] writes is one of the document. *)
Definition known_category (act : Action) (w : World) : Prop :=
  match act with
  | CreateItem a => clean_cat a ∈ cat_ids (doc w)
  | _ => True
  end.

#[global] Instance clean_id_dec id : Decision (clean_id id).
Proof. unfold clean_id. apply _. Defined.
#[global] Instance tickable_dec d : Decision (tickable d).
Proof. unfold tickable. apply _. Defined.
#[global] Instance wf_dec w : Decision (wf w).
Proof. unfold wf. apply _. Defined.

(** A preset item template and the item made from it. *)
Definition from_tpl (t : Tpl) (it : Item) : Prop :=
  i_cat it = t_cat t /\ i_name it = t_name t /\
  i_emoji it = (if str_truthy (t_emoji t) then Some (t_emoji t) else None) /\
  i_done it = false.

Section Origins.

Variable uid : nat -> jstr.

(** Where the id of a repaired item comes from: the stored value or a
    draw. *)
Definition id_origin (it : JsVal) (n : nat) (it' : Item) (n' : nat) : Prop :=
  (truthy (get it (u "id")) = true /\
   ToString (get it (u "id")) = Some (i_id it') /\ n' = n) \/
  (i_id it' = uid n /\ n' = S n).

(** The id [createItem] gives the new item and the counter afterwards. *)
Definition drawn_id (a : CreateArgs) (w : World) : jstr * nat :=
  match a_uid a with
  | Some s => (s, w_uids w)
  | None => (uid (w_uids w), S (w_uids w))
  end.

End Origins.

(** The patch of the second [setState] of [changeMode]. *)
Definition preset_patch (d : Document) (w : World) : Patch :=
  mkPatch (Some (settings (w_state w))) (Some (mkBox (w_next_loc w) d))
          (Some (u "all")).

(** The patch of [wipeAll]. *)
Definition wipe_patch (d : Document) (w : World) : Patch :=
  mkPatch (Some (mkBox (w_next_loc w) (mkSettings (u "salida") true true 0)))
          (Some (mkBox (S (w_next_loc w)) d)) (Some (u "all")).

(** * The rest of the storage layer, the store and the action layer *)

#[global] Instance Item_eq_dec : EqDecision Item.
Proof. solve_decision. Defined.

(** ** Numbers ([clampInt] of [src/storage.js]) *)

Definition settings_fields (t : Settings) : list (jstr * JsVal) :=
  [ (u "tripMode", JStr (tripMode t)); (u "motion", JBool (motion t));
    (u "sound", JBool (sound t));
    (u "streak", JNum (num_of_int (streak t))) ].

Definition settings_js (t : Settings) : JsVal := JObj (settings_fields t).

(** The key of the element at index [i]. *)
Definition index_key (i : nat) : jstr := Z_to_str (Z.of_nat i).

(** The own enumerable properties a spread [...v] copies: those of an
    object, the elements of an array and the code units of a string under
    their indices, nothing for any other value. *)
Definition own_props (v : JsVal) : list (jstr * JsVal) :=
  match v with
  | JObj fs => fs
  | JArr l => imap (fun i x => (index_key i, x)) l
  | JStr s => imap (fun i c => (index_key i, JStr [c])) s
  | _ => []
  end.

(** [{ ...defaultSettings, ...v }]: a property of [v] comes before the
    default of the same name, so that the lookup finds it first. *)
Definition spread_defaults (v : JsVal) : JsVal :=
  JObj (own_props v ++ settings_fields DEFAULT_SETTINGS).

Section Numbers.

(** [StringToNumber] of the engine: the number a string converts to. *)
Variable StringToNumber : jstr -> JsNum.

(** [Number(v)]; [None] is the TypeError of ToPrimitive.  An array or an
    object converts through its string. *)
Definition Number_ (v : JsVal) : option JsNum :=
  match v with
  | JUndefined => Some NaN
  | JNull => Some (Finite (inject_Z 0))
  | JBool b => Some (Finite (inject_Z (if b then 1 else 0)))
  | JNum n => Some (num_value n)
  | JStr s => Some (StringToNumber s)
  | JArr _ | JObj _ => StringToNumber <$> ToString v
  end.

Definition clampInt {S} (v : JsVal) (min max : Z) : ST S Z :=
  match Number_ v with
  | None => throw
  | Some (Finite q) => ret (Z.min max (Z.max min (Qfloor q)))
  | Some _ => ret min
  end.

(** [sanitizeSettings(s)], as far as the four properties of [Settings]
    go: the object the source returns also keeps every other property of
    [out]. *)
Definition sanitizeSettings {S} (s : JsVal) : ST S Settings :=
  let out := spread_defaults (if truthy s then s else JObj []) in
  tm <- String_ (js_or (get out (u "tripMode"))
                   (JStr (tripMode DEFAULT_SETTINGS))) ;;
  st <- clampInt (get out (u "streak")) 0 999999 ;;
  ret (mkSettings tm (truthy (get out (u "motion")))
                  (truthy (get out (u "sound"))) st).

Definition loadSettings {S} (stored : Stored) : ST S Settings :=
  catch (match stored with
         | StorageThrows | Malformed => throw
         | NoEntry => sanitizeSettings (spread_defaults (JObj []))
         | Parsed parsed => sanitizeSettings (spread_defaults parsed)
         end)
        (sanitizeSettings (spread_defaults JUndefined)).

End Numbers.

(** ** The two storage cells *)

(** What each key of [localStorage] holds, read through [getItem] and
    [JSON.parse]; a value written with [JSON.stringify] is read back as
    the same value. *)
Record Storage : Type := mkStorage {
  data_cell : Stored;
  settings_cell : Stored
}.

Module Persist.
Section Writes.

Variable StringToNumber : jstr -> JsNum.
Variable uid : nat -> jstr.

(** [setItem] succeeds when [writable]; a failure is swallowed by the
    [catch] and leaves the cell as it was. *)
Definition saveSettings (writable : bool) (settings : Settings)
    (sto : Storage) : Storage :=
  match sanitizeSettings StringToNumber (settings_js settings) tt with
  | (Ret t, _) =>
      if writable then mkStorage (data_cell sto) (Parsed (settings_js t))
      else sto
  | (Throw, _) => sto
  end.

Definition saveData (writable : bool) (data : Document) (sto : Storage)
  : ST nat Storage :=
  catch (d <- repairData uid (doc_js data)
                (str_or (mode data) (tripMode DEFAULT_SETTINGS)) ;;
         if writable then ret (mkStorage (Parsed (doc_js d)) (settings_cell sto))
         else throw)
        (ret sto).

End Writes.
End Persist.

(** ** [select] of [src/state.js] *)

Section Select.

Context {A : Type}.
Variable selector : State -> A.
Variable equal : A -> A -> bool.

(** One notification reaching the listener of [select]: the call
    [onChange(nextSlice, old)] it makes, if any, and the slice it
    remembers afterwards. *)
Definition select_step (prevSlice : A) (next : State) : option (A * A) * A :=
  let nextSlice := selector next in
  if equal prevSlice nextSlice then (None, prevSlice)
  else (Some (nextSlice, prevSlice), nextSlice).

(** The calls made over a run of notifications, and the last slice. *)
Fixpoint select_run (prevSlice : A) (nexts : list State) : list (A * A) * A :=
  match nexts with
  | [] => ([], prevSlice)
  | next :: r =>
      let '(call, slice) := select_step prevSlice next in
      let '(calls, final) := select_run slice r in
      (match call with Some c => c :: calls | None => calls end, final)
  end.

End Select.

(** ** More of the action layer *)

(** [onCompletedOnce] of [src/actions.js]. *)
Definition onCompletedOnce : M unit :=
  s <- getState ;;
  let its := items (val (data s)) in
  match its with
  | [] => ret tt
  | _ =>
      let done := length (filter (fun i => i_done i = true) its) in
      let total := length its in
      if bool_decide (total = 0%nat) || negb (bool_decide (done = total))
      then ret tt
      else if completedOnce (val (data s)) then ret tt
      else
        updateData (fun d => ret (with_latch true d)) ;;;
        updateSettings (fun t => ret (streak_up t)) ;;;
        (if motion (val (settings s)) then log [Confetti] else ret tt) ;;;
        safeToast TCompleted
  end.

(** The handlers of the "select all", "uncheck all" and "reset" buttons
    ([src/ui.js]) with the [renderAll] that follows each, as far as the
    state goes. *)
Definition onSelectAll : M Progress := setAll true ;;; runProgress.
Definition onUncheckAll : M Progress := setAll false ;;; runProgress.
Definition onReset : M Progress := resetChecks ;;; runProgress.

(** The [onDelete] and [onTab] handlers of [boot]. *)
Definition onDelete (id : jstr) : M Progress := deleteItem id ;;; runProgress.

Definition onTab (catId : jstr) : M Progress :=
  safeHaptic 10 ;;;
  setState (PatchObj (mkPatch None None (Some catId))) ;;;
  runProgress.

(** ** [filteredItems] and [esc] of [src/render.js] *)

Definition filteredItems (st : State) : list Item :=
  let its := items (val (data st)) in
  let active := str_or (activeCat st) (u "all") in
  if decide (active = u "all") then its
  else filter (fun i => i_cat i = active) its.

(** The replacement of one code unit by [esc]. *)
Definition esc_unit (c : N) : jstr :=
  if decide (c = 38%N) then u "&amp;"
  else if decide (c = 60%N) then u "&lt;"
  else if decide (c = 62%N) then u "&gt;"
  else if decide (c = 34%N) then u "&quot;"
  else if decide (c = 39%N) then u "&#39;"
  else [c].

(** [esc(s)]; [None] is [null] or [undefined]. *)
Definition esc (s : option jstr) : jstr :=
  mjoin (esc_unit <$> default [] s).

(** The code units [esc] replaces, but for the ampersand. *)
Definition markup_units : list N := [60; 62; 34; 39]%N.

(** ** The grouping of [shareList] ([src/actions.js]) *)

(** [it.cat || 'otros'] *)
Definition share_key (it : Item) : jstr := str_or (i_cat it) (u "otros").

(** [if (!byCat.has(key)) byCat.set(key, []); byCat.get(key).push(it)] on
    a [Map], whose entries keep the order in which their keys came. *)
Fixpoint group_push (key : jstr) (it : Item) (byCat : list (jstr * list Item))
  : list (jstr * list Item) :=
  match byCat with
  | [] => [(key, [it])]
  | (k, arr) :: r =>
      if decide (k = key) then (k, arr ++ [it]) :: r
      else (k, arr) :: group_push key it r
  end.

Definition byCat (its : list Item) : list (jstr * list Item) :=
  foldl (fun g it => group_push (share_key it) it g) [] its.

(** An entry of the grouping holds, in list order, the items whose key
    is its key, and at least one. *)
Definition group_entry_ok (its : list Item) (e : jstr * list Item) : Prop :=
  snd e <> [] /\ snd e = filter (fun it => share_key it = fst e) its.

Definition group_ok (its : list Item) (g : list (jstr * list Item)) : Prop :=
  NoDup (fst <$> g) /\
  Forall (group_entry_ok its) g /\
  Forall (fun it => share_key it ∈ fst <$> g) its.

(** ** What the storage layer computes *)

(** The settings [sanitizeSettings] makes of settings held in memory. *)
Definition sanitized (t : Settings) : Settings :=
  mkSettings (str_or (tripMode t) (tripMode DEFAULT_SETTINGS))
             (motion t) (sound t) (Z.min 999999 (Z.max 0 (streak t))).

(** How a repaired item relates to the stored value it was made from,
    [cids] being the ids of the repaired categories. *)
Definition repaired_from (cids : list jstr) (raw : JsVal) (it : Item) : Prop :=
  i_done it = truthy (get raw (u "done")) /\
  (exists nm, ToString (js_or (get raw (u "name")) (JStr (u "Sin nombre")))
              = Some nm /\ i_name it = slice0 80 nm) /\
  (exists c, ToString (js_or (get raw (u "cat")) (JStr (u "otros"))) = Some c /\
             i_cat it = if decide (c ∈ cids) then c
                        else if decide (u "otros" ∈ cids) then u "otros"
                        else hd [] cids).

(** The two loads of [boot] ([src/app.js]) and the store built from them. *)
Definition boot_load (StringToNumber : jstr -> JsNum) (uid : nat -> jstr)
  (sto : Storage) : ST nat World :=
  settings <- loadSettings StringToNumber (settings_cell sto) ;;
  data <- loadData uid (ModeSettings settings) (data_cell sto) ;;
  fun n => (Ret (boot_store settings data n), n).

(** * Proofs *)

(** ** Strings *)

Example ToString_nested :
  ToString (JArr [JNum (num_of_int 1); JNull; JArr [JStr (u "a"); JBool true]])
  = Some (u "1,,a,true").
Proof. reflexivity. Qed.

Example ToString_negative :
  ToString (JNum (num_of_int (-120))) = Some (u "-120").
Proof. reflexivity. Qed.

Example ToString_own_toString :
  ToString (JObj [(u "toString", JNum (num_of_int 0))]) = None.
Proof. reflexivity. Qed.

(** A stored number is converted to the text it carries: 2^60 reads
    1152921504606847000 and 10^21 reads 1e+21. *)
Example repairItem_number_fields :
  fst (repairItem uid0
         (JObj [ (u "id", JNum (mkNum (Finite (inject_Z (10 ^ 21))) (u "1e+21")));
                 (u "name", JNum (mkNum (Finite (inject_Z (2 ^ 60)))
                                        (u "1152921504606847000"))) ]) O)
  = Ret (mkItem (u "1e+21") (u "otros") (u "1152921504606847000") None false).
Proof. reflexivity. Qed.

Example spread_of_array :
  spread_defaults (JArr [JBool true])
  = JObj ((u "0", JBool true) :: settings_fields DEFAULT_SETTINGS).
Proof. reflexivity. Qed.

Example trim_both_ends : trim (u "  a b  ") = u "a b".
Proof. reflexivity. Qed.

Lemma trimStart_head s c r : trimStart s = c :: r -> is_ws c = false.
Proof.
  induction s as [|a s IH]; simpl; [discriminate|].
  destruct (is_ws a) eqn:E; [exact IH|].
  intros [= <- _]. exact E.
Qed.

Lemma trimStart_fixed c r : is_ws c = false -> trimStart (c :: r) = c :: r.
Proof. intros E. simpl. now rewrite E. Qed.

Lemma trimStart_idem s : trimStart (trimStart s) = trimStart s.
Proof.
  destruct (trimStart s) as [|c r] eqn:E; [reflexivity|].
  apply trimStart_fixed. eapply trimStart_head, E.
Qed.

Lemma trimStart_split s : exists p, s = p ++ trimStart s.
Proof.
  induction s as [|a s [p IH]]; simpl; [now exists []|].
  destruct (is_ws a).
  - exists (a :: p). simpl. now f_equal.
  - now exists [].
Qed.

Lemma trim_idem s : trim (trim s) = trim s.
Proof.
  unfold trim.
  set (t := trimStart s).
  set (r := trimStart (rev t)).
  assert (A : trimStart (rev r) = rev r).
  { destruct (rev r) as [|c x] eqn:E; [reflexivity|].
    apply trimStart_fixed.
    destruct (trimStart_split (rev t)) as [p Hp]. fold r in Hp.
    assert (Ht : t = (c :: x) ++ rev p).
    { rewrite <- E, <- rev_app_distr, <- Hp. now rewrite rev_involutive. }
    eapply trimStart_head. unfold t in Ht. exact Ht. }
  rewrite A, rev_involutive. unfold r. now rewrite trimStart_idem.
Qed.

Lemma take_short {A} n (l : list A) : (length l <= n)%nat -> take n l = l.
Proof. intros. now apply take_ge. Qed.

Lemma str_or_truthy s d : s <> [] -> str_or s d = s.
Proof. now destruct s. Qed.

Lemma str_truthy_true s : str_truthy s = true <-> s <> [].
Proof. destruct s; simpl; split; congruence. Qed.

(** ** Computations *)

Lemma bind_Ret {S A B} (m : ST S A) (k : A -> ST S B) s b s' :
  bind m k s = (Ret b, s') ->
  exists a s1, m s = (Ret a, s1) /\ k a s1 = (Ret b, s').
Proof.
  unfold bind. destruct (m s) as [[a|] s1]; [eauto|discriminate].
Qed.

Lemma bind_run {S A B} (m : ST S A) (k : A -> ST S B) s a s1 :
  m s = (Ret a, s1) -> bind m k s = k a s1.
Proof. unfold bind. now intros ->. Qed.

Lemma bind_throw {S A B} (m : ST S A) (k : A -> ST S B) s s1 :
  m s = (Throw, s1) -> bind m k s = (Throw, s1).
Proof. unfold bind. now intros ->. Qed.

Lemma ret_Ret {S A} (a b : A) (s s' : S) :
  ret a s = (Ret b, s') -> a = b /\ s = s'.
Proof. unfold ret. now intros [= -> ->]. Qed.

Ltac inv_ret H :=
  let E := fresh "Eret" in
  apply ret_Ret in H; destruct H as [E ?]; simplify_eq.

Ltac inv_bind H :=
  let a := fresh "a" in
  let s := fresh "s" in
  let H1 := fresh "Hm" in
  apply bind_Ret in H; destruct H as (a & s & H1 & H).

Tactic Notation "bind_inv" hyp(H) "as" ident(a) ident(s) ident(H1) :=
  apply bind_Ret in H; destruct H as (a & s & H1 & H).

(** ** The preset catalog *)

Ltac by_computation := apply (bool_decide_unpack _); vm_compute; exact I.

Lemma catalog_shape : Forall preset_shape (snd <$> catalog).
Proof. by_computation. Qed.

Lemma presetFor_catalog m p : presetFor m = IsPreset p -> p ∈ snd <$> catalog.
Proof.
  unfold presetFor.
  destruct (assoc m catalog) as [q|] eqn:E.
  - intros [= <-]. revert E. generalize catalog.
    induction l as [|[k a] l IH]; simpl; [discriminate|].
    destruct (decide (m = k)).
    + intros [= ->]. apply list_elem_of_here.
    + intros H. apply list_elem_of_further. auto.
  - destruct (bool_decide _); [discriminate|].
    intros [= <-]. apply list_elem_of_here.
Qed.

Lemma presetFor_shape m p : presetFor m = IsPreset p -> preset_shape p.
Proof.
  intros H. apply presetFor_catalog in H.
  pose proof catalog_shape as F. rewrite Forall_forall in F. auto.
Qed.

(** ** Reading back a document *)

Lemma get_doc_mode d : get (doc_js d) (u "mode") = JStr (mode d).
Proof. reflexivity. Qed.
Lemma get_doc_cats d : get (doc_js d) (u "cats") = JArr (cat_js <$> cats d).
Proof. reflexivity. Qed.
Lemma get_doc_items d : get (doc_js d) (u "items") = JArr (item_js <$> items d).
Proof. reflexivity. Qed.
Lemma get_doc_latch d :
  get (doc_js d) (u "__completedOnce") = JBool (completedOnce d).
Proof. reflexivity. Qed.
Lemma get_cat_id c : get (cat_js c) (u "id") = JStr (c_id c).
Proof. reflexivity. Qed.
Lemma get_cat_name c : get (cat_js c) (u "name") = JStr (c_name c).
Proof. reflexivity. Qed.
Lemma get_cat_emoji c : get (cat_js c) (u "emoji") = opt_js (c_emoji c).
Proof. reflexivity. Qed.
Lemma get_item_id it : get (item_js it) (u "id") = JStr (i_id it).
Proof. reflexivity. Qed.
Lemma get_item_cat it : get (item_js it) (u "cat") = JStr (i_cat it).
Proof. reflexivity. Qed.
Lemma get_item_name it : get (item_js it) (u "name") = JStr (i_name it).
Proof. reflexivity. Qed.
Lemma get_item_emoji it : get (item_js it) (u "emoji") = opt_js (i_emoji it).
Proof. reflexivity. Qed.
Lemma get_item_done it : get (item_js it) (u "done") = JBool (i_done it).
Proof. reflexivity. Qed.

Lemma String_or {S} s d (n : S) :
  s <> [] -> String_ (js_or (JStr s) d) n = (Ret s, n).
Proof. destruct s; [congruence|reflexivity]. Qed.

Lemma String_Ret {S} v (n n' : S) s :
  String_ v n = (Ret s, n') -> ToString v = Some s /\ n' = n.
Proof.
  unfold String_. destruct (ToString v); [|discriminate].
  now intros [= -> ->].
Qed.

Lemma mapM_fmap_fix {S A B} (f : A -> ST S B) (g : B -> A) l s :
  Forall (fun x => f (g x) s = (Ret x, s)) l ->
  mapM f (g <$> l) s = (Ret l, s).
Proof.
  induction 1 as [|x l Hx _ IH]; [reflexivity|].
  cbn [fmap list_fmap mapM]. rewrite (bind_run _ _ _ _ _ Hx).
  change (list_fmap B A g l) with (g <$> l).
  now rewrite (bind_run _ _ _ _ _ IH).
Qed.

Lemma mapM_Forall {S A B} (f : A -> ST S B) (P : B -> Prop) :
  (forall x s y s', f x s = (Ret y, s') -> P y) ->
  forall l s l' s', mapM f l s = (Ret l', s') -> Forall P l'.
Proof.
  intros Hf. induction l as [|x l IH]; intros s l' s' H; cbn [mapM] in H.
  - inv_ret H. constructor.
  - inv_bind H. inv_bind H. inv_ret H. constructor; eauto.
Qed.

Lemma mapM_pure {S A B} (f : A -> ST S B) :
  (forall x s y s', f x s = (Ret y, s') -> s' = s) ->
  forall l s l' s', mapM f l s = (Ret l', s') -> s' = s.
Proof.
  intros Hf. induction l as [|x l IH]; intros s l' s' H; cbn [mapM] in H.
  - now inv_ret H.
  - inv_bind H. inv_bind H. inv_ret H.
    apply Hf in Hm. apply IH in Hm0. congruence.
Qed.

Section RepairFacts.

Variable uid : nat -> jstr.

Lemma repair_emoji_fix (v : JsVal) (e : option jstr) n :
  get v (u "emoji") = opt_js e -> emoji_short e -> e <> Some [] ->
  repair_emoji v n = (Ret e, n).
Proof.
  intros G Hs Hn. unfold repair_emoji. rewrite G.
  destruct e as [[|c s]|]; [congruence| |reflexivity].
  cbn in Hs. cbn [opt_js truthy str_truthy]. unfold String_, bind, ret.
  cbn [ToString]. unfold slice0. now rewrite take_short.
Qed.

Lemma repairCat_fix c n :
  cat_shape c -> c_emoji c <> Some [] -> repairCat (cat_js c) n = (Ret c, n).
Proof.
  intros (Hi & Hin & Hn & Hnn & He) Hne. unfold repairCat.
  rewrite get_cat_id, get_cat_name.
  rewrite (bind_run _ _ _ _ _ (String_or _ _ _ Hin)).
  rewrite (bind_run _ _ _ _ _ (String_or _ _ _ Hnn)).
  rewrite (bind_run _ _ _ _ _
             (repair_emoji_fix _ _ _ (get_cat_emoji c) He Hne)).
  rewrite Hi, Hn, !str_or_truthy by assumption.
  now destruct c.
Qed.

Lemma repairItem_fix it n :
  i_id it <> [] -> i_cat it <> [] -> i_name it <> [] ->
  (length (i_name it) <= 80)%nat -> emoji_short (i_emoji it) ->
  i_emoji it <> Some [] ->
  repairItem uid (item_js it) n = (Ret it, n).
Proof.
  intros Hid Hc Hn Hl He Hne. unfold repairItem.
  rewrite get_item_id, get_item_cat, get_item_name, get_item_done.
  assert (T : truthy (JStr (i_id it)) = true)
    by (now apply str_truthy_true).
  rewrite T.
  assert (S1 : String_ (JStr (i_id it)) n = (Ret (i_id it), n)) by reflexivity.
  rewrite (bind_run _ _ _ _ _ S1).
  rewrite (bind_run _ _ _ _ _ (String_or _ _ _ Hc)).
  rewrite (bind_run _ _ _ _ _ (String_or _ _ _ Hn)).
  rewrite (bind_run _ _ _ _ _
             (repair_emoji_fix _ _ _ (get_item_emoji it) He Hne)).
  unfold slice0. rewrite take_short by assumption.
  now destruct it.
Qed.

Lemma with_id_same it : with_id (i_id it) it = it.
Proof. now destruct it. Qed.

Lemma dedupe_fix its : forall (seen : gset jstr) n,
  NoDup (i_id <$> its) ->
  Forall (fun it => i_id it <> [] /\ i_id it ∉ seen) its ->
  dedupe uid seen its n = (Ret its, n).
Proof.
  induction its as [|it r IH]; intros seen n Hnd Hall; [reflexivity|].
  cbn [fmap list_fmap] in Hnd. apply NoDup_cons in Hnd as [Hni Hnd].
  apply Forall_cons in Hall as [[Hne Hns] Hall].
  cbn [dedupe].
  assert (C : (negb (str_truthy (i_id it)) || bool_decide (i_id it ∈ seen))
              = false).
  { apply (proj2 (str_truthy_true _)) in Hne. rewrite Hne. cbn.
    now apply bool_decide_eq_false. }
  rewrite C. unfold bind at 1. unfold ret at 1.
  assert (F : Forall (fun x => i_id x <> [] /\ i_id x ∉ {[ i_id it ]} ∪ seen) r).
  { rewrite Forall_forall in Hall |- *. intros x Hx.
    destruct (Hall x Hx) as [? ?]. split; [assumption|].
    intros [E|?]%elem_of_union; [|contradiction].
    apply elem_of_singleton in E. apply Hni. rewrite <- E.
    now apply list_elem_of_fmap_2. }
  rewrite (bind_run _ _ _ _ _ (IH ({[ i_id it ]} ∪ seen) n Hnd F)).
  unfold ret. now rewrite with_id_same.
Qed.

Lemma repoint_fix (cids : list jstr) fb its :
  Forall (fun it => i_cat it ∈ cids) its ->
  repoint (list_to_set cids) fb <$> its = its.
Proof.
  induction 1 as [|it r H _ IH]; [reflexivity|].
  cbn [fmap list_fmap]. f_equal; [|exact IH].
  unfold repoint. rewrite bool_decide_eq_true_2; [reflexivity|].
  now apply elem_of_list_to_set.
Qed.

(** Repair leaves a well-shaped, settled document as it is and draws
    no id. *)
Lemma repair_fixed d m n :
  shape_ok d -> settled d -> repairData uid (doc_js d) m n = (Ret d, n).
Proof.
  intros (Hv & Hc & Hcs & His) (Hm & Hce & Hie & Hnd).
  unfold repairData.
  change (negb (truthy (doc_js d)) || negb (typeof_object (doc_js d)))
    with false. cbv iota.
  rewrite get_doc_mode, get_doc_cats, get_doc_items, get_doc_latch.
  rewrite (bind_run _ _ _ _ _ (String_or _ _ _ Hm)).
  assert (C : map_if_array repairCat (JArr (cat_js <$> cats d)) n
              = (Ret (Some (cats d)), n)).
  { unfold map_if_array. erewrite bind_run; [reflexivity|].
    apply mapM_fmap_fix. apply Forall_forall.
    rewrite Forall_forall in Hcs. rewrite Forall_forall in Hce.
    intros c Hin. apply repairCat_fix; auto. }
  rewrite (bind_run _ _ _ _ _ C).
  assert (I : map_if_array (repairItem uid) (JArr (item_js <$> items d)) n
              = (Ret (Some (items d)), n)).
  { unfold map_if_array. erewrite bind_run; [reflexivity|].
    apply mapM_fmap_fix. apply Forall_forall.
    rewrite Forall_forall in His. rewrite Forall_forall in Hie.
    rewrite Forall_forall in Hcs.
    intros it Hin. destruct (His it Hin) as (Hcat & Hlen & Hes).
    destruct (Hie it Hin) as (Hid & Hnm & Hem).
    apply repairItem_fix; auto.
    apply list_elem_of_fmap in Hcat as (c & -> & Hc').
    apply (Hcs c Hc'). }
  rewrite (bind_run _ _ _ _ _ I).
  destruct (cats d) as [|c0 cs] eqn:Ec; [congruence|]. rewrite <- Ec.
  assert (R : forall fb, repoint (list_to_set (c_id <$> cats d)) fb <$> items d
                         = items d).
  { intros fb. apply repoint_fix.
    eapply Forall_impl; [exact His|]. now intros it (? & _). }
  rewrite R.
  erewrite bind_run.
  2:{ apply dedupe_fix; [exact Hnd|].
      eapply Forall_impl; [exact Hie|].
      intros it (? & _). split; [assumption|]. apply not_elem_of_empty. }
  unfold ret. cbn [truthy]. rewrite <- Hv. now destruct d.
Qed.

(** *** What repair establishes *)

Lemma clean_or s d :
  trim d = d -> d <> [] ->
  trim (str_or (trim s) d) = str_or (trim s) d /\ str_or (trim s) d <> [].
Proof.
  intros Hd Hn. destruct (trim s) as [|c r] eqn:E; cbn [str_or].
  - auto.
  - rewrite <- E. split; [apply trim_idem|]. rewrite E. discriminate.
Qed.

Lemma repair_emoji_Ret v n e n' :
  repair_emoji v n = (Ret e, n') -> emoji_short e /\ n' = n.
Proof.
  unfold repair_emoji. destruct (truthy _).
  - intros H. inv_bind H. apply String_Ret in Hm as [_ ->]. inv_ret H.
    split; [|reflexivity]. cbn. unfold slice0. rewrite length_take. lia.
  - intros H. inv_ret H. now split.
Qed.

Lemma repairCat_Ret c n c' n' :
  repairCat c n = (Ret c', n') -> cat_shape c' /\ n' = n.
Proof.
  unfold repairCat. intros H.
  inv_bind H. apply String_Ret in Hm as [_ ->].
  inv_bind H. apply String_Ret in Hm as [_ ->].
  inv_bind H. apply repair_emoji_Ret in Hm as [He ->].
  inv_ret H. split; [|reflexivity].
  destruct (clean_or a (u "otros")) as [? ?]; [reflexivity|discriminate|].
  destruct (clean_or a0 (u "Otros")) as [? ?]; [reflexivity|discriminate|].
  repeat split; assumption.
Qed.

Lemma repairItem_Ret it n it' n' :
  repairItem uid it n = (Ret it', n') ->
  (length (i_name it') <= 80)%nat /\ emoji_short (i_emoji it') /\
  id_origin uid it n it' n'.
Proof.
  unfold repairItem. intros H.
  inv_bind H.
  assert (O : (truthy (get it (u "id")) = true /\
               ToString (get it (u "id")) = Some a /\ s = n) \/
              (a = uid n /\ s = S n)).
  { destruct (truthy (get it (u "id"))).
    - apply String_Ret in Hm as [? ->]. now left.
    - unfold makeId in Hm. injection Hm as <- <-. now right. }
  clear Hm.
  inv_bind H. apply String_Ret in Hm as [_ ->].
  inv_bind H. apply String_Ret in Hm as [_ ->].
  inv_bind H. apply repair_emoji_Ret in Hm as [He ->].
  inv_ret H. cbn. split; [|split; assumption].
  unfold slice0. rewrite length_take. lia.
Qed.

Lemma makeId_run n : makeId uid n = (Ret (uid n), S n).
Proof. reflexivity. Qed.

(** The [forEach] always completes; it changes ids only. *)
Lemma dedupe_total its : forall (seen : gset jstr) n,
  exists r n', dedupe uid seen its n = (Ret r, n') /\ (n <= n')%nat /\
               Forall2 (fun a b => b = with_id (i_id b) a) its r.
Proof.
  induction its as [|it rest IH]; intros seen n.
  - exists [], n. repeat split; [lia|constructor].
  - cbn [dedupe].
    destruct (negb (str_truthy (i_id it)) || bool_decide (i_id it ∈ seen)).
    + rewrite (bind_run _ _ _ _ _ (makeId_run n)).
      destruct (IH ({[ uid n ]} ∪ seen) (S n)) as (r & n' & E & Hle & F).
      rewrite (bind_run _ _ _ _ _ E).
      exists (with_id (uid n) it :: r), n'. repeat split; [lia|].
      constructor; [reflexivity|assumption].
    + unfold bind at 1, ret at 1.
      destruct (IH ({[ i_id it ]} ∪ seen) n) as (r & n' & E & Hle & F).
      rewrite (bind_run _ _ _ _ _ E).
      exists (with_id (i_id it) it :: r), n'. repeat split; [lia|].
      constructor; [reflexivity|assumption].
Qed.

Lemma dedupe_Ret its seen n r n' :
  dedupe uid seen its n = (Ret r, n') ->
  (n <= n')%nat /\ Forall2 (fun a b => b = with_id (i_id b) a) its r.
Proof.
  intros H. destruct (dedupe_total its seen n) as (r0 & n0 & E & ? & ?).
  rewrite E in H. injection H as <- <-. now split.
Qed.

(** With fresh draws the result has pairwise distinct ids. *)
Lemma dedupe_NoDup its : forall (seen : gset jstr) n r n',
  (forall i j, uid i = uid j -> i = j) ->
  (forall k, (n <= k)%nat -> (uid k ∉ seen) /\ (uid k ∉ (i_id <$> its))) ->
  dedupe uid seen its n = (Ret r, n') ->
  NoDup (i_id <$> r) /\
  Forall (fun b => (i_id b ∉ seen) /\
                   (forall k, (n' <= k)%nat -> uid k <> i_id b)) r.
Proof.
  induction its as [|it rest IH]; intros seen n r n' Hinj Hfresh H.
  - inv_ret H. split; constructor.
  - cbn [dedupe] in H.
    destruct (negb (str_truthy (i_id it)) || bool_decide (i_id it ∈ seen))
      eqn:C.
    + rewrite (bind_run _ _ _ _ _ (makeId_run n)) in H.
      inv_bind H. inv_ret H.
      pose proof (proj1 (dedupe_Ret _ _ _ _ _ Hm)) as Hle.
      apply IH in Hm as [Hnd Hall]; [|assumption|].
      * cbn [fmap list_fmap]. split.
        -- apply NoDup_cons. split; [|exact Hnd].
           intros (b & Eb & Hb)%list_elem_of_fmap.
           rewrite Forall_forall in Hall. destruct (Hall b Hb) as [Hs _].
           apply Hs. apply elem_of_union_l, elem_of_singleton.
           now rewrite <- Eb.
        -- constructor.
           ++ cbn. split; [apply Hfresh; lia|].
              intros k Hk E. apply Hinj in E. lia.
           ++ eapply Forall_impl; [exact Hall|]. cbn.
              intros b [Hs Hf]. split; [|exact Hf].
              intros Hb. apply Hs. now apply elem_of_union_r.
      * intros k Hk. destruct (Hfresh k) as [F1 F2]; [lia|]. split.
        -- intros [E|?]%elem_of_union; [|contradiction].
           apply elem_of_singleton in E. apply Hinj in E. lia.
        -- intros Hin. apply F2. cbn [fmap list_fmap].
           now apply list_elem_of_further.
    + apply orb_false_iff in C as [_ C]. apply bool_decide_eq_false in C.
      unfold bind at 1, ret at 1 in H.
      inv_bind H. inv_ret H.
      pose proof (proj1 (dedupe_Ret _ _ _ _ _ Hm)) as Hle.
      apply IH in Hm as [Hnd Hall]; [|assumption|].
      * cbn [fmap list_fmap]. split.
        -- apply NoDup_cons. split; [|exact Hnd].
           intros (b & Eb & Hb)%list_elem_of_fmap.
           rewrite Forall_forall in Hall. destruct (Hall b Hb) as [Hs _].
           apply Hs. apply elem_of_union_l, elem_of_singleton.
           now rewrite <- Eb.
        -- constructor.
           ++ cbn. split; [exact C|].
              intros k Hk E. destruct (Hfresh k) as [_ F2]; [lia|].
              apply F2. cbn [fmap list_fmap]. rewrite E.
              apply list_elem_of_here.
           ++ eapply Forall_impl; [exact Hall|]. cbn.
              intros b [Hs Hf]. split; [|exact Hf].
              intros Hb. apply Hs. now apply elem_of_union_r.
      * intros k Hk. destruct (Hfresh k) as [F1 F2]; [lia|]. split.
        -- intros [E|?]%elem_of_union; [|contradiction].
           apply elem_of_singleton in E. apply F2. rewrite E.
           cbn [fmap list_fmap]. apply list_elem_of_here.
        -- intros Hin. apply F2. cbn [fmap list_fmap].
           now apply list_elem_of_further.
Qed.

(** *** Materializing a preset *)

Lemma materialize_all ts : forall n,
  exists its, mapM (materialize uid) ts n = (Ret its, (n + length ts)%nat) /\
              Forall2 from_tpl ts its /\
              i_id <$> its = uid <$> seq n (length ts).
Proof.
  induction ts as [|t ts IH]; intros n.
  - exists []. cbn. rewrite Nat.add_0_r. repeat split. constructor.
  - destruct (IH (S n)) as (its & E & F & I).
    exists (mkItem (uid n) (t_cat t) (t_name t)
              (if str_truthy (t_emoji t) then Some (t_emoji t) else None)
              false :: its).
    split; [|split].
    + cbn [mapM].
      assert (R : materialize uid t n
                  = (Ret (mkItem (uid n) (t_cat t) (t_name t)
                            (if str_truthy (t_emoji t)
                             then Some (t_emoji t) else None) false), S n))
        by reflexivity.
      rewrite (bind_run _ _ _ _ _ R).
      rewrite (bind_run _ _ _ _ _ E). unfold ret. cbn [length].
      now rewrite Nat.add_succ_r.
    + constructor; [now repeat split|assumption].
    + cbn [length seq fmap list_fmap]. f_equal. exact I.
Qed.

Lemma newPreset_Ret m n d n' :
  newPreset uid m n = (Ret d, n') ->
  exists p, presetFor m = IsPreset p /\
            version d = 2 /\ mode d = m /\ cats d = p_cats p /\
            completedOnce d = false /\
            Forall2 from_tpl (p_items p) (items d) /\
            ids d = uid <$> seq n (length (p_items p)) /\
            n' = (n + length (p_items p))%nat.
Proof.
  unfold newPreset. destruct (presetFor m) as [p|]; [|discriminate].
  intros H. exists p. split; [reflexivity|].
  destruct (materialize_all (p_items p) n) as (its & E & F & I).
  rewrite (bind_run _ _ _ _ _ E) in H.
  inv_ret H. cbn. repeat split; assumption.
Qed.

(** [newPreset] returns whenever the mode is not an inherited property
    name. *)
Lemma newPreset_returns m p n :
  presetFor m = IsPreset p ->
  exists d, newPreset uid m n = (Ret d, (n + length (p_items p))%nat).
Proof.
  intros E. unfold newPreset. rewrite E.
  destruct (materialize_all (p_items p) n) as (its & R & _ & _).
  rewrite (bind_run _ _ _ _ _ R). eexists. reflexivity.
Qed.

Lemma newPreset_shape m n d n' :
  newPreset uid m n = (Ret d, n') -> shape_ok d.
Proof.
  intros H. apply newPreset_Ret in H
    as (p & Hp & Hv & _ & Hc & _ & F & _ & _).
  apply presetFor_shape in Hp as (Hne & Hcs & Hts & _).
  unfold shape_ok, cat_ids. rewrite Hc. repeat split; try assumption.
  clear -F Hts. induction F as [|t it ts its Hf _ IH]; [constructor|].
  apply Forall_cons in Hts as [(Hin & Hl & He) Hts].
  constructor; [|auto].
  destruct Hf as (E1 & E2 & E3 & _). unfold item_shape.
  rewrite E1, E2, E3. repeat split; try assumption.
  destruct (str_truthy (t_emoji t)); cbn; [assumption|exact I].
Qed.

Lemma repoint_in (cids : list jstr) fb it :
  fb ∈ cids -> i_cat (repoint (list_to_set cids) fb it) ∈ cids.
Proof.
  intros Hfb. unfold repoint.
  destruct (bool_decide _) eqn:E; [|exact Hfb].
  apply bool_decide_eq_true in E. now apply elem_of_list_to_set in E.
Qed.

Lemma repoint_keeps cids fb it :
  i_id (repoint cids fb it) = i_id it /\
  i_name (repoint cids fb it) = i_name it /\
  i_emoji (repoint cids fb it) = i_emoji it.
Proof. unfold repoint. now destruct (bool_decide _). Qed.

(** The two ways [repairData] returns: a fresh preset, or the repaired
    categories and items of an object. *)
Lemma repairData_Ret d m n doc n' :
  repairData uid d m n = (Ret doc, n') ->
  (exists m' n0, newPreset uid m' n0 = (Ret doc, n')) \/
  (exists l, get d (u "cats") = JArr l /\
             mapM repairCat l n = (Ret (cats doc), n)) /\
  shape_ok doc.
Proof.
  unfold repairData.
  destruct (negb (truthy d) || negb (typeof_object d)); [eauto|].
  intros H. bind_inv H as md n0 Hmd. apply String_Ret in Hmd as [_ ->].
  bind_inv H as ocats n1 Hc.
  bind_inv H as oitems n2 Hi.
  assert (C : n1 = n /\
              match ocats with
              | Some cs => exists l, get d (u "cats") = JArr l /\
                                     mapM repairCat l n = (Ret cs, n) /\
                                     Forall cat_shape cs
              | None => True
              end).
  { unfold map_if_array in Hc.
    destruct (get d (u "cats")); try (inv_ret Hc; now split).
    bind_inv Hc as cs n3 Hcs. inv_ret Hc.
    pose proof (mapM_pure repairCat
                  (fun x s y s' E => proj2 (repairCat_Ret x s y s' E))
                  _ _ _ _ Hcs) as ->.
    split; [reflexivity|]. exists l. repeat split; [assumption|].
    eapply mapM_Forall; [|exact Hcs].
    intros x s y s' E. now apply repairCat_Ret in E. }
  destruct C as [-> C].
  assert (I : match oitems with
              | Some its => Forall (fun it => (length (i_name it) <= 80)%nat /\
                                              emoji_short (i_emoji it)) its
              | None => True
              end).
  { unfold map_if_array in Hi.
    destruct (get d (u "items")); try (inv_ret Hi; exact I).
    bind_inv Hi as its n3 Hits. inv_ret Hi.
    eapply mapM_Forall; [|exact Hits].
    intros x s y s' E. apply repairItem_Ret in E as (? & ? & _). now split. }
  destruct ocats as [cs|], oitems as [its|]; eauto.
  destruct cs as [|c0 cs]; [eauto|]. right.
  bind_inv H as its' n3 Hd. inv_ret H. cbn.
  destruct C as (l & G & Hl & Hcs). split; [exists l; now split|].
  apply dedupe_Ret in Hd as [_ F].
  unfold shape_ok, cat_ids. cbn [version cats items].
  repeat split; [discriminate|assumption|].
  set (cids := c_id <$> c0 :: cs) in *.
  set (fb := if bool_decide (u "otros" ∈ (list_to_set cids : gset jstr))
             then u "otros" else c_id c0) in *.
  assert (Hfb : fb ∈ cids).
  { unfold fb. destruct (bool_decide _) eqn:E.
    - apply bool_decide_eq_true in E. now apply elem_of_list_to_set in E.
    - apply list_elem_of_here. }
  clearbody fb cids. clear -F I Hfb.
  revert its' F. induction I as [|it its [Hl He] _ IH]; intros r F.
  - inversion F. constructor.
  - cbn [fmap list_fmap] in F. inversion F as [|? b ? r' Hb F']; subst.
    constructor; [|apply IH; exact F'].
    rewrite Hb. unfold item_shape. cbn.
    destruct (repoint_keeps (list_to_set cids) fb it) as (_ & -> & ->).
    split; [now apply repoint_in|now split].
Qed.

Lemma repairData_shape d m n doc n' :
  repairData uid d m n = (Ret doc, n') -> shape_ok doc.
Proof.
  intros H. apply repairData_Ret in H as [(m' & n0 & H)|[_ H]]; [|exact H].
  eapply newPreset_shape, H.
Qed.

(** [loadData] hands out a fresh preset or a repaired stored value. *)
Lemma loadData_Ret a st n doc n' :
  loadData uid a st n = (Ret doc, n') ->
  (exists n0, newPreset uid (resolve_mode a) n0 = (Ret doc, n')) \/
  (exists v, st = Parsed v /\
             repairData uid v (resolve_mode a) n = (Ret doc, n')).
Proof.
  unfold loadData, catch. destruct st as [| | |v].
  - unfold throw. intros H. left. now exists n.
  - destruct (newPreset uid (resolve_mode a) n) as [[x|] n1] eqn:E.
    + intros [= <- <-]. left. now exists n.
    + intros H. left. now exists n1.
  - unfold throw. intros H. left. now exists n.
  - destruct (repairData uid v (resolve_mode a) n) as [[x|] n1] eqn:E.
    + intros [= <- <-]. right. exists v. now split.
    + intros H. left. now exists n1.
Qed.

(** *** Ids after loading *)

Lemma repairItems_ids l : forall n its n2,
  mapM (repairItem uid) l n = (Ret its, n2) ->
  (n <= n2)%nat /\
  Forall (fun it' => i_id it' ∈ omap stored_id l \/
                     exists j, (n <= j < n2)%nat /\ i_id it' = uid j) its.
Proof.
  induction l as [|x l IH]; intros n its n2 H; cbn [mapM] in H.
  - inv_ret H. split; [lia|constructor].
  - bind_inv H as y n1 Hy. bind_inv H as ys n3 Hys. inv_ret H.
    apply repairItem_Ret in Hy as (_ & _ & O).
    apply IH in Hys as [Hle F]. cbn [omap list_omap].
    destruct O as [(T & S & ->)|[Eo ->]].
    + split; [lia|]. unfold stored_id at 1 3. rewrite T, S.
      constructor.
      * left. apply list_elem_of_here.
      * eapply Forall_impl; [exact F|]. cbn. intros b [Hb|Hb].
        -- left. now apply list_elem_of_further.
        -- now right.
    + split; [lia|]. constructor.
      * right. exists n. split; [lia|assumption].
      * eapply Forall_impl; [exact F|]. cbn. intros b [Hb|(j & Hj & Eb)].
        -- left. destruct (stored_id x); [|exact Hb].
           now apply list_elem_of_further.
        -- right. exists j. split; [lia|assumption].
Qed.

Lemma NoDup_draws n len :
  (forall i j, uid i = uid j -> i = j) -> NoDup (uid <$> seq n len).
Proof.
  intros Hinj. apply NoDup_fmap_2_strong; [|apply NoDup_seq].
  intros i j _ _ E. now apply Hinj.
Qed.

Lemma newPreset_ids m n d n' :
  (forall i j, uid i = uid j -> i = j) ->
  newPreset uid m n = (Ret d, n') ->
  NoDup (ids d) /\ (forall k, (n' <= k)%nat -> uid k ∉ ids d).
Proof.
  intros Hinj H. apply newPreset_Ret in H
    as (p & _ & _ & _ & _ & _ & _ & I & ->).
  rewrite I. split; [now apply NoDup_draws|].
  intros k Hk (j & E & Hj)%list_elem_of_fmap.
  apply Hinj in E. subst j. apply elem_of_seq in Hj. lia.
Qed.

Lemma repairData_ids v m n d n' :
  (forall i j, uid i = uid j -> i = j) ->
  (forall k, (n <= k)%nat -> uid k ∉ stored_ids (Parsed v)) ->
  repairData uid v m n = (Ret d, n') ->
  NoDup (ids d) /\ (forall k, (n' <= k)%nat -> uid k ∉ ids d).
Proof.
  intros Hinj Hfresh H. unfold repairData in H.
  destruct (negb (truthy v) || negb (typeof_object v));
    [now apply newPreset_ids in H|].
  bind_inv H as md n0 Hmd. apply String_Ret in Hmd as [_ ->].
  bind_inv H as ocats n1 Hc.
  assert (n1 = n) as ->.
  { unfold map_if_array in Hc.
    destruct (get v (u "cats")); try (now inv_ret Hc).
    bind_inv Hc as cs n3 Hcs. inv_ret Hc.
    eapply (mapM_pure repairCat); [|exact Hcs].
    intros x s y s' E. now apply repairCat_Ret in E. }
  bind_inv H as oitems n2 Hi.
  destruct ocats as [cs|], oitems as [its|];
    try (now apply newPreset_ids in H).
  destruct cs as [|c0 cs]; [now apply newPreset_ids in H|].
  bind_inv H as its' n3 Hd. inv_ret H. unfold ids. cbn [items].
  unfold map_if_array in Hi. cbn [stored_ids] in Hfresh.
  destruct (get v (u "items")) as [| | | | |l|]; try (now inv_ret Hi).
  bind_inv Hi as its0 n4 Hits. inv_ret Hi.
  apply repairItems_ids in Hits as [Hle F].
  pose proof (proj1 (dedupe_Ret _ _ _ _ _ Hd)) as Hle'.
  apply dedupe_NoDup in Hd as [Hnd Hall]; [|assumption|].
  - split; [exact Hnd|]. intros k Hk (b & E & Hb)%list_elem_of_fmap.
    rewrite Forall_forall in Hall. destruct (Hall b Hb) as [_ Hf].
    now apply (Hf k).
  - intros k Hk. split; [apply not_elem_of_empty|].
    intros (b & E & Hb)%list_elem_of_fmap.
    apply list_elem_of_fmap in Hb as (b0 & -> & Hb0).
    rewrite Forall_forall in F.
    destruct (repoint_keeps
                (list_to_set (c_id <$> c0 :: cs))
                (if bool_decide (u "otros" ∈ (list_to_set (c_id <$> c0 :: cs) : gset jstr))
                 then u "otros" else c_id c0) b0) as (Eid & _).
    rewrite Eid in E.
    destruct (F b0 Hb0) as [Hs|(j & Hj & Ej)].
    + apply (Hfresh k); [lia|]. now rewrite E.
    + rewrite Ej in E. apply Hinj in E. lia.
Qed.

Lemma loadData_ids a st n d n' :
  (forall i j, uid i = uid j -> i = j) ->
  (forall k, (n <= k)%nat -> uid k ∉ stored_ids st) ->
  loadData uid a st n = (Ret d, n') ->
  NoDup (ids d) /\ (forall k, (n' <= k)%nat -> uid k ∉ ids d).
Proof.
  intros Hinj Hfresh H. apply loadData_Ret in H as [[n0 H]|(v & -> & H)].
  - now apply newPreset_ids in H.
  - now apply repairData_ids in H.
Qed.

Lemma loadData_shape a st n d n' :
  loadData uid a st n = (Ret d, n') -> shape_ok d.
Proof.
  intros H. apply loadData_Ret in H as [[n0 H]|(v & -> & H)].
  - eapply newPreset_shape, H.
  - eapply repairData_shape, H.
Qed.

Lemma shape_refs d : shape_ok d -> refs_ok d.
Proof.
  intros (_ & _ & _ & H). unfold refs_ok.
  eapply Forall_impl; [exact H|]. now intros it (? & _).
Qed.

Lemma newPreset_Throw m n n1 :
  newPreset uid m n = (Throw, n1) ->
  n1 = n /\ forall k, newPreset uid m k = (Throw, k).
Proof.
  unfold newPreset. destruct (presetFor m) as [p|].
  - destruct (materialize_all (p_items p) n) as (its & R & _).
    rewrite (bind_run _ _ _ _ _ R). discriminate.
  - unfold throw. intros [= <-]. now split.
Qed.

End RepairFacts.

(** ** Claims about the storage layer *)

Lemma presetFor_plain m :
  m ∉ object_prototype_keys -> exists p, presetFor m = IsPreset p.
Proof.
  intros H. unfold presetFor. destruct (assoc m catalog); [eauto|].
  rewrite bool_decide_eq_false_2 by assumption. eauto.
Qed.

(** C3, counterexample: a category whose stored emoji is the empty array
    is repaired to the empty string, and a second repair turns that into
    [null]. *)
Lemma repair_twice_differs :
  exists doc n',
    repairData uid0 blank_emoji_doc (u "salida") O = (Ret doc, n') /\
    repairData uid0 (doc_js doc) (u "salida") n' <> (Ret doc, n').
Proof.
  eexists _, _. split; [vm_compute; reflexivity|].
  vm_compute. discriminate.
Qed.

(** C3, amended: a second repair, with any fallback mode and from any
    state of the id source, returns the first result unchanged and draws
    no id, whenever that result is settled: non-empty mode, no empty item
    name, no empty-string emoji, non-empty pairwise distinct item ids. *)
Theorem repair_idempotent uid d m n doc n' :
  repairData uid d m n = (Ret doc, n') ->
  settled doc ->
  forall m2 k, repairData uid (doc_js doc) m2 k = (Ret doc, k).
Proof.
  intros H S m2 k. apply repair_fixed; [|exact S].
  eapply repairData_shape, H.
Qed.

Lemma repair_idempotent_witness :
  exists doc n',
    repairData uid0 stored_doc (u "salida") O = (Ret doc, n') /\
    settled doc /\
    repairData uid0 (doc_js doc) (u "salida") n' = (Ret doc, n') /\
    repairData uid0 (doc_js doc) (u "playa") n' = (Ret doc, n') /\
    repairData uid0 (doc_js doc) [] O = (Ret doc, O).
Proof.
  eexists _, _. split; [vm_compute; reflexivity|].
  split; [by_computation|].
  split; [|split];
    eapply (repair_idempotent uid0 stored_doc (u "salida") O);
    ((vm_compute; reflexivity) || by_computation).
Defined.

(** C4, counterexample: [cats] is not an array, yet the repair does not
    return a preset for the resolved mode "viaje": converting an item
    field throws, and [loadData] answers with the preset of the fallback
    mode. *)
Lemma discard_may_throw :
  resolved_mode throwing_item_doc (u "salida") = Some (u "viaje") /\
  lacks_structure throwing_item_doc /\
  fst (repairData uid0 throwing_item_doc (u "salida") O) = Throw /\
  exists doc n',
    loadData uid0 (ModeStr (u "salida")) (Parsed throwing_item_doc) O
    = (Ret doc, n') /\ mode doc = u "salida".
Proof.
  split; [reflexivity|]. split; [left; reflexivity|].
  split; [vm_compute; reflexivity|].
  eexists _, _. split; vm_compute; reflexivity.
Qed.

Lemma bind_Throw {S A B} (m : ST S A) (k : A -> ST S B) s s' :
  bind m k s = (Throw, s') ->
  m s = (Throw, s') \/
  exists a s1, m s = (Ret a, s1) /\ k a s1 = (Throw, s').
Proof.
  unfold bind. destruct (m s) as [[a|] s1]; intros H.
  - right. now exists a, s1.
  - left. now injection H as ->.
Qed.

Lemma String_Throw {S} v (n n' : S) :
  String_ v n = (Throw, n') -> ToString v = None /\ n' = n.
Proof.
  unfold String_. destruct (ToString v); unfold ret, throw; intros [= <-];
    now split.
Qed.

(** [newPreset] throws for the inherited property names only. *)
Lemma newPreset_Throw_proto uid m n n1 :
  newPreset uid m n = (Throw, n1) -> m ∈ object_prototype_keys.
Proof.
  unfold newPreset. destruct (presetFor m) as [p|] eqn:P.
  - destruct (materialize_all uid (p_items p) n) as (its & E & _).
    rewrite (bind_run _ _ _ _ _ E). discriminate.
  - intros _. unfold presetFor in P.
    destruct (assoc m catalog); [discriminate|].
    destruct (bool_decide (m ∈ object_prototype_keys)) eqn:B; [|discriminate].
    now apply bool_decide_eq_true in B.
Qed.

(** Why the repair of a value without structure can throw. *)
Lemma repairData_Throw uid v m n n1 :
  lacks_structure v -> m ∉ object_prototype_keys ->
  repairData uid v m n = (Throw, n1) ->
  is_object v = true /\
  (resolved_mode v m = None \/
   (exists l, get v (u "cats") = JArr l /\
              fst (mapM repairCat l n) = Throw) \/
   (exists l, get v (u "items") = JArr l /\
              fst (mapM (repairItem uid) l n) = Throw) \/
   (exists md, resolved_mode v m = Some md /\ md ∈ object_prototype_keys)).
Proof.
  intros L Nm H. unfold repairData in H. unfold is_object.
  destruct (truthy v), (typeof_object v); cbn [negb orb andb] in *;
    try (exfalso; apply Nm; eapply newPreset_Throw_proto, H).
  split; [reflexivity|].
  apply bind_Throw in H as [H|(md & n0 & Hmd & H)].
  { left. now apply String_Throw in H. }
  apply String_Ret in Hmd as [Emd ->].
  apply bind_Throw in H as [H|(ocats & n2 & Hc & H)].
  { right; left. unfold map_if_array in H.
    destruct (get v (u "cats")) as [| | | | |l|]; try discriminate.
    exists l. split; [reflexivity|].
    apply bind_Throw in H as [H|(? & ? & _ & H)]; [now rewrite H|discriminate]. }
  assert (n2 = n) as ->.
  { unfold map_if_array in Hc.
    destruct (get v (u "cats")); try (now inv_ret Hc).
    bind_inv Hc as cs n3 Hcs. inv_ret Hc.
    exact (mapM_pure repairCat
             (fun x s y s' E => proj2 (repairCat_Ret x s y s' E)) _ _ _ _ Hcs). }
  apply bind_Throw in H as [H|(oitems & n3 & Hi & H)].
  { right; right; left. unfold map_if_array in H.
    destruct (get v (u "items")) as [| | | | |l|]; try discriminate.
    exists l. split; [reflexivity|].
    apply bind_Throw in H as [H|(? & ? & _ & H)]; [now rewrite H|discriminate]. }
  right; right; right. exists md. split; [exact Emd|].
  destruct ocats as [[|c0 cs]|], oitems as [its|];
    try (eapply newPreset_Throw_proto, H).
  exfalso. unfold map_if_array in Hc, Hi.
  destruct L as [L|[L|L]].
  - destruct (get v (u "cats")); try discriminate; now inv_ret Hc.
  - destruct (get v (u "items")); try discriminate; now inv_ret Hi.
  - rewrite L in Hc. cbn [mapM] in Hc.
    bind_inv Hc as x y Hx; inv_ret Hx; try inv_ret Hc.
Qed.

(** A value without structure is discarded: what the repair returns is a
    fresh preset. *)
Lemma repairData_discards uid v m n doc n' :
  lacks_structure v ->
  repairData uid v m n = (Ret doc, n') ->
  exists md n0,
    newPreset uid md n0 = (Ret doc, n') /\
    if is_object v then resolved_mode v m = Some md else md = m.
Proof.
  intros L H. unfold repairData in H. unfold is_object.
  destruct (truthy v), (typeof_object v); cbn [negb orb andb] in *;
    try (now exists m, n).
  bind_inv H as md n0 Hmd. apply String_Ret in Hmd as [Emd ->].
  bind_inv H as ocats n1 Hc. bind_inv H as oitems n2 Hi.
  assert (Done : newPreset uid md n2 = (Ret doc, n') ->
                 exists md0 n0, newPreset uid md0 n0 = (Ret doc, n') /\
                                resolved_mode v m = Some md0).
  { intros R. exists md, n2. split; [exact R|exact Emd]. }
  destruct ocats as [[|c0 cs]|], oitems as [its|];
    try (apply Done, H).
  exfalso. unfold map_if_array in Hc, Hi.
  destruct L as [L|[L|L]].
  - destruct (get v (u "cats")); try discriminate; now inv_ret Hc.
  - destruct (get v (u "items")); try discriminate; now inv_ret Hi.
  - rewrite L in Hc. cbn [mapM] in Hc.
    bind_inv Hc as x y Hx; inv_ret Hx; try inv_ret Hc.
Qed.

(** C4, amended.  (1) When nothing is stored, or reading or parsing fails,
    [loadData] is [newPreset] for the mode, and it returns unless the mode
    names a property inherited from [Object.prototype].  (2) When [cats]
    or [items] is not an array or [cats] is empty, whatever [repairData]
    returns is a fresh preset, for the resolved mode of an object and for
    the fallback mode otherwise: never a partial repair.  (3) For such a
    value and a fallback mode that is no inherited property name,
    [loadData] always returns: the document [repairData] returns when it
    returns, and a fresh preset for the fallback mode when it throws.
    (4) On such a value and fallback mode [repairData] throws only for an
    object, and only when the conversion of the mode, of a field of a
    stored category or of a field of a stored item throws, or when the
    resolved mode is an inherited property name. *)
Theorem load_all_or_nothing uid :
  (forall a st n,
     not_parsed st ->
     loadData uid a st n = newPreset uid (resolve_mode a) n /\
     (resolve_mode a ∉ object_prototype_keys ->
      exists doc n', loadData uid a st n = (Ret doc, n'))) /\
  (forall v m n doc n',
     lacks_structure v ->
     repairData uid v m n = (Ret doc, n') ->
     exists md n0,
       newPreset uid md n0 = (Ret doc, n') /\
       if is_object v then resolved_mode v m = Some md else md = m) /\
  (forall a v n,
     lacks_structure v ->
     resolve_mode a ∉ object_prototype_keys ->
     exists doc n',
       loadData uid a (Parsed v) n = (Ret doc, n') /\
       match repairData uid v (resolve_mode a) n with
       | (Ret d, n1) => doc = d /\ n' = n1
       | (Throw, n1) => newPreset uid (resolve_mode a) n1 = (Ret doc, n')
       end) /\
  (forall v m n n1,
     lacks_structure v ->
     m ∉ object_prototype_keys ->
     repairData uid v m n = (Throw, n1) ->
     is_object v = true /\
     (resolved_mode v m = None \/
      (exists l, get v (u "cats") = JArr l /\
                 fst (mapM repairCat l n) = Throw) \/
      (exists l, get v (u "items") = JArr l /\
                 fst (mapM (repairItem uid) l n) = Throw) \/
      (exists md, resolved_mode v m = Some md /\
                  md ∈ object_prototype_keys))).
Proof.
  split; [|split; [intros v m n doc n'; apply repairData_discards|split]].
  - intros a st n Hst. split.
    + unfold loadData, catch.
      destruct st as [| | |v]; [reflexivity| |reflexivity|destruct Hst].
      destruct (newPreset uid (resolve_mode a) n) as [[x|] n1] eqn:E;
        [reflexivity|].
      apply newPreset_Throw in E as [-> E]. apply E.
    + intros Hm. apply presetFor_plain in Hm as [p Hp].
      destruct (newPreset_returns uid _ _ n Hp) as [d R].
      exists d, (n + length (p_items p))%nat.
      unfold loadData, catch.
      destruct st as [| | |v]; [exact R|now rewrite R|exact R|destruct Hst].
  - intros a v n L Hm. apply presetFor_plain in Hm as [p Hp].
    unfold loadData, catch.
    destruct (repairData uid v (resolve_mode a) n) as [[x|] n1] eqn:E.
    + exists x, n1. now repeat split.
    + destruct (newPreset_returns uid _ _ n1 Hp) as [d R].
      exists d, (n1 + length (p_items p))%nat. now split.
  - intros v m n n1. apply repairData_Throw.
Qed.

Lemma load_all_or_nothing_witness :
  (exists doc n',
     loadData uid0 (ModeStr (u "playa")) Malformed O = (Ret doc, n')) /\
  (exists doc n',
     repairData uid0 (JObj [(u "mode", JStr (u "gira"))]) (u "playa") O
     = (Ret doc, n') /\
     exists md n0, newPreset uid0 md n0 = (Ret doc, n') /\
                   Some (u "gira") = Some md) /\
  (exists doc n',
     loadData uid0 (ModeStr (u "salida")) (Parsed throwing_item_doc) O
     = (Ret doc, n') /\
     newPreset uid0 (u "salida") 1%nat = (Ret doc, n')) /\
  (exists doc n',
     loadData uid0 (ModeStr (u "salida"))
              (Parsed (JObj [(u "mode", JStr (u "constructor"))])) O
     = (Ret doc, n') /\
     newPreset uid0 (u "salida") O = (Ret doc, n')) /\
  (is_object throwing_item_doc = true /\
   (resolved_mode throwing_item_doc (u "salida") = None \/
    (exists l, get throwing_item_doc (u "cats") = JArr l /\
               fst (mapM repairCat l O) = Throw) \/
    (exists l, get throwing_item_doc (u "items") = JArr l /\
               fst (mapM (repairItem uid0) l O) = Throw) \/
    (exists md, resolved_mode throwing_item_doc (u "salida") = Some md /\
                md ∈ object_prototype_keys))).
Proof.
  destruct (load_all_or_nothing uid0) as (P1 & P2 & P3 & P4).
  split; [|split; [|split; [|split]]].
  - apply (P1 (ModeStr (u "playa")) Malformed O I). by_computation.
  - eexists _, _. split; [vm_compute; reflexivity|].
    apply (P2 (JObj [(u "mode", JStr (u "gira"))]) (u "playa") O).
    + left. reflexivity.
    + vm_compute. reflexivity.
  - destruct (P3 (ModeStr (u "salida")) throwing_item_doc O)
      as (doc & n' & E & R); [left; reflexivity|by_computation|].
    exists doc, n'. split; [exact E|].
    change (repairData uid0 throwing_item_doc
              (resolve_mode (ModeStr (u "salida"))) O)
      with (@Throw Document, 1%nat) in R.
    exact R.
  - destruct (P3 (ModeStr (u "salida"))
                 (JObj [(u "mode", JStr (u "constructor"))]) O)
      as (doc & n' & E & R); [left; reflexivity|by_computation|].
    exists doc, n'. split; [exact E|].
    change (repairData uid0 (JObj [(u "mode", JStr (u "constructor"))])
              (resolve_mode (ModeStr (u "salida"))) O)
      with (@Throw Document, O) in R.
    exact R.
  - apply (P4 throwing_item_doc (u "salida") O 1%nat);
      [left; reflexivity|by_computation|vm_compute; reflexivity].
Defined.

(** ** The store *)

Lemma setState_commits f w p k n :
  wf w ->
  f (w_state w) w = (Ret (Plain p), grown k n w) ->
  setState (Updater f) w = (Ret tt, committed p k n w).
Proof.
  intros (W & _ & _) H.
  unfold setState, compute_next, bind, getState.
  rewrite H. unfold alloc, grown, ret, merge. cbn.
  destruct (decide _) as [E|_]; [lia|].
  reflexivity.
Qed.

Lemma setState_throws f w w1 :
  f (w_state w) w = (Throw, w1) ->
  setState (Updater f) w = (Throw, w1).
Proof.
  intros H. unfold setState, compute_next, bind, getState. now rewrite H.
Qed.

Lemma committed_wf p k n w :
  wf w -> patch_below (S (k + w_next_loc w)) p -> wf (committed p k n w).
Proof.
  intros (W1 & W2 & W3) [P1 P2]. unfold wf, committed, merge. cbn.
  destruct (p_settings p), (p_data p); cbn; repeat split; lia.
Qed.

Lemma logged_wf es w : wf w -> wf (logged es w).
Proof. intros W. exact W. Qed.

Lemma data_saved_wf d n w : wf w -> wf (data_saved d n w).
Proof.
  intros W. apply logged_wf, committed_wf; [exact W|].
  split; cbn; destruct W as (? & ? & ?); lia.
Qed.

Lemma settings_saved_wf t w : wf w -> wf (settings_saved t w).
Proof.
  intros W. apply logged_wf, committed_wf; [exact W|].
  split; cbn; destruct W as (? & ? & ?); lia.
Qed.

Lemma updateData_run mut w d n :
  wf w ->
  mut (doc w) (grown 1 (w_uids w) w) = (Ret d, grown 1 n w) ->
  updateData mut w = (Ret tt, data_saved d n w).
Proof.
  intros W H. unfold updateData.
  erewrite bind_run; cycle 1.
  - apply (setState_commits _ w (data_patch d w) 1 n W).
    unfold bind. change (alloc w) with (Ret (w_next_loc w), grown 1 (w_uids w) w).
    cbv beta iota. fold (doc w). rewrite H. reflexivity.
  - reflexivity.
Qed.

Lemma updateSettings_run mut w t :
  wf w ->
  mut (prefs w) (grown 1 (w_uids w) w) = (Ret t, grown 1 (w_uids w) w) ->
  updateSettings mut w = (Ret tt, settings_saved t w).
Proof.
  intros W H. unfold updateSettings.
  erewrite bind_run; cycle 1.
  - apply (setState_commits _ w (settings_patch t w) 1 (w_uids w) W).
    unfold bind. change (alloc w) with (Ret (w_next_loc w), grown 1 (w_uids w) w).
    cbv beta iota. fold (prefs w). rewrite H. reflexivity.
  - reflexivity.
Qed.

(** *** The actions, run *)

Lemma toggleDone_run id w :
  wf w -> ensureString (Some id) 120 <> [] ->
  toggleDone id w
  = (Ret tt,
     logged [Haptic 12]
       (logged (if sound (prefs w) then [Tick] else [])
          (data_saved (toggled id (doc w)) (w_uids w) w))).
Proof.
  intros W Hc. unfold toggleDone.
  apply str_truthy_true in Hc. rewrite Hc.
  erewrite bind_run; cycle 1.
  - apply (updateData_run _ w (toggled id (doc w)) (w_uids w) W).
    unfold toggled. now destruct (toggle_first _ _).
  - unfold bind, getState, safeTick, safeHaptic, log, ret. cbn.
    destruct (sound _); cbn; unfold logged; cbn.
    + reflexivity.
    + now rewrite app_nil_r.
Qed.

Lemma deleteItem_run id w :
  wf w -> ensureString (Some id) 120 <> [] ->
  deleteItem id w
  = (Ret tt,
     logged [Haptic 10]
       (logged [Toasted TItemDeleted]
          (data_saved (deleted id (doc w)) (w_uids w) w))).
Proof.
  intros W Hc. unfold deleteItem.
  apply str_truthy_true in Hc. rewrite Hc.
  erewrite bind_run; cycle 1.
  - apply (updateData_run _ w (deleted id (doc w)) (w_uids w) W). reflexivity.
  - reflexivity.
Qed.

Lemma blank_id_ignored id w :
  ensureString (Some id) 120 = [] ->
  toggleDone id w = (Ret tt, w) /\ deleteItem id w = (Ret tt, w).
Proof. intros E. unfold toggleDone, deleteItem. now rewrite E. Qed.

Lemma setAll_run b w :
  wf w ->
  setAll b w
  = (Ret tt,
     logged [Haptic 14]
       (logged [Toasted (if b then TAllChecked else TAllUnchecked)]
          (data_saved (all_set b (doc w)) (w_uids w) w))).
Proof.
  intros W. unfold setAll.
  erewrite bind_run; cycle 1.
  - apply (updateData_run _ w (all_set b (doc w)) (w_uids w) W). reflexivity.
  - reflexivity.
Qed.

Lemma resetChecks_run w :
  wf w ->
  resetChecks w
  = (Ret tt,
     logged [Haptic 12]
       (logged [Toasted TChecksReset]
          (data_saved (all_set false (doc w)) (w_uids w) w))).
Proof.
  intros W. unfold resetChecks.
  erewrite bind_run; cycle 1.
  - apply (updateData_run _ w (all_set false (doc w)) (w_uids w) W).
    reflexivity.
  - reflexivity.
Qed.

Section ActionFacts.

Variable uid : nat -> jstr.

Lemma createItem_accepts a w :
  wf w -> ensureString (a_name a) 60 <> [] ->
  createItem uid a w
  = (Ret (mkResult true None),
     logged [Haptic 12]
       (logged [Toasted TAdded]
          (data_saved (created a (fst (drawn_id uid a w)) (doc w))
                      (snd (drawn_id uid a w)) w))).
Proof.
  intros W Hc. unfold createItem.
  apply str_truthy_true in Hc. rewrite Hc.
  erewrite bind_run; cycle 1.
  - apply (updateData_run _ w (created a (fst (drawn_id uid a w)) (doc w))
             (snd (drawn_id uid a w)) W).
    unfold drawn_id. destruct (a_uid a); destruct w; reflexivity.
  - reflexivity.
Qed.

Lemma createItem_rejects a w :
  ensureString (a_name a) 60 = [] ->
  createItem uid a w
  = (Ret (mkResult false (Some EMPTY_NAME)),
     logged [Haptic 18] (logged [Toasted TNameMissing] w)).
Proof.
  intros E. unfold createItem. rewrite E. destruct w; reflexivity.
Qed.

Lemma changeMode_returns mode w d n :
  wf w ->
  newPreset uid (clean_mode mode) (w_uids w) = (Ret d, n) ->
  let w1 := settings_saved (with_mode (clean_mode mode) (prefs w)) w in
  changeMode uid mode w
  = (Ret tt,
     logged [Haptic 12]
       (logged [Toasted TModeChanged]
          (logged [SaveDataDebounced d]
             (committed (preset_patch d w1) 1 n w1)))).
Proof.
  intros W H w1. unfold changeMode. fold (clean_mode mode).
  erewrite bind_run; cycle 1.
  - apply (updateSettings_run _ w (with_mode (clean_mode mode) (prefs w)) W).
    reflexivity.
  - fold w1. erewrite bind_run; cycle 1.
    + apply (setState_commits _ w1 (preset_patch d w1) 1 n).
      * now apply settings_saved_wf.
      * unfold bind, draw. change (w_uids w1) with (w_uids w).
        rewrite H. reflexivity.
    + reflexivity.
Qed.

Lemma changeMode_throws mode w n :
  wf w ->
  newPreset uid (clean_mode mode) (w_uids w) = (Throw, n) ->
  changeMode uid mode w
  = (Throw, settings_saved (with_mode (clean_mode mode) (prefs w)) w).
Proof.
  intros W H. unfold changeMode. fold (clean_mode mode).
  erewrite bind_run; cycle 1.
  - apply (updateSettings_run _ w (with_mode (clean_mode mode) (prefs w)) W).
    reflexivity.
  - erewrite bind_throw; [reflexivity|].
    apply setState_throws. unfold bind, draw.
    change (w_uids (settings_saved _ w)) with (w_uids w).
    rewrite H. apply newPreset_Throw in H as [-> _]. reflexivity.
Qed.

Lemma wipeAll_run w :
  wf w ->
  exists d n,
    newPreset uid (u "salida") (w_uids w) = (Ret d, n) /\
    wipeAll uid w
    = (Ret tt,
       logged [Haptic 14]
         (logged [Toasted TWiped]
            (logged [SaveDataDebounced d]
               (logged [SaveSettingsDebounced
                          (mkSettings (u "salida") true true 0)]
                  (committed (wipe_patch d w) 2 n w))))).
Proof.
  intros W.
  destruct (newPreset_returns uid (u "salida") preset_salida (w_uids w))
    as [d H]; [reflexivity|].
  exists d, (w_uids w + length (p_items preset_salida))%nat.
  split; [exact H|]. unfold wipeAll.
  erewrite bind_run; cycle 1.
  - apply (setState_commits _ w (wipe_patch d w) 2
             (w_uids w + length (p_items preset_salida))%nat W).
    unfold bind, draw. cbn [alloc w_uids]. rewrite H. reflexivity.
  - reflexivity.
Qed.

End ActionFacts.

(** ** Completion *)

Lemma with_latch_same d : with_latch (completedOnce d) d = d.
Proof. now destruct d. Qed.

Lemma runProgress_run w :
  wf w ->
  exists w',
    runProgress w = (Ret (renderProgress (w_state w)), w') /\
    wf w' /\
    doc w' = settle_doc (doc w) /\
    prefs w' = settle_prefs (doc w) (prefs w) /\
    w_uids w' = w_uids w /\ w_listeners w' = w_listeners w.
Proof.
  intros W. unfold runProgress, settle_doc, settle_prefs.
  unfold bind at 1. unfold getState at 1. cbv beta iota.
  change (completed (renderProgress (w_state w))) with (complete (doc w)).
  fold (doc w).
  destruct (complete (doc w)) eqn:C, (completedOnce (doc w)) eqn:L;
    cbn [andb negb].
  - exists w. split; [now destruct w|]. split; [exact W|].
    split; [now rewrite <- L, with_latch_same|]. now repeat split.
  - set (p := mkPatch (Some (mkBox (S (w_next_loc w)) (streak_up (prefs w))))
                      (Some (mkBox (w_next_loc w) (with_latch true (doc w))))
                      None).
    assert (Wc : wf (committed p 2 (w_uids w) w)).
    { apply committed_wf; [exact W|]. split; cbn; lia. }
    assert (S1 : setState (Updater (fun prev =>
                   ld <- alloc ;; ls <- alloc ;;
                   ret (Plain (mkPatch
                     (Some (mkBox ls (mkSettings (tripMode (val (settings prev)))
                                                 (motion (val (settings prev)))
                                                 (sound (val (settings prev)))
                                                 (streak (val (settings prev)) + 1))))
                     (Some (mkBox ld (with_latch true (val (data prev)))))
                     None)))) w = (Ret tt, committed p 2 (w_uids w) w)).
    { apply (setState_commits _ w p 2 (w_uids w) W). destruct w; reflexivity. }
    destruct (motion (prefs w)) eqn:Mo.
    + exists (logged [Toasted TCompleted]
                (logged [Glow; Confetti] (committed p 2 (w_uids w) w))).
      split; [|split; [exact Wc|now repeat split]].
      erewrite bind_run; cycle 1.
      * rewrite (bind_run _ _ _ _ _ S1).
        unfold bind, getState, log, ret, logged. cbv beta iota.
        change (motion (val (settings (w_state (committed p 2 (w_uids w) w)))))
          with (motion (prefs w)).
        rewrite Mo. reflexivity.
      * reflexivity.
    + exists (logged [Toasted TCompleted] (committed p 2 (w_uids w) w)).
      split; [|split; [exact Wc|now repeat split]].
      erewrite bind_run; cycle 1.
      * rewrite (bind_run _ _ _ _ _ S1).
        unfold bind, getState, log, ret, logged. cbv beta iota.
        change (motion (val (settings (w_state (committed p 2 (w_uids w) w)))))
          with (motion (prefs w)).
        rewrite Mo. reflexivity.
      * reflexivity.
  - set (p := mkPatch None
                      (Some (mkBox (w_next_loc w) (with_latch false (doc w))))
                      None).
    exists (committed p 1 (w_uids w) w).
    split.
    { erewrite bind_run; cycle 1.
      - apply (setState_commits _ w p 1 (w_uids w) W). destruct w; reflexivity.
      - reflexivity. }
    split; [|now repeat split].
    apply committed_wf; [exact W|]. split; cbn; lia.
  - exists w. split; [now destruct w|]. split; [exact W|].
    split; [now rewrite <- L, with_latch_same|]. now repeat split.
Qed.

Lemma onToggle_run id w :
  wf w -> ensureString (Some id) 120 <> [] ->
  exists pr w',
    onToggle id w = (Ret pr, w') /\
    completed pr = complete (toggled id (doc w)) /\
    wf w' /\
    doc w' = settle_doc (toggled id (doc w)) /\
    prefs w' = settle_prefs (toggled id (doc w)) (prefs w) /\
    w_uids w' = w_uids w /\ w_listeners w' = w_listeners w.
Proof.
  intros W Hc. unfold onToggle.
  rewrite (bind_run _ _ _ _ _ (toggleDone_run id w W Hc)).
  set (w1 := logged _ _).
  assert (W1 : wf w1).
  { unfold w1. now apply logged_wf, logged_wf, data_saved_wf. }
  destruct (runProgress_run w1 W1) as (w' & R & W' & D & P & U & Ls).
  exists (renderProgress (w_state w1)), w'.
  split; [exact R|]. split; [reflexivity|]. split; [exact W'|].
  split; [exact D|].
  split; [exact P|]. split; [exact U|exact Ls].
Qed.

(** *** Ticking items, on lists *)

Lemma filter_all {A} (P : A -> Prop) `{!forall x, Decision (P x)} (l : list A) :
  length (filter P l) = length l <-> Forall P l.
Proof.
  induction l as [|x l IH].
  - split; [constructor|reflexivity].
  - rewrite filter_cons. destruct (decide (P x)) as [Hx|Hx].
    + cbn [length]. split.
      * intros [= E]. constructor; [exact Hx|now apply IH].
      * intros F. apply Forall_cons in F as [_ F]. f_equal. now apply IH.
    + split.
      * intros E. pose proof (length_filter P l). cbn [length] in E. lia.
      * intros F. apply Forall_cons in F as [F _]. contradiction.
Qed.

Lemma complete_iff d :
  complete d = true <->
  items d <> [] /\ Forall (fun i => i_done i = true) (items d).
Proof.
  unfold complete. rewrite andb_true_iff, !bool_decide_eq_true, filter_all.
  split; intros [H F]; (split; [|exact F]).
  - destruct (items d); [cbn in H; lia|discriminate].
  - destruct (items d); [congruence|cbn; lia].
Qed.

Lemma pend_nil l : pend l = [] <-> Forall (fun i => i_done i = true) l.
Proof.
  unfold pend. induction l as [|x l IH].
  - split; [constructor|reflexivity].
  - rewrite filter_cons. destruct (decide (i_done x = false)) as [Hx|Hx].
    + split; [discriminate|].
      intros F. apply Forall_cons in F as [F _]. congruence.
    + rewrite IH. split.
      * intros F. constructor; [|exact F]. now destruct (i_done x).
      * intros F. now apply Forall_cons in F as [_ F].
Qed.

Lemma pend_ids l : forall x, x ∈ pend l -> x ∈ (i_id <$> l).
Proof.
  unfold pend. intros x (it & -> & H)%list_elem_of_fmap.
  apply list_elem_of_filter in H as [_ H]. now apply list_elem_of_fmap_2.
Qed.

(** Ticking the first pending item leaves the other pending items. *)
Lemma pend_toggle_head l : forall id r,
  NoDup (i_id <$> l) -> pend l = id :: r ->
  exists l', toggle_first id l = Some l' /\ pend l' = r /\
             i_id <$> l' = i_id <$> l /\ length l' = length l.
Proof.
  induction l as [|x l IH]; intros id r Hnd Hp; [discriminate|].
  cbn [fmap list_fmap] in Hnd. apply NoDup_cons in Hnd as [Hx Hnd].
  unfold pend in Hp. rewrite filter_cons in Hp. cbn [toggle_first].
  destruct (decide (i_done x = false)) as [Hd|Hd].
  - cbn [fmap list_fmap] in Hp. injection Hp as <- <-.
    rewrite decide_True by reflexivity.
    eexists. split; [reflexivity|]. rewrite Hd. cbn [negb].
    split; [|split; reflexivity].
    unfold pend. rewrite filter_cons. now rewrite decide_False.
  - assert (Hin : id ∈ (i_id <$> l)).
    { apply pend_ids. unfold pend. rewrite Hp. apply list_elem_of_here. }
    rewrite decide_False by (intros E; apply Hx; now rewrite E).
    destruct (IH id r Hnd Hp) as (l' & E & Hp' & Hi & Hl).
    rewrite E. eexists. split; [reflexivity|]. cbn [fmap list_fmap length].
    split; [|split; [now rewrite Hi|now rewrite Hl]].
    unfold pend. rewrite filter_cons. now rewrite decide_False.
Qed.

(** Ticking a listed id flips exactly the first item that carries it. *)
Lemma toggle_first_in j l :
  j ∈ (i_id <$> l) ->
  exists l1 it l2,
    l = l1 ++ it :: l2 /\ i_id it = j /\ (j ∉ (i_id <$> l1)) /\
    toggle_first j l = Some (l1 ++ with_done (negb (i_done it)) it :: l2).
Proof.
  induction l as [|x l IH]; cbn [fmap list_fmap].
  - intros H. inversion H.
  - intros H. cbn [toggle_first]. destruct (decide (i_id x = j)) as [E|E].
    + exists [], x, l. repeat split; [assumption|apply not_elem_of_nil].
    + apply elem_of_cons in H as [H|H]; [congruence|].
      destruct (IH H) as (l1 & it & l2 & -> & Ei & Hn & T).
      exists (x :: l1), it, l2. rewrite T.
      repeat split; try assumption.
      cbn [fmap list_fmap]. apply not_elem_of_cons. split; [congruence|assumption].
Qed.

Lemma toggle_first_skip j l1 it l2 :
  j ∉ (i_id <$> l1) -> i_id it = j ->
  toggle_first j (l1 ++ it :: l2)
  = Some (l1 ++ with_done (negb (i_done it)) it :: l2).
Proof.
  induction l1 as [|x l1 IH]; cbn [fmap list_fmap app toggle_first]; intros Hn E.
  - now rewrite decide_True.
  - apply not_elem_of_cons in Hn as [Hx Hn].
    rewrite decide_False by congruence. now rewrite IH.
Qed.

(** *** The latch *)

Lemma toggled_pending_head d id r :
  tickable d -> pending d = id :: r ->
  completedOnce (toggled id d) = false /\
  pending (toggled id d) = r /\ ids (toggled id d) = ids d /\
  items (toggled id d) <> [].
Proof.
  intros (Hne & Hnd & Hcl) Hp.
  assert (Hid : id ∈ ids d).
  { apply pend_ids. unfold pending in Hp. rewrite Hp. apply list_elem_of_here. }
  rewrite Forall_forall in Hcl. destruct (Hcl id Hid) as [Ec _].
  destruct (pend_toggle_head (items d) id r Hnd Hp) as (l' & T & P & I & L).
  unfold toggled. rewrite Ec, T. unfold pending, ids. cbn.
  repeat split; try assumption.
  intros ->. destruct (items d); [congruence|discriminate].
Qed.

Lemma toggled_done_item d j :
  tickable d -> Forall (fun i => i_done i = true) (items d) -> j ∈ ids d ->
  completedOnce (toggled j d) = false /\
  complete (toggled j d) = false /\
  ids (toggled j d) = ids d /\
  completedOnce (toggled j (settle_doc (toggled j d))) = false /\
  complete (toggled j (settle_doc (toggled j d))) = true.
Proof.
  intros (Hne & Hnd & Hcl) Hall Hj.
  rewrite Forall_forall in Hcl. destruct (Hcl j Hj) as [Ec _].
  destruct (toggle_first_in j (items d) Hj) as (l1 & it & l2 & El & Ei & Hn & T).
  assert (Hit : i_done it = true).
  { rewrite Forall_forall in Hall. apply Hall. rewrite El.
    apply elem_of_app. right. apply list_elem_of_here. }
  unfold toggled at 1 2 3. rewrite Ec, T, Hit. cbn [negb].
  split; [reflexivity|]. split.
  { destruct (complete _) eqn:C; [|reflexivity]. exfalso.
    apply complete_iff in C as [_ F]. cbn in F.
    apply Forall_app in F as [_ F]. apply Forall_cons in F as [F _].
    discriminate. }
  split.
  { unfold ids. cbn. rewrite El, !fmap_app. reflexivity. }
  unfold toggled, settle_doc. rewrite Ec, T, Hit. cbn [negb items with_latch with_items].
  rewrite (toggle_first_skip j l1 (with_done false it) l2 Hn) by (now destruct it).
  cbn [negb i_done with_done]. split; [reflexivity|].
  apply complete_iff. cbn. split.
  - destruct l1; discriminate.
  - rewrite El in Hall. apply Forall_app in Hall as [H1 H2].
    apply Forall_cons in H2 as [_ H2].
    apply Forall_app. split; [exact H1|]. now constructor.
Qed.

Lemma tick_pending l : forall w,
  wf w -> tickable (doc w) -> completedOnce (doc w) = false ->
  pending (doc w) = l ->
  exists pr w1,
    (toggle_each l ;;; runProgress) w = (Ret pr, w1) /\
    wf w1 /\ ids (doc w1) = ids (doc w) /\
    complete (doc w1) = true /\ completedOnce (doc w1) = true /\
    streak (prefs w1) = streak (prefs w) + 1.
Proof.
  induction l as [|id r IH]; intros w W T L P.
  - destruct (runProgress_run w W) as (w1 & R & W1 & D & S & _ & _).
    assert (C : complete (doc w) = true).
    { apply complete_iff. split; [apply T|]. now apply pend_nil. }
    exists (renderProgress (w_state w)), w1.
    split; [exact R|]. split; [exact W1|].
    rewrite D, S. unfold settle_doc, settle_prefs. rewrite C, L.
    repeat split. unfold complete in *. exact C.
  - destruct (toggled_pending_head _ _ _ T P) as (L1 & P1 & I1 & N1).
    pose proof T as (_ & Hnd & Hcl).
    assert (Hid : id ∈ ids (doc w)).
    { apply pend_ids. unfold pending in P. rewrite P. apply list_elem_of_here. }
    rewrite Forall_forall in Hcl. destruct (Hcl id Hid) as [Ec Hn].
    assert (Hc : ensureString (Some id) 120 <> []) by now rewrite Ec.
    destruct (onToggle_run id w W Hc) as (pr & w' & R & _ & W' & D & S & _ & _).
    cbn [toggle_each]. unfold bind at 1. unfold bind at 1. rewrite R.
    cbv beta iota.
    assert (T' : tickable (doc w')).
    { rewrite D. unfold tickable, ids, settle_doc. cbn [items with_latch].
      fold (ids (toggled id (doc w))). rewrite I1.
      split; [exact N1|]. split; [exact Hnd|]. now apply Forall_forall. }
    destruct (complete (toggled id (doc w))) eqn:C.
    + assert (r = []) as ->.
      { rewrite <- P1. apply pend_nil. now apply complete_iff in C as [_ ?]. }
      destruct (runProgress_run w' W') as (w1 & R1 & W1 & D1 & S1 & _ & _).
      exists (renderProgress (w_state w')), w1.
      split; [exact R1|]. split; [exact W1|].
      rewrite D1, S1, D, S. unfold settle_doc, settle_prefs.
      rewrite C, L1. cbn [andb negb with_latch completedOnce].
      assert (C' : complete (with_latch true (toggled id (doc w))) = true)
        by exact C.
      rewrite C'. cbn [andb negb with_latch completedOnce].
      split; [exact I1|]. split; [exact C|]. split; reflexivity.
    + assert (D' : doc w' = toggled id (doc w)).
      { rewrite D. unfold settle_doc. rewrite C, <- L1. apply with_latch_same. }
      destruct (IH w' W' T') as (pr1 & w1 & R1 & W1 & I & C1 & L' & S1).
      * now rewrite D'.
      * now rewrite D'.
      * exists pr1, w1. split; [exact R1|]. split; [exact W1|].
        rewrite I, D', I1, S1, S. unfold settle_prefs. rewrite C.
        now repeat split.
Qed.

(** ** Invariants of the documents *)

Lemma toggle_first_keeps id l l' :
  toggle_first id l = Some l' ->
  i_id <$> l' = i_id <$> l /\ i_cat <$> l' = i_cat <$> l.
Proof.
  revert l'. induction l as [|x l IH]; intros l'; cbn [toggle_first];
    [discriminate|].
  destruct (decide (i_id x = id)).
  - intros [= <-]. now split.
  - destruct (toggle_first id l) as [r|]; [|discriminate].
    intros [= <-]. destruct (IH r eq_refl) as [E1 E2].
    split; [exact (f_equal (cons (i_id x)) E1)|exact (f_equal (cons (i_cat x)) E2)].
Qed.

Lemma toggle_first_out id l : id ∉ (i_id <$> l) -> toggle_first id l = None.
Proof.
  induction l as [|x l IH]; [reflexivity|].
  cbn [fmap list_fmap toggle_first]. intros [Hx Hl]%not_elem_of_cons.
  rewrite decide_False by congruence. now rewrite IH.
Qed.

Lemma toggled_keeps id d :
  ids (toggled id d) = ids d /\ cats (toggled id d) = cats d /\
  i_cat <$> items (toggled id d) = i_cat <$> items d.
Proof.
  unfold toggled, ids.
  destruct (toggle_first _ _) as [l|] eqn:E; [|now repeat split].
  apply toggle_first_keeps in E as [E1 E2]. cbn [items cats with_latch with_items].
  now repeat split.
Qed.

Lemma all_set_keeps b d :
  ids (all_set b d) = ids d /\ cats (all_set b d) = cats d /\
  i_cat <$> items (all_set b d) = i_cat <$> items d.
Proof.
  unfold all_set, ids. cbn. rewrite <- !list_fmap_compose. now repeat split.
Qed.

Lemma refs_ok_cats d d' :
  cats d' = cats d -> i_cat <$> items d' = i_cat <$> items d ->
  refs_ok d -> refs_ok d'.
Proof.
  unfold refs_ok, cat_ids. intros -> E H.
  apply (Forall_fmap i_cat (fun c => c ∈ c_id <$> cats d)).
  rewrite E. now apply Forall_fmap.
Qed.

Lemma deleted_refs id d : refs_ok d -> refs_ok (deleted id d).
Proof.
  unfold refs_ok, deleted, cat_ids. cbn. rewrite !Forall_forall.
  intros H it [_ Hin]%list_elem_of_filter. auto.
Qed.

Lemma deleted_ids id d : ids (deleted id d) `sublist_of` ids d.
Proof.
  unfold ids, deleted. cbn. apply fmap_sublist, sublist_filter.
Qed.

Lemma notices_from_all prev next ls : forall i0 i,
  (i < length ls)%nat -> Notified (i0 + i) ∈ notices_from i0 prev next ls.
Proof.
  induction ls as [|fn r IH]; intros i0 i Hi; cbn in Hi; [lia|].
  cbn [notices_from]. destruct i as [|i].
  - rewrite Nat.add_0_r. apply list_elem_of_here.
  - apply list_elem_of_further, elem_of_app. right.
    replace (i0 + S i)%nat with (S i0 + i)%nat by lia.
    apply IH. lia.
Qed.

Section Invariants.

Variable uid : nat -> jstr.

(** What an action leaves behind, case by case. *)
Lemma perform_cases act w r w' :
  wf w -> perform uid act w = (r, w') ->
  wf w' /\
  ((doc w' = doc w /\ w_uids w' = w_uids w) \/
   (exists id, doc w' = toggled id (doc w) /\ w_uids w' = w_uids w) \/
   (exists id, doc w' = deleted id (doc w) /\ w_uids w' = w_uids w) \/
   (exists b, doc w' = all_set b (doc w) /\ w_uids w' = w_uids w) \/
   (exists a, act = CreateItem a /\
              doc w' = created a (fst (drawn_id uid a w)) (doc w) /\
              w_uids w' = snd (drawn_id uid a w)) \/
   (exists m, newPreset uid m (w_uids w) = (Ret (doc w'), w_uids w'))).
Proof.
  intros W H. destruct act as [id|id| |b|a|m|]; cbn [perform] in H.
  - destruct (decide (ensureString (Some id) 120 = [])) as [E|E].
    + rewrite (proj1 (blank_id_ignored id w E)) in H. injection H as <- <-.
      split; [exact W|]. left. now split.
    + rewrite (toggleDone_run id w W E) in H. injection H as <- <-.
      split; [now apply logged_wf, logged_wf, data_saved_wf|].
      right. left. exists id. now split.
  - destruct (decide (ensureString (Some id) 120 = [])) as [E|E].
    + rewrite (proj2 (blank_id_ignored id w E)) in H. injection H as <- <-.
      split; [exact W|]. left. now split.
    + rewrite (deleteItem_run id w W E) in H. injection H as <- <-.
      split; [now apply logged_wf, logged_wf, data_saved_wf|].
      right. right. left. exists id. now split.
  - rewrite (resetChecks_run w W) in H. injection H as <- <-.
    split; [now apply logged_wf, logged_wf, data_saved_wf|].
    right. right. right. left. exists false. now split.
  - rewrite (setAll_run b w W) in H. injection H as <- <-.
    split; [now apply logged_wf, logged_wf, data_saved_wf|].
    right. right. right. left. exists b. now split.
  - destruct (decide (ensureString (a_name a) 60 = [])) as [E|E].
    + unfold bind in H. rewrite (createItem_rejects uid a w E) in H.
      injection H as <- <-. split; [exact W|]. left. now split.
    + unfold bind in H. rewrite (createItem_accepts uid a w W E) in H.
      injection H as <- <-.
      split; [now apply logged_wf, logged_wf, data_saved_wf|].
      do 4 right. left. exists a. now repeat split.
  - destruct (newPreset uid (clean_mode m) (w_uids w)) as [[d|] n] eqn:N.
    + rewrite (changeMode_returns uid m w d n W N) in H.
      injection H as <- <-. split.
      * apply logged_wf, logged_wf, logged_wf, committed_wf.
        -- now apply settings_saved_wf.
        -- split; cbn; destruct W as (? & ? & ?); lia.
      * do 5 right. exists (clean_mode m). exact N.
    + rewrite (changeMode_throws uid m w n W N) in H.
      injection H as <- <-.
      split; [now apply settings_saved_wf|]. left. now split.
  - destruct (wipeAll_run uid w W) as (d & n & N & R).
    rewrite R in H. injection H as <- <-. split.
    + apply logged_wf, logged_wf, logged_wf, logged_wf, committed_wf;
        [exact W|].
      split; cbn; lia.
    + do 5 right. exists (u "salida"). exact N.
Qed.

End Invariants.

(** ** Claims about the store and the action layer *)

(** C1, counterexample: [createItem] stores the category it is given
    without looking it up, so an item can name a category the document does
    not have. *)
Lemma createItem_unknown_category :
  refs_ok (doc sample_world) /\
  ~ refs_ok (doc (snd (createItem uid0
                         (mkArgs (Some (u "Gafas")) None (Some (u "sol")) None)
                         sample_world))).
Proof. split; by_computation. Qed.

(** C1, amended: every document [loadData] returns has each item's [cat]
    among the ids of [cats]; every action keeps that property (also when
    [changeMode] throws), [createItem] provided the category it writes,
    the given one trimmed and cut to 40 code units or "otros", is an id of
    the document. *)
Theorem category_refs_kept uid :
  (forall a st n d n',
     loadData uid a st n = (Ret d, n') -> refs_ok d) /\
  (forall act w r w',
     wf w -> refs_ok (doc w) -> known_category act w ->
     perform uid act w = (r, w') ->
     wf w' /\ refs_ok (doc w')).
Proof.
  split.
  - intros a st n d n' H. eapply shape_refs, loadData_shape, H.
  - intros act w r w' W R K H.
    destruct (perform_cases uid act w r w' W H) as [W' C].
    split; [exact W'|].
    destruct C as [[-> _]|[(id & -> & _)|[(id & -> & _)|[(b & -> & _)|
                 [(a & -> & -> & _)|(m & N)]]]]].
    + exact R.
    + destruct (toggled_keeps id (doc w)) as (_ & Ec & Ei).
      exact (refs_ok_cats _ _ Ec Ei R).
    + now apply deleted_refs.
    + destruct (all_set_keeps b (doc w)) as (_ & Ec & Ei).
      exact (refs_ok_cats _ _ Ec Ei R).
    + unfold refs_ok, created. cbn [items cats cat_ids with_latch with_items].
      constructor; [exact K|exact R].
    + eapply shape_refs, newPreset_shape, N.
Qed.

Lemma category_refs_kept_witness :
  (exists d n', loadData uid0 (ModeStr (u "viaje")) (Parsed stored_doc) O
                = (Ret d, n') /\ refs_ok d) /\
  (wf sample_world /\ refs_ok (doc sample_world) /\
   exists r w',
     perform uid0 (CreateItem (mkArgs (Some (u "Gafas")) None
                                      (Some (u "otros")) None))
             sample_world = (r, w') /\
     wf w' /\ refs_ok (doc w')).
Proof.
  destruct (category_refs_kept uid0) as [P1 P2]. split.
  - eexists _, _. split; [vm_compute; reflexivity|].
    eapply (P1 (ModeStr (u "viaje")) (Parsed stored_doc) O).
    vm_compute. reflexivity.
  - split; [by_computation|]. split; [by_computation|].
    set (act := CreateItem (mkArgs (Some (u "Gafas")) None
                                   (Some (u "otros")) None)).
    destruct (perform uid0 act sample_world) as [r w'] eqn:E.
    exists r, w'. split; [reflexivity|].
    apply (P2 act sample_world r w'); [by_computation|by_computation| |exact E].
    unfold known_category, act. by_computation.
Defined.

(** C2, counterexample: a stored item with the id " a " is loaded with
    that id, since [repairItem] does not trim; [toggleDone] looks up the
    trimmed id "a" and finds no item.  The document has one item with its
    own id and the latch off, yet ticking every pending item leaves the
    item pending, the latch off and the streak as it was.  Once the item
    is done through [setAll], no toggle makes it pending again and the
    latch stays on. *)
Lemma untrimmed_id_never_ticked :
  exists d n',
    loadData uid0 (ModeStr (u "salida")) (Parsed untrimmed_id_doc) O
    = (Ret d, n') /\
    (let w := boot_store DEFAULT_SETTINGS d n' in
     wf w /\ length (items d) = 1%nat /\ NoDup (ids d) /\
     completedOnce d = false /\ ~ tickable d /\
     (exists pr1 w1,
        (toggle_each (pending (doc w)) ;;; runProgress) w = (Ret pr1, w1) /\
        items (doc w1) = items (doc w) /\
        completed pr1 = false /\ completedOnce (doc w1) = false /\
        streak (prefs w1) = streak (prefs w)) /\
     (exists pr2 w2 pr3 w3,
        (setAll true ;;; runProgress) w = (Ret pr2, w2) /\
        completedOnce (doc w2) = true /\
        streak (prefs w2) = streak (prefs w) + 1 /\
        (toggle_each (ids (doc w2)) ;;; runProgress) w2 = (Ret pr3, w3) /\
        items (doc w3) = items (doc w2) /\
        completedOnce (doc w3) = true)).
Proof.
  eexists _, _. split; [vm_compute; reflexivity|]. cbv zeta.
  split; [by_computation|]. split; [reflexivity|]. split; [by_computation|].
  split; [reflexivity|]. split; [by_computation|]. split.
  - eexists _, _. split; [vm_compute; reflexivity|]. now vm_compute.
  - eexists _, _, _, _. split; [vm_compute; reflexivity|].
    split; [reflexivity|]. split; [reflexivity|].
    split; [vm_compute; reflexivity|]. now vm_compute.
Qed.

(** C2, amended: in a store with at least one item whose item ids are
    pairwise distinct, non-empty and equal to their cleaned form (trimmed,
    at most 120 code units), ticking every pending item (each tick
    followed by the completion check) sets the latch and raises the
    streak from [s] to [s + 1]; ticking any item again clears the latch
    and leaves the streak; ticking it once more sets the latch and raises
    the streak to [s + 2]. *)
Theorem latch_rearms w s :
  wf w -> tickable (doc w) -> completedOnce (doc w) = false ->
  streak (prefs w) = s ->
  exists pr1 w1,
    (toggle_each (pending (doc w)) ;;; runProgress) w = (Ret pr1, w1) /\
    complete (doc w1) = true /\ completedOnce (doc w1) = true /\
    streak (prefs w1) = s + 1 /\
    forall j, j ∈ ids (doc w1) ->
      exists pr2 w2,
        onToggle j w1 = (Ret pr2, w2) /\
        completed pr2 = false /\ completedOnce (doc w2) = false /\
        streak (prefs w2) = s + 1 /\
        exists pr3 w3,
          onToggle j w2 = (Ret pr3, w3) /\
          completed pr3 = true /\ completedOnce (doc w3) = true /\
          streak (prefs w3) = s + 2.
Proof.
  intros W T L S.
  destruct (tick_pending _ w W T L eq_refl)
    as (pr1 & w1 & R1 & W1 & I1 & C1 & L1 & S1).
  exists pr1, w1. split; [exact R1|]. split; [exact C1|]. split; [exact L1|].
  split; [lia|]. intros j Hj.
  assert (T1 : tickable (doc w1)).
  { destruct T as (_ & Hnd & Hcl). unfold tickable. rewrite I1.
    split; [now apply complete_iff in C1 as [? _]|now split]. }
  pose proof C1 as [_ F1]%complete_iff.
  destruct (toggled_done_item (doc w1) j T1 F1 Hj) as (La & Ca & Ia & Lb & Cb).
  pose proof T1 as (_ & _ & Hcl). rewrite Forall_forall in Hcl.
  destruct (Hcl j Hj) as [Ec Hn].
  assert (Hc : ensureString (Some j) 120 <> []) by now rewrite Ec.
  destruct (onToggle_run j w1 W1 Hc) as (pr2 & w2 & R2 & P2 & W2 & D2 & S2 & _).
  exists pr2, w2. split; [exact R2|]. split; [now rewrite P2|].
  rewrite D2, S2. unfold settle_doc at 1, settle_prefs. rewrite Ca.
  cbn [andb with_latch completedOnce]. split; [reflexivity|]. split; [lia|].
  destruct (onToggle_run j w2 W2 Hc) as (pr3 & w3 & R3 & P3 & W3 & D3 & S3 & _).
  exists pr3, w3. split; [exact R3|]. rewrite P3, D3, S3, D2, S2.
  split; [exact Cb|]. unfold settle_doc at 1, settle_prefs. rewrite Cb, Lb, Ca.
  cbn [andb negb with_latch completedOnce streak streak_up].
  split; [reflexivity|lia].
Qed.

Lemma latch_rearms_witness :
  wf sample_world /\ tickable (doc sample_world) /\
  completedOnce (doc sample_world) = false /\
  exists pr1 w1,
    (toggle_each (pending (doc sample_world)) ;;; runProgress) sample_world
    = (Ret pr1, w1) /\
    complete (doc w1) = true /\ completedOnce (doc w1) = true /\
    streak (prefs w1) = 0 + 1 /\
    forall j, j ∈ ids (doc w1) ->
      exists pr2 w2,
        onToggle j w1 = (Ret pr2, w2) /\
        completed pr2 = false /\ completedOnce (doc w2) = false /\
        streak (prefs w2) = 0 + 1 /\
        exists pr3 w3,
          onToggle j w2 = (Ret pr3, w3) /\
          completed pr3 = true /\ completedOnce (doc w3) = true /\
          streak (prefs w3) = 0 + 2.
Proof.
  split; [by_computation|]. split; [by_computation|]. split; [reflexivity|].
  apply (latch_rearms sample_world 0);
    [by_computation|by_computation|reflexivity|reflexivity].
Defined.

Lemma ensureString_nil v n :
  (0 < n)%nat -> ensureString v n = [] <-> trim (default [] v) = [].
Proof.
  intros Hn. unfold ensureString, slice0. split.
  - intros [E|E]%take_nil_inv; [lia|exact E].
  - intros ->. apply take_nil.
Qed.

(** C5: a name that is empty after trimming is refused with reason
    EMPTY_NAME and the store keeps its state object; any other name makes
    [createItem] put one new item in front: not done, its name the trimmed
    name cut to 60 code units, its emoji the trimmed emoji cut to 4 code
    units or [null]; the latch is cleared and the result is [ok]. *)
Theorem createItem_validates uid a w :
  wf w ->
  (trim (default [] (a_name a)) = [] ->
   exists w',
     createItem uid a w = (Ret (mkResult false (Some EMPTY_NAME)), w') /\
     w_state w' = w_state w /\
     w_trace w' = w_trace w ++ [Toasted TNameMissing; Haptic 18]) /\
  (trim (default [] (a_name a)) <> [] ->
   exists it w',
     createItem uid a w = (Ret (mkResult true None), w') /\
     items (doc w') = it :: items (doc w) /\
     i_done it = false /\
     i_name it = slice0 60 (trim (default [] (a_name a))) /\
     i_emoji it = match slice0 4 (trim (default [] (a_emoji a))) with
                  | [] => None
                  | e => Some e
                  end /\
     completedOnce (doc w') = false).
Proof.
  intros W. split.
  - intros E. apply (ensureString_nil (a_name a) 60) in E; [|lia].
    rewrite (createItem_rejects uid a w E). eexists. split; [reflexivity|].
    split; [reflexivity|]. cbn. now rewrite <- app_assoc.
  - intros E.
    assert (E' : ensureString (a_name a) 60 <> []).
    { intros H. apply E. apply (ensureString_nil (a_name a) 60); [lia|exact H]. }
    rewrite (createItem_accepts uid a w W E').
    exists (new_item a (fst (drawn_id uid a w))). eexists.
    split; [reflexivity|]. now repeat split.
Qed.

Lemma createItem_validates_witness :
  (exists w',
     createItem uid0 (mkArgs (Some (u "   ")) None None None) sample_world
     = (Ret (mkResult false (Some EMPTY_NAME)), w') /\
     w_state w' = w_state sample_world /\
     w_trace w' = w_trace sample_world ++ [Toasted TNameMissing; Haptic 18]) /\
  (exists it w',
     createItem uid0 (mkArgs (Some (u " Gafas ")) (Some (u "abcdef")) None None)
                sample_world
     = (Ret (mkResult true None), w') /\
     items (doc w') = it :: items (doc sample_world) /\
     i_done it = false /\
     i_name it = u "Gafas" /\
     i_emoji it = Some (u "abcd") /\
     completedOnce (doc w') = false).
Proof.
  split.
  - apply (createItem_validates uid0
             (mkArgs (Some (u "   ")) None None None) sample_world);
      [by_computation|reflexivity].
  - apply (createItem_validates uid0
             (mkArgs (Some (u " Gafas ")) (Some (u "abcdef")) None None)
             sample_world); [by_computation|by_computation].
Defined.

Lemma catalog_key_clean B p :
  assoc B catalog = Some p -> clean_mode (Some B) = B.
Proof.
  unfold catalog. cbn [assoc].
  repeat (destruct (decide _) as [->|_]; [intros _; reflexivity|]).
  discriminate.
Qed.

(** C6: for every key [B] of the catalog, [changeMode(B)] returns and
    leaves [settings.tripMode] equal to [B] and a document whose mode is
    [B], whose categories are those of the catalog entry, whose items are
    the entry's templates, none done, with the latch cleared. *)
Theorem changeMode_resets uid w B p :
  wf w -> assoc B catalog = Some p ->
  exists w',
    changeMode uid (Some B) w = (Ret tt, w') /\
    tripMode (prefs w') = B /\
    mode (doc w') = B /\
    cats (doc w') = p_cats p /\
    Forall (fun i => i_done i = false) (items (doc w')) /\
    Forall2 from_tpl (p_items p) (items (doc w')) /\
    completedOnce (doc w') = false.
Proof.
  intros W HB.
  assert (Hp : presetFor B = IsPreset p) by (unfold presetFor; now rewrite HB).
  pose proof (catalog_key_clean B p HB) as Hc.
  destruct (newPreset_returns uid B p (w_uids w) Hp) as [d N].
  rewrite <- Hc in N at 1.
  rewrite (changeMode_returns uid (Some B) w d _ W N). rewrite Hc in N.
  apply newPreset_Ret in N as (p' & Hp' & _ & Hm & Hcs & Hl & F & _ & _).
  rewrite Hp in Hp'. injection Hp' as <-.
  eexists. split; [reflexivity|]. cbn. rewrite Hc.
  repeat split; try assumption.
  clear -F. induction F as [|t it ts its (_ & _ & _ & Hd) _ IH]; now constructor.
Qed.

Lemma changeMode_resets_witness :
  exists w',
    changeMode uid0 (Some (u "playa")) sample_world = (Ret tt, w') /\
    tripMode (prefs w') = u "playa" /\
    mode (doc w') = u "playa" /\
    cats (doc w') = p_cats preset_playa /\
    Forall (fun i => i_done i = false) (items (doc w')) /\
    Forall2 from_tpl (p_items preset_playa) (items (doc w')) /\
    completedOnce (doc w') = false.
Proof.
  apply (changeMode_resets uid0 sample_world (u "playa") preset_playa);
    [by_computation|reflexivity].
Defined.

Lemma uid0_inj i j : uid0 i = uid0 j -> i = j.
Proof.
  unfold uid0. intros E. apply (f_equal length) in E.
  rewrite !length_replicate in E. lia.
Qed.

(** C7, counterexample: a drawn or injected id is compared with nothing.
    [repairData] replaces the second "x" by the next draw, "i", which the
    first item carries already; [createItem] with an injected id source
    that returns "i" prepends a second item with that id to a list whose
    ids were pairwise distinct. *)
Lemma ids_can_collide :
  (exists d n',
     loadData uid0 (ModeStr (u "salida")) (Parsed colliding_draw_doc) O
     = (Ret d, n') /\
     ids d = [u "i"; u "x"; u "i"] /\ ~ NoDup (ids d)) /\
  (NoDup (ids (doc sample_world)) /\
   exists r w',
     perform uid0 (CreateItem (mkArgs (Some (u "Gafas")) None None
                                      (Some (uid0 O))))
             sample_world = (r, w') /\
     ~ NoDup (ids (doc w'))).
Proof.
  split.
  - eexists _, _. split; [vm_compute; reflexivity|].
    split; [reflexivity|by_computation].
  - split; [by_computation|].
    eexists _, _. split; [vm_compute; reflexivity|]. by_computation.
Qed.

(** C7, amended: with an id source that never repeats a value and never
    returns an id that is already stored, every document [loadData]
    returns has pairwise distinct item ids, and every action keeps them
    pairwise distinct when an id injected into [createItem] is new as
    well.  The code itself re-checks neither a drawn nor an injected
    id. *)
Theorem item_ids_unique uid :
  (forall i j, uid i = uid j -> i = j) ->
  (forall a st n d n',
     (forall k, (n <= k)%nat -> uid k ∉ stored_ids st) ->
     loadData uid a st n = (Ret d, n') ->
     NoDup (ids d) /\ (forall k, (n' <= k)%nat -> uid k ∉ ids d)) /\
  (forall act w r w',
     wf w -> NoDup (ids (doc w)) ->
     (forall k, (w_uids w <= k)%nat -> uid k ∉ ids (doc w)) ->
     injected_fresh uid act w ->
     perform uid act w = (r, w') ->
     wf w' /\ NoDup (ids (doc w')) /\
     (forall k, (w_uids w' <= k)%nat -> uid k ∉ ids (doc w'))).
Proof.
  intros Hinj. split.
  - intros a st n d n' Hf H. eapply loadData_ids; eassumption.
  - intros act w r w' W Hnd Hf Hi H.
    destruct (perform_cases uid act w r w' W H) as [W' C].
    split; [exact W'|].
    destruct C as [[-> ->]|[(id & -> & ->)|[(id & -> & ->)|[(b & -> & ->)|
                 [(a & -> & -> & ->)|(m & N)]]]]].
    + now split.
    + destruct (toggled_keeps id (doc w)) as (-> & _). now split.
    + pose proof (deleted_ids id (doc w)) as Hs. split.
      * eapply sublist_NoDup; eassumption.
      * intros k Hk Hin. apply (Hf k Hk). eapply elem_of_sublist; eassumption.
    + destruct (all_set_keeps b (doc w)) as (-> & _). now split.
    + unfold ids, created. cbn [items with_latch with_items fmap list_fmap].
      fold (ids (doc w)). cbn [injected_fresh] in Hi. unfold drawn_id.
      destruct (a_uid a) as [s|]; cbn [fst snd new_item i_id].
      * destruct Hi as [Hs Hu]. split.
        -- apply NoDup_cons. now split.
        -- intros k Hk [E|Hin]%elem_of_cons; [now apply (Hu k)|].
           now apply (Hf k).
      * split.
        -- apply NoDup_cons. split; [apply Hf; lia|exact Hnd].
        -- intros k Hk [E|Hin]%elem_of_cons.
           ++ apply Hinj in E. lia.
           ++ apply (Hf k); [lia|exact Hin].
    + now apply newPreset_ids in N.
Qed.

Lemma uid0_not_stored k : uid0 k ∉ stored_ids (Parsed stored_doc).
Proof.
  change (stored_ids (Parsed stored_doc)) with [u "p1"; u "p3"].
  intros [E|[E|E]%elem_of_cons]%elem_of_cons.
  - vm_compute in E. discriminate.
  - vm_compute in E. discriminate.
  - inversion E.
Qed.

Lemma uid0_not_zz k : uid0 k <> u "zz".
Proof.
  unfold uid0. intros E. apply (f_equal head) in E. vm_compute in E.
  discriminate.
Qed.

Lemma item_ids_unique_witness :
  (exists d n',
     loadData uid0 (ModeStr (u "viaje")) (Parsed stored_doc) O = (Ret d, n') /\
     NoDup (ids d)) /\
  (exists r w',
     perform uid0 (CreateItem (mkArgs (Some (u "Gafas")) None None None))
             sample_world = (r, w') /\
     NoDup (ids (doc w'))) /\
  (injected_fresh uid0
     (CreateItem (mkArgs (Some (u "Gafas")) None None (Some (u "zz"))))
     sample_world /\
   exists r w',
     perform uid0 (CreateItem (mkArgs (Some (u "Gafas")) None None
                                      (Some (u "zz"))))
             sample_world = (r, w') /\
     head (ids (doc w')) = Some (u "zz") /\
     NoDup (ids (doc w'))).
Proof.
  destruct (item_ids_unique uid0 uid0_inj) as [P1 P2].
  destruct (P1 (ModeStr (u "salida")) NoEntry O sample_doc 9%nat) as [Hn Hf].
  { intros k _. apply not_elem_of_nil. }
  { vm_compute. reflexivity. }
  assert (Hz : injected_fresh uid0
     (CreateItem (mkArgs (Some (u "Gafas")) None None (Some (u "zz"))))
     sample_world).
  { split; [by_computation|]. intros k _. apply uid0_not_zz. }
  split; [|split; [|split; [exact Hz|]]].
  - eexists _, _. split; [vm_compute; reflexivity|].
    eapply (P1 (ModeStr (u "viaje")) (Parsed stored_doc) O).
    + intros k _. apply uid0_not_stored.
    + vm_compute. reflexivity.
  - set (act := CreateItem (mkArgs (Some (u "Gafas")) None None None)).
    destruct (perform uid0 act sample_world) as [r w'] eqn:E.
    exists r, w'. split; [reflexivity|].
    apply (P2 act sample_world r w'); [by_computation|exact Hn|exact Hf|exact I|exact E].
  - set (act := CreateItem (mkArgs (Some (u "Gafas")) None None (Some (u "zz")))).
    destruct (perform uid0 act sample_world) as [r w'] eqn:E.
    exists r, w'. split; [reflexivity|].
    split; [vm_compute in E; injection E as _ <-; reflexivity|].
    apply (P2 act sample_world r w'); [by_computation|exact Hn|exact Hf|exact Hz|exact E].
Defined.

(** C8, counterexample: two stored categories with the same id are both
    kept by the repair. *)
Lemma stored_twin_categories_kept :
  exists d n',
    loadData uid0 (ModeStr (u "salida")) (Parsed twin_cats_doc) O = (Ret d, n') /\
    ~ NoDup (cat_ids d).
Proof.
  eexists _, _. split; [vm_compute; reflexivity|]. by_computation.
Qed.

Lemma preset_has_four_cats m p :
  presetFor m = IsPreset p -> (4 <= length (p_cats p))%nat.
Proof.
  intros H. apply presetFor_catalog in H.
  assert (F : Forall (fun q => (4 <= length (p_cats q))%nat) (snd <$> catalog))
    by by_computation.
  rewrite Forall_forall in F. now apply F.
Qed.

(** C8, amended: in every document [loadData] returns the category ids
    are non-empty, trimmed strings.  They are pairwise distinct when the
    document is a fresh preset, which it is whenever nothing could be
    parsed or the parsed value lacks structure.  When it is no fresh
    preset, its categories are those of a stored object with a non-empty
    [cats] array, converted by [repairCat] one by one, their ids never
    compared. *)
Theorem category_ids_nonempty uid a st n d n' :
  loadData uid a st n = (Ret d, n') ->
  Forall (fun c => c_id c <> [] /\ trim (c_id c) = c_id c) (cats d) /\
  ((exists md n0, newPreset uid md n0 = (Ret d, n')) -> NoDup (cat_ids d)) /\
  (not_parsed st \/ (exists v, st = Parsed v /\ lacks_structure v) ->
   (exists md n0, newPreset uid md n0 = (Ret d, n')) /\ NoDup (cat_ids d)) /\
  (~ (exists md n0, newPreset uid md n0 = (Ret d, n')) ->
   exists v l, st = Parsed v /\ is_object v = true /\
               get v (u "cats") = JArr l /\ l <> [] /\
               mapM repairCat l n = (Ret (cats d), n)).
Proof.
  intros H.
  assert (P : (exists md n0, newPreset uid md n0 = (Ret d, n')) ->
              NoDup (cat_ids d)).
  { intros (md & n0 & N). apply newPreset_Ret in N as (p & Hp & _ & _ & Hc & _).
    unfold cat_ids. rewrite Hc.
    now apply presetFor_shape in Hp as (_ & _ & _ & ?). }
  split; [|split; [exact P|split]].
  - apply loadData_shape in H as (_ & _ & F & _).
    eapply Forall_impl; [exact F|]. now intros c (? & ? & _).
  - intros C.
    assert (Fr : exists md n0, newPreset uid md n0 = (Ret d, n')).
    { apply loadData_Ret in H as [[n0 N]|(v & -> & R)]; [eauto|].
      destruct C as [[]|(v' & [= <-] & L)].
      destruct (repairData_discards uid v _ n d n' L R) as (md & n0 & N & _).
      eauto. }
    split; [exact Fr|exact (P Fr)].
  - intros C.
    apply loadData_Ret in H as [[n0 N]|(v & -> & R)]; [destruct C; eauto|].
    exists v.
    assert (O : is_object v = true).
    { unfold is_object. unfold repairData in R.
      destruct (truthy v), (typeof_object v); cbn [negb orb andb] in *;
        try reflexivity; destruct C; eauto. }
    assert (S : ~ lacks_structure v).
    { intros L. apply C.
      destruct (repairData_discards uid v _ n d n' L R) as (md & n0 & N & _).
      eauto. }
    apply repairData_Ret in R as [(m' & n0 & N)|[(l & G & M) _]];
      [destruct C; eauto|].
    exists l. split; [reflexivity|]. split; [exact O|]. split; [exact G|].
    split; [|exact M].
    intros ->. apply S. right. right. exact G.
Qed.

Lemma category_ids_nonempty_witness :
  (exists d n',
     loadData uid0 (ModeStr (u "viaje")) (Parsed stored_doc) O = (Ret d, n') /\
     Forall (fun c => c_id c <> [] /\ trim (c_id c) = c_id c) (cats d) /\
     exists v l, Parsed stored_doc = Parsed v /\ is_object v = true /\
                 get v (u "cats") = JArr l /\ l <> [] /\
                 mapM repairCat l O = (Ret (cats d), O)) /\
  (exists d n',
     loadData uid0 (ModeStr (u "viaje")) Malformed O = (Ret d, n') /\
     (exists md n0, newPreset uid0 md n0 = (Ret d, n')) /\ NoDup (cat_ids d)) /\
  (exists d n',
     loadData uid0 (ModeStr (u "viaje")) (Parsed throwing_item_doc) O
     = (Ret d, n') /\
     (exists md n0, newPreset uid0 md n0 = (Ret d, n')) /\ NoDup (cat_ids d)).
Proof.
  split; [|split].
  - eexists _, _. split; [vm_compute; reflexivity|].
    destruct (category_ids_nonempty uid0 (ModeStr (u "viaje"))
                (Parsed stored_doc) O _ _ eq_refl) as (F & _ & _ & St).
    split; [exact F|]. apply St.
    intros (md & n0 & N).
    apply newPreset_Ret in N as (p & Hp & _ & _ & Hc & _).
    apply preset_has_four_cats in Hp. rewrite <- Hc in Hp.
    vm_compute in Hp. lia.
  - eexists _, _. split; [vm_compute; reflexivity|].
    destruct (category_ids_nonempty uid0 (ModeStr (u "viaje")) Malformed O
                _ _ eq_refl) as (_ & _ & Fr & _).
    apply Fr. left. exact I.
  - eexists _, _. split; [vm_compute; reflexivity|].
    destruct (category_ids_nonempty uid0 (ModeStr (u "viaje"))
                (Parsed throwing_item_doc) O _ _ eq_refl) as (_ & _ & Fr & _).
    apply Fr. right. exists throwing_item_doc. split; [reflexivity|].
    left. reflexivity.
Defined.

(** C9, counterexample: the updater [s => s] hands back the previous
    state object; [setState] spreads it into a new object, stores that and
    calls the subscriber, although every part of the state is the object
    it was. *)
Lemma identity_updater_notifies :
  exists w',
    setState (Updater (fun s =>
      ret (Plain (mkPatch (Some (settings s)) (Some (data s))
                          (Some (activeCat s)))))) sample_world
    = (Ret tt, w') /\
    settings (w_state w') = settings (w_state sample_world) /\
    data (w_state w') = data (w_state sample_world) /\
    activeCat (w_state w') = activeCat (w_state sample_world) /\
    s_loc (w_state w') <> s_loc (w_state sample_world) /\
    w_trace w' = w_trace sample_world ++ [Notified 0].
Proof.
  eexists. split; [vm_compute; reflexivity|].
  repeat split; by_computation.
Qed.

(** C9, amended: an argument that is neither a function nor a plain
    object leaves the whole store as it was, and after an updater that
    returns no plain object [setState] stores and announces nothing.  In
    every other case, an updater that returns a plain object (the
    previous state object included) or a plain object as the argument,
    the state becomes a new object and every subscriber is called. *)
Theorem setState_noop :
  (forall w, setState Weird w = (Ret tt, w)) /\
  (forall f w w1,
     f (w_state w) w = (Ret NotPlain, w1) ->
     setState (Updater f) w = (Ret tt, w1)) /\
  (forall f w p k n,
     wf w ->
     f (w_state w) w = (Ret (Plain p), grown k n w) ->
     exists w',
       setState (Updater f) w = (Ret tt, w') /\
       s_loc (w_state w') <> s_loc (w_state w) /\
       w_trace w' = w_trace w ++ notices (w_state w) (w_state w') (w_listeners w) /\
       forall i, (i < length (w_listeners w))%nat ->
                 Notified i ∈ notices (w_state w) (w_state w') (w_listeners w)) /\
  (forall p w,
     wf w ->
     exists w',
       setState (PatchObj p) w = (Ret tt, w') /\
       s_loc (w_state w') <> s_loc (w_state w) /\
       w_trace w' = w_trace w ++ notices (w_state w) (w_state w') (w_listeners w) /\
       forall i, (i < length (w_listeners w))%nat ->
                 Notified i ∈ notices (w_state w) (w_state w') (w_listeners w)).
Proof.
  split; [|split; [|split]].
  - intros w. unfold setState, compute_next, bind, getState, ret.
    now rewrite decide_True.
  - intros f w w1 H. unfold setState, compute_next, bind, getState. rewrite H.
    unfold ret. now rewrite decide_True.
  - intros f w p k n W H.
    exists (committed p k n w).
    split; [now apply setState_commits|].
    destruct W as (W1 & _).
    split; [cbn; lia|]. split; [reflexivity|].
    intros i Hi. apply (notices_from_all _ _ (w_listeners w) 0 i Hi).
  - intros p w (W1 & _).
    exists (committed p 0 (w_uids w) w).
    split.
    { unfold setState, compute_next, bind, getState, alloc, ret, merge. cbn.
      destruct (decide _) as [E|_]; [lia|]. reflexivity. }
    split; [cbn; lia|]. split; [reflexivity|].
    intros i Hi. apply (notices_from_all _ _ (w_listeners w) 0 i Hi).
Qed.

(** In general: an updater that hands back the previous state object has
    it spread into a new one, which is stored and announced. *)
Remark same_object_is_committed w :
  wf w ->
  exists w',
    setState (Updater (fun s =>
      ret (Plain (mkPatch (Some (settings s)) (Some (data s))
                          (Some (activeCat s)))))) w = (Ret tt, w') /\
    s_loc (w_state w') <> s_loc (w_state w) /\
    w_trace w' = w_trace w ++ notices (w_state w) (w_state w') (w_listeners w).
Proof.
  intros W.
  set (p := mkPatch (Some (settings (w_state w))) (Some (data (w_state w)))
                    (Some (activeCat (w_state w)))).
  exists (committed p 0 (w_uids w) w). split.
  - apply (setState_commits _ w p 0 (w_uids w) W). destruct w; reflexivity.
  - destruct W as (W1 & _). cbn. split; [lia|reflexivity].
Qed.

Lemma setState_noop_witness :
  setState Weird sample_world = (Ret tt, sample_world) /\
  setState (Updater (fun _ => ret NotPlain)) sample_world
  = (Ret tt, sample_world) /\
  (exists w',
     setState (Updater (fun s =>
       ret (Plain (mkPatch (Some (settings s)) (Some (data s))
                           (Some (activeCat s)))))) sample_world
     = (Ret tt, w') /\
     s_loc (w_state w') <> s_loc (w_state sample_world) /\
     w_trace w'
     = w_trace sample_world
       ++ notices (w_state sample_world) (w_state w') (w_listeners sample_world) /\
     forall i, (i < length (w_listeners sample_world))%nat ->
               Notified i ∈ notices (w_state sample_world) (w_state w')
                                    (w_listeners sample_world)) /\
  (exists w',
     setState (PatchObj (mkPatch None None None)) sample_world = (Ret tt, w') /\
     s_loc (w_state w') <> s_loc (w_state sample_world) /\
     w_trace w'
     = w_trace sample_world
       ++ notices (w_state sample_world) (w_state w') (w_listeners sample_world) /\
     forall i, (i < length (w_listeners sample_world))%nat ->
               Notified i ∈ notices (w_state sample_world) (w_state w')
                                    (w_listeners sample_world)).
Proof.
  destruct setState_noop as (P1 & P2 & P3 & P4).
  split; [apply P1|]. split; [|split].
  - apply (P2 (fun _ => ret NotPlain) sample_world). reflexivity.
  - apply (P3 _ sample_world
             (mkPatch (Some (settings (w_state sample_world)))
                      (Some (data (w_state sample_world)))
                      (Some (activeCat (w_state sample_world))))
             O (w_uids sample_world)); [by_computation|reflexivity].
  - apply (P4 (mkPatch None None None) sample_world). by_computation.
Defined.

(** C10, counterexample: the empty id matches no item, and [toggleDone]
    returns at once: the same state object, nothing notified, nothing
    saved. *)
Lemma blank_id_commits_nothing :
  ([] ∉ ids (doc sample_world)) /\
  toggleDone [] sample_world = (Ret tt, sample_world).
Proof. split; [by_computation|reflexivity]. Qed.

(** C10, amended: when the id, trimmed and cut to 120 code units, is not
    empty and matches no item, [toggleDone] leaves the document equal in
    value, yet commits a new state object with a new [data] object, calls
    every subscriber and asks for a debounced save. *)
Theorem toggle_unknown_id id w :
  wf w ->
  ensureString (Some id) 120 <> [] ->
  ensureString (Some id) 120 ∉ ids (doc w) ->
  exists w' es,
    toggleDone id w = (Ret tt, w') /\
    doc w' = doc w /\
    s_loc (w_state w') <> s_loc (w_state w) /\
    loc (data (w_state w')) <> loc (data (w_state w)) /\
    w_trace w' = w_trace w ++ es /\
    (forall i, (i < length (w_listeners w))%nat -> Notified i ∈ es) /\
    SaveDataDebounced (doc w) ∈ es.
Proof.
  intros W Hc Hn. rewrite (toggleDone_run id w W Hc).
  assert (E : toggled id (doc w) = doc w).
  { unfold toggled. now rewrite (toggle_first_out _ _ Hn). }
  rewrite E. eexists. eexists.
  split; [reflexivity|]. split; [reflexivity|].
  destruct W as (W1 & W2 & W3).
  split; [cbn; lia|]. split; [cbn; lia|].
  split.
  { cbn. rewrite <- !app_assoc. reflexivity. }
  split.
  - intros i Hi. apply elem_of_app. left.
    apply (notices_from_all _ _ (w_listeners w) 0 i Hi).
  - apply elem_of_app. right. apply list_elem_of_here.
Qed.

Lemma toggle_unknown_id_witness :
  exists w' es,
    toggleDone (u "zz") sample_world = (Ret tt, w') /\
    doc w' = doc sample_world /\
    s_loc (w_state w') <> s_loc (w_state sample_world) /\
    loc (data (w_state w')) <> loc (data (w_state sample_world)) /\
    w_trace w' = w_trace sample_world ++ es /\
    (forall i, (i < length (w_listeners sample_world))%nat -> Notified i ∈ es) /\
    SaveDataDebounced (doc sample_world) ∈ es.
Proof.
  apply (toggle_unknown_id (u "zz") sample_world);
    [by_computation|by_computation|by_computation].
Defined.

(** * Handlers, completion and the persistence bridge *)

Lemma setState_patch p w :
  wf w -> setState (PatchObj p) w = (Ret tt, committed p 0 (w_uids w) w).
Proof.
  intros (W & _ & _).
  unfold setState, compute_next, bind, getState, alloc, ret, merge. cbn.
  destruct (decide _) as [E|_]; [lia|].
  reflexivity.
Qed.

(** When the latch already agrees with the completeness of the list,
    [runProgress] commits nothing. *)
Lemma runProgress_quiet w :
  completedOnce (doc w) = complete (doc w) ->
  runProgress w = (Ret (renderProgress (w_state w)), w).
Proof.
  intros L. unfold runProgress.
  unfold bind at 1. unfold getState at 1. cbv beta iota.
  change (completed (renderProgress (w_state w))) with (complete (doc w)).
  fold (doc w). rewrite L.
  destruct (complete (doc w)); now destruct w.
Qed.

Lemma complete_all_set_true d : items d <> [] -> complete (all_set true d) = true.
Proof.
  intros H. apply complete_iff. split.
  - cbn. now destruct (items d).
  - cbn. apply Forall_fmap, Forall_true. now intros [].
Qed.

Lemma complete_all_set_false d : complete (all_set false d) = false.
Proof.
  destruct (complete (all_set false d)) eqn:C; [|reflexivity].
  apply complete_iff in C as [N F].
  destruct d as [v m c [|i l] b]; cbn in N, F; [now destruct N|].
  inversion F; subst. discriminate.
Qed.

(** The handler composed of an action that leaves the world [w1] and the
    [runProgress] after it. *)
Lemma then_runProgress (act : M unit) w w1 :
  act w = (Ret tt, w1) -> wf w1 ->
  exists w',
    (act ;;; runProgress) w = (Ret (renderProgress (w_state w1)), w') /\
    wf w' /\
    doc w' = settle_doc (doc w1) /\
    prefs w' = settle_prefs (doc w1) (prefs w1) /\
    w_uids w' = w_uids w1.
Proof.
  intros R W1.
  destruct (runProgress_run w1 W1) as (w' & R' & W' & D & P & U & _).
  exists w'. rewrite (bind_run _ _ _ _ _ R).
  split; [exact R'|]. split; [exact W'|]. now repeat split.
Qed.

(** X1.  Switching the tab changes [activeCat] only: the settings object
    and the data object stay the same objects, so the subscriber of [boot]
    requests no save, and the trace gains the haptic pulse and the
    notifications. *)
Theorem tab_switch_saves_nothing catId w :
  wf w -> completedOnce (doc w) = complete (doc w) ->
  exists pr w',
    onTab catId w = (Ret pr, w') /\
    activeCat (w_state w') = catId /\
    settings (w_state w') = settings (w_state w) /\
    data (w_state w') = data (w_state w) /\
    persist_bridge (w_state w) (w_state w') = [] /\
    w_trace w'
    = w_trace w ++ Haptic 10 :: notices (w_state w) (w_state w') (w_listeners w).
Proof.
  intros W L.
  set (w1 := logged [Haptic 10] w).
  set (w2 := committed (mkPatch None None (Some catId)) 0 (w_uids w1) w1).
  exists (renderProgress (w_state w2)), w2.
  split.
  { unfold onTab.
    rewrite (bind_run _ _ w tt w1) by reflexivity.
    rewrite (bind_run _ _ w1 tt w2) by (apply setState_patch; exact W).
    apply runProgress_quiet. exact L. }
  split; [reflexivity|]. split; [reflexivity|]. split; [reflexivity|].
  split.
  - unfold persist_bridge. cbn. now rewrite !decide_True by reflexivity.
  - cbn. now rewrite <- app_assoc.
Qed.

Lemma tab_switch_saves_nothing_witness :
  exists pr w',
    onTab (u "docs") sample_world = (Ret pr, w') /\
    activeCat (w_state w') = u "docs" /\
    settings (w_state w') = settings (w_state sample_world) /\
    data (w_state w') = data (w_state sample_world) /\
    persist_bridge (w_state sample_world) (w_state w') = [] /\
    w_trace w'
    = w_trace sample_world
      ++ Haptic 10 :: notices (w_state sample_world) (w_state w')
                              (w_listeners sample_world).
Proof.
  apply (tab_switch_saves_nothing (u "docs") sample_world);
    [by_computation|reflexivity].
Defined.

(** X2.  The subscriber of [boot] asks for exactly the save that matches
    the object an update replaced: the data after [updateData], the
    settings after [updateSettings]. *)
Theorem bridge_saves_what_changed w :
  wf w ->
  (forall mut d n,
     mut (doc w) (grown 1 (w_uids w) w) = (Ret d, grown 1 n w) ->
     exists w',
       updateData mut w = (Ret tt, w') /\
       persist_bridge (w_state w) (w_state w') = [SaveDataDebounced d]) /\
  (forall mut t,
     mut (prefs w) (grown 1 (w_uids w) w) = (Ret t, grown 1 (w_uids w) w) ->
     exists w',
       updateSettings mut w = (Ret tt, w') /\
       persist_bridge (w_state w) (w_state w') = [SaveSettingsDebounced t]).
Proof.
  intros W. split.
  - intros mut d n H. exists (data_saved d n w).
    split; [now apply updateData_run|].
    destruct W as (_ & _ & W3).
    unfold persist_bridge. cbn.
    rewrite decide_True by reflexivity.
    rewrite decide_False by lia. reflexivity.
  - intros mut t H. exists (settings_saved t w).
    split; [now apply updateSettings_run|].
    destruct W as (_ & W2 & _).
    unfold persist_bridge. cbn.
    rewrite decide_False by lia.
    rewrite decide_True by reflexivity. reflexivity.
Qed.

Lemma bridge_saves_what_changed_witness :
  (exists w',
     updateData (fun d => ret (all_set true d)) sample_world = (Ret tt, w') /\
     persist_bridge (w_state sample_world) (w_state w')
     = [SaveDataDebounced (all_set true (doc sample_world))]) /\
  (exists w',
     updateSettings (fun t => ret (streak_up t)) sample_world = (Ret tt, w') /\
     persist_bridge (w_state sample_world) (w_state w')
     = [SaveSettingsDebounced (streak_up (prefs sample_world))]).
Proof.
  destruct (bridge_saves_what_changed sample_world) as [P1 P2];
    [by_computation|].
  split.
  - apply (P1 (fun d => ret (all_set true d)) _ (w_uids sample_world)).
    reflexivity.
  - apply (P2 (fun t => ret (streak_up t))). reflexivity.
Defined.

(** X3.  [onCompletedOnce] sets the latch and adds one to the streak when
    every item of a non-empty list is done and the latch is off; in every
    other case it changes nothing, so unlike [runProgress] it never clears
    a latch that is left on. *)
Theorem onCompletedOnce_latches w :
  wf w ->
  exists w',
    onCompletedOnce w = (Ret tt, w') /\
    wf w' /\
    doc w' = (if complete (doc w) then with_latch true (doc w) else doc w) /\
    prefs w' = settle_prefs (doc w) (prefs w) /\
    (complete (doc w) = false \/ completedOnce (doc w) = true -> w' = w).
Proof.
  intros W. unfold onCompletedOnce.
  unfold bind at 1. unfold getState at 1. cbv beta iota. fold (doc w).
  unfold settle_prefs.
  assert (C : complete (doc w)
              = match items (doc w) with
                | [] => false
                | _ => negb (bool_decide (length (items (doc w)) = O)
                             || negb (bool_decide
                                  (length (filter (fun i => i_done i = true)
                                                  (items (doc w)))
                                   = length (items (doc w)))))
                end).
  { unfold complete. destruct (items (doc w)) as [|i l] eqn:I; [reflexivity|].
    rewrite (bool_decide_eq_true_2 (0 < length (i :: l))%nat) by (cbn; lia).
    rewrite (bool_decide_eq_false_2 (length (i :: l) = O)) by (cbn; lia).
    cbn [andb orb]. now rewrite negb_involutive. }
  destruct (items (doc w)) as [|i l] eqn:I.
  { rewrite C. exists w. split; [reflexivity|]. split; [exact W|].
    now repeat split. }
  destruct (bool_decide (length (i :: l) = O)
            || negb (bool_decide
                 (length (filter (fun i0 => i_done i0 = true) (i :: l))
                  = length (i :: l)))) eqn:G;
    rewrite C; cbn [negb andb].
  { exists w. split; [reflexivity|]. split; [exact W|]. now repeat split. }
  destruct (completedOnce (doc w)) eqn:L; cbn [negb].
  { exists w. split; [reflexivity|]. split; [exact W|].
    split; [now rewrite <- L, with_latch_same|]. now split. }
  set (w1 := data_saved (with_latch true (doc w)) (w_uids w) w).
  set (w2 := settings_saved (streak_up (prefs w)) w1).
  assert (W1 : wf w1) by now apply data_saved_wf.
  assert (W2 : wf w2) by now apply settings_saved_wf.
  assert (R1 : updateData (fun d => ret (with_latch true d)) w = (Ret tt, w1)).
  { now apply updateData_run. }
  assert (R2 : updateSettings (fun t => ret (streak_up t)) w1 = (Ret tt, w2)).
  { now apply updateSettings_run. }
  rewrite (bind_run _ _ _ _ _ R1), (bind_run _ _ _ _ _ R2).
  destruct (motion (val (settings (w_state w)))).
  - exists (logged [Toasted TCompleted] (logged [Confetti] w2)).
    split; [reflexivity|]. split; [exact W2|].
    split; [reflexivity|]. split; [reflexivity|].
    intros [?|?]; discriminate.
  - exists (logged [Toasted TCompleted] w2).
    split; [reflexivity|]. split; [exact W2|].
    split; [reflexivity|]. split; [reflexivity|].
    intros [?|?]; discriminate.
Qed.

Lemma onCompletedOnce_latches_witness :
  (exists w',
     onCompletedOnce sample_world = (Ret tt, w') /\
     wf w' /\
     doc w' = (if complete (doc sample_world)
               then with_latch true (doc sample_world) else doc sample_world) /\
     prefs w' = settle_prefs (doc sample_world) (prefs sample_world) /\
     (complete (doc sample_world) = false \/
      completedOnce (doc sample_world) = true -> w' = sample_world)) /\
  (complete (doc (snd (setAll true sample_world))) = true /\
   completedOnce (doc (snd (setAll true sample_world))) = false) /\
  (exists w',
     onCompletedOnce (snd (setAll true sample_world)) = (Ret tt, w') /\
     wf w' /\
     doc w' = (if complete (doc (snd (setAll true sample_world)))
               then with_latch true (doc (snd (setAll true sample_world)))
               else doc (snd (setAll true sample_world))) /\
     prefs w' = settle_prefs (doc (snd (setAll true sample_world)))
                             (prefs (snd (setAll true sample_world))) /\
     (complete (doc (snd (setAll true sample_world))) = false \/
      completedOnce (doc (snd (setAll true sample_world))) = true ->
      w' = snd (setAll true sample_world))).
Proof.
  split; [|split].
  - apply (onCompletedOnce_latches sample_world). by_computation.
  - now split.
  - apply (onCompletedOnce_latches (snd (setAll true sample_world))).
    by_computation.
Defined.

Lemma filter_keeps_all {A} (P : A -> Prop) `{!forall x, Decision (P x)}
  (l : list A) : Forall P l -> filter P l = l.
Proof.
  induction 1 as [|x l Hx _ IH]; [reflexivity|].
  rewrite filter_cons_True by assumption. now rewrite IH.
Qed.

(** X4.  [deleteItem] removes every item that carries the cleaned id and
    keeps the others in order.  It clears the latch, shows the toast and
    requests the save also when no item carries that id. *)
Theorem deleteItem_removes id w :
  wf w -> ensureString (Some id) 120 <> [] ->
  exists w',
    deleteItem id w = (Ret tt, w') /\
    (ensureString (Some id) 120 ∉ ids (doc w')) /\
    items (doc w') `sublist_of` items (doc w) /\
    (forall it, it ∈ items (doc w) -> i_id it <> ensureString (Some id) 120 ->
                it ∈ items (doc w')) /\
    (ensureString (Some id) 120 ∉ ids (doc w) ->
     items (doc w') = items (doc w)) /\
    completedOnce (doc w') = false /\
    w_trace w'
    = w_trace w ++ notices (w_state w) (w_state w') (w_listeners w)
      ++ [SaveDataDebounced (doc w'); Toasted TItemDeleted; Haptic 10].
Proof.
  intros W Hc. rewrite (deleteItem_run id w W Hc).
  eexists. split; [reflexivity|].
  change (doc (logged _ (logged _ (data_saved ?d _ _)))) with d.
  unfold ids, deleted. cbn [items with_latch with_items completedOnce].
  split.
  { intros H.
    apply list_elem_of_fmap in H as (it & E & H).
    apply list_elem_of_filter in H as [H _]. congruence. }
  split; [apply sublist_filter|].
  split.
  { intros it H N. now apply list_elem_of_filter. }
  split.
  { intros N. apply filter_keeps_all. apply Forall_forall.
    intros it H E. apply N. rewrite <- E. now apply list_elem_of_fmap_2. }
  split; [reflexivity|].
  cbn [w_trace logged data_saved committed].
  rewrite <- !app_assoc. reflexivity.
Qed.

Lemma deleteItem_removes_witness :
  exists w',
    deleteItem (u " ii ") sample_world = (Ret tt, w') /\
    (ensureString (Some (u " ii ")) 120 ∉ ids (doc w')) /\
    items (doc w') `sublist_of` items (doc sample_world) /\
    (forall it, it ∈ items (doc sample_world) ->
                i_id it <> ensureString (Some (u " ii ")) 120 ->
                it ∈ items (doc w')) /\
    (ensureString (Some (u " ii ")) 120 ∉ ids (doc sample_world) ->
     items (doc w') = items (doc sample_world)) /\
    completedOnce (doc w') = false /\
    w_trace w'
    = w_trace sample_world
      ++ notices (w_state sample_world) (w_state w') (w_listeners sample_world)
      ++ [SaveDataDebounced (doc w'); Toasted TItemDeleted; Haptic 10].
Proof.
  apply (deleteItem_removes (u " ii ") sample_world);
    [by_computation|by_computation].
Defined.

(** X5.  Deleting counts as a completion: when every item that stays is
    done and at least one stays, the delete handler ends with the latch on
    and the streak one higher, whatever the latch was before and whether
    or not an item was removed. *)
Theorem delete_recompletes id w :
  wf w -> ensureString (Some id) 120 <> [] ->
  Forall (fun i => i_done i = true \/ i_id i = ensureString (Some id) 120)
         (items (doc w)) ->
  (exists it, it ∈ items (doc w) /\ i_id it <> ensureString (Some id) 120) ->
  exists pr w',
    onDelete id w = (Ret pr, w') /\
    completed pr = true /\
    completedOnce (doc w') = true /\
    streak (prefs w') = streak (prefs w) + 1.
Proof.
  intros W Hc F (it & I & N).
  destruct (then_runProgress (deleteItem id) w _ (deleteItem_run id w W Hc))
    as (w' & R & _ & D & P & _).
  { now apply logged_wf, logged_wf, data_saved_wf. }
  revert R D P. set (w1 := logged _ _).
  change (doc w1) with (deleted id (doc w)).
  change (prefs w1) with (prefs w).
  intros R D P.
  assert (C : complete (deleted id (doc w)) = true).
  { apply complete_iff. unfold deleted.
    cbn [items with_latch with_items]. split.
    - intros E.
      assert (H : it ∈ filter (fun x => i_id x <> ensureString (Some id) 120)
                              (items (doc w)))
        by now apply list_elem_of_filter.
      rewrite E in H. now apply elem_of_nil in H.
    - apply Forall_forall. intros x H.
      apply list_elem_of_filter in H as [Nx H].
      rewrite Forall_forall in F. destruct (F x H); [assumption|contradiction]. }
  exists (renderProgress (w_state w1)), w'.
  split; [exact R|]. split; [exact C|].
  rewrite D, P. unfold settle_doc, settle_prefs. rewrite C. now split.
Qed.

Lemma delete_recompletes_witness :
  exists pr w',
    onDelete (u "zz") (snd (onSelectAll sample_world)) = (Ret pr, w') /\
    completed pr = true /\
    completedOnce (doc w') = true /\
    streak (prefs w') = streak (prefs (snd (onSelectAll sample_world))) + 1.
Proof.
  apply (delete_recompletes (u "zz") (snd (onSelectAll sample_world)));
    [by_computation|by_computation|by_computation|].
  exists (mkItem (uid0 0) (u "tech") (u "Cargador del celular")
                 (Some [55357; 56588]%N) true).
  split; by_computation.
Defined.

(** X6.  "Select all" on a non-empty list always counts as a completion:
    every item ends done, the ids stay, the latch is on and the streak is
    one higher, also when the list was complete and latched before. *)
Theorem select_all_recompletes w :
  wf w -> items (doc w) <> [] ->
  exists pr w',
    onSelectAll w = (Ret pr, w') /\
    completed pr = true /\
    Forall (fun i => i_done i = true) (items (doc w')) /\
    ids (doc w') = ids (doc w) /\
    completedOnce (doc w') = true /\
    streak (prefs w') = streak (prefs w) + 1.
Proof.
  intros W N.
  destruct (then_runProgress (setAll true) w _ (setAll_run true w W))
    as (w' & R & _ & D & P & _).
  { now apply logged_wf, logged_wf, data_saved_wf. }
  revert R D P. set (w1 := logged _ _).
  change (doc w1) with (all_set true (doc w)).
  change (prefs w1) with (prefs w).
  intros R D P.
  pose proof (complete_all_set_true (doc w) N) as C.
  exists (renderProgress (w_state w1)), w'.
  split; [exact R|]. split; [exact C|].
  rewrite D, P. unfold settle_doc, settle_prefs. rewrite C.
  split; [|split; [|now split]].
  - now apply complete_iff in C as [_ C].
  - apply (all_set_keeps true (doc w)).
Qed.

Lemma select_all_recompletes_witness :
  exists pr w',
    onSelectAll (snd (onSelectAll sample_world)) = (Ret pr, w') /\
    completed pr = true /\
    Forall (fun i => i_done i = true) (items (doc w')) /\
    ids (doc w') = ids (doc (snd (onSelectAll sample_world))) /\
    completedOnce (doc w') = true /\
    streak (prefs w') = streak (prefs (snd (onSelectAll sample_world))) + 1.
Proof.
  apply (select_all_recompletes (snd (onSelectAll sample_world)));
    by_computation.
Defined.

(** X7.  "Uncheck all" and "reset" leave no item done, the latch off and
    the settings, the streak among them, as they were. *)
Theorem uncheck_keeps_streak w :
  wf w ->
  (exists pr w',
     onUncheckAll w = (Ret pr, w') /\ completed pr = false /\
     Forall (fun i => i_done i = false) (items (doc w')) /\
     completedOnce (doc w') = false /\ prefs w' = prefs w) /\
  (exists pr w',
     onReset w = (Ret pr, w') /\ completed pr = false /\
     Forall (fun i => i_done i = false) (items (doc w')) /\
     completedOnce (doc w') = false /\ prefs w' = prefs w).
Proof.
  intros W.
  pose proof (complete_all_set_false (doc w)) as C.
  assert (F : Forall (fun i => i_done i = false) (items (all_set false (doc w)))).
  { cbn. apply Forall_fmap, Forall_true. now intros []. }
  split.
  - destruct (then_runProgress (setAll false) w _ (setAll_run false w W))
      as (w' & R & _ & D & P & _).
    { now apply logged_wf, logged_wf, data_saved_wf. }
    revert R D P. set (w1 := logged _ _).
    change (doc w1) with (all_set false (doc w)).
    change (prefs w1) with (prefs w).
    intros R D P.
    exists (renderProgress (w_state w1)), w'.
    split; [exact R|]. split; [exact C|].
    rewrite D, P. unfold settle_doc, settle_prefs. rewrite C. now split.
  - destruct (then_runProgress resetChecks w _ (resetChecks_run w W))
      as (w' & R & _ & D & P & _).
    { now apply logged_wf, logged_wf, data_saved_wf. }
    revert R D P. set (w1 := logged _ _).
    change (doc w1) with (all_set false (doc w)).
    change (prefs w1) with (prefs w).
    intros R D P.
    exists (renderProgress (w_state w1)), w'.
    split; [exact R|]. split; [exact C|].
    rewrite D, P. unfold settle_doc, settle_prefs. rewrite C. now split.
Qed.

Lemma uncheck_keeps_streak_witness :
  (Forall (fun i => i_done i = true)
          (items (doc (snd (onSelectAll sample_world)))) /\
   completedOnce (doc (snd (onSelectAll sample_world))) = true /\
   streak (prefs (snd (onSelectAll sample_world))) = 1) /\
  (exists pr w',
     onUncheckAll (snd (onSelectAll sample_world)) = (Ret pr, w') /\
     completed pr = false /\
     Forall (fun i => i_done i = false) (items (doc w')) /\
     completedOnce (doc w') = false /\
     prefs w' = prefs (snd (onSelectAll sample_world))) /\
  (exists pr w',
     onReset (snd (onSelectAll sample_world)) = (Ret pr, w') /\
     completed pr = false /\
     Forall (fun i => i_done i = false) (items (doc w')) /\
     completedOnce (doc w') = false /\
     prefs w' = prefs (snd (onSelectAll sample_world))).
Proof.
  split.
  - split; [by_computation|]. now split.
  - apply (uncheck_keeps_streak (snd (onSelectAll sample_world))).
    by_computation.
Defined.

(** * Toggling, mode changes and the visible list *)

Lemma toggle_first_twice c l : forall l',
  toggle_first c l = Some l' -> toggle_first c l' = Some l.
Proof.
  induction l as [|it r IH]; intros l' H; [discriminate|].
  simpl in H. destruct (decide (i_id it = c)) as [E|N].
  - injection H as <-. simpl. rewrite decide_True by exact E.
    destruct it as [i c0 n e b]. unfold with_done. cbn.
    now rewrite negb_involutive.
  - destruct (toggle_first c r) as [r'|] eqn:T; [|discriminate].
    injection H as <-. simpl. rewrite decide_False by exact N.
    now rewrite (IH r' eq_refl).
Qed.

Lemma toggled_twice id d : items (toggled id (toggled id d)) = items d.
Proof.
  unfold toggled at 2.
  destruct (toggle_first (ensureString (Some id) 120) (items d)) as [l|] eqn:T.
  - unfold toggled. cbn [items with_latch with_items].
    now rewrite (toggle_first_twice _ _ _ T).
  - unfold toggled. now rewrite T.
Qed.

Lemma toggled_flips id d :
  ensureString (Some id) 120 ∈ ids d ->
  exists l1 it l2,
    items d = l1 ++ it :: l2 /\ i_id it = ensureString (Some id) 120 /\
    items (toggled id d) = l1 ++ with_done (negb (i_done it)) it :: l2.
Proof.
  intros H. destruct (toggle_first_in _ _ H) as (l1 & it & l2 & E & I & _ & T).
  exists l1, it, l2. split; [exact E|]. split; [exact I|].
  unfold toggled. now rewrite T.
Qed.

(** X8.  Toggling the same id twice gives back the items as they were,
    done flags included; when an item carries the cleaned, non-empty id
    the first toggle has changed the list and the latch ends off. *)
Theorem toggle_twice_restores id w :
  wf w ->
  exists w1 w2,
    toggleDone id w = (Ret tt, w1) /\
    toggleDone id w1 = (Ret tt, w2) /\
    items (doc w2) = items (doc w) /\
    (ensureString (Some id) 120 <> [] ->
     ensureString (Some id) 120 ∈ ids (doc w) ->
     items (doc w1) <> items (doc w) /\ completedOnce (doc w2) = false).
Proof.
  intros W.
  destruct (decide (ensureString (Some id) 120 = [])) as [E|Hc].
  { exists w, w. destruct (blank_id_ignored id w E) as [T _].
    split; [exact T|]. split; [exact T|]. split; [reflexivity|].
    intros N. contradiction. }
  pose proof (toggleDone_run id w W Hc) as R1. revert R1.
  set (w1 := logged _ _). intros R1.
  assert (W1 : wf w1) by now apply logged_wf, logged_wf, data_saved_wf.
  exists w1. eexists. split; [exact R1|].
  split; [exact (toggleDone_run id w1 W1 Hc)|].
  change (doc (logged _ (logged _ (data_saved ?d _ _)))) with d.
  change (doc w1) with (toggled id (doc w)).
  split; [apply toggled_twice|].
  intros _ H. destruct (toggled_flips id (doc w) H) as (l1 & it & l2 & E & I & T).
  split.
  - rewrite T, E. intros Q. apply app_inv_head in Q.
    injection Q as Q. destruct it as [i c n e []]; discriminate.
  - destruct (toggled_flips id (toggled id (doc w))) as (? & ? & ? & _ & _ & _).
    { now rewrite (proj1 (toggled_keeps id (doc w))). }
    unfold toggled at 1.
    destruct (toggle_first_in (ensureString (Some id) 120)
                (items (toggled id (doc w)))) as (? & ? & ? & _ & _ & _ & ->).
    { fold (ids (toggled id (doc w))).
      now rewrite (proj1 (toggled_keeps id (doc w))). }
    reflexivity.
Qed.

Lemma toggle_twice_restores_witness :
  exists w1 w2,
    toggleDone (u "ii") sample_world = (Ret tt, w1) /\
    toggleDone (u "ii") w1 = (Ret tt, w2) /\
    items (doc w2) = items (doc sample_world) /\
    (ensureString (Some (u "ii")) 120 <> [] ->
     ensureString (Some (u "ii")) 120 ∈ ids (doc sample_world) ->
     items (doc w1) <> items (doc sample_world) /\
     completedOnce (doc w2) = false).
Proof.
  apply (toggle_twice_restores (u "ii") sample_world). by_computation.
Defined.

(** X9.  Toggling an id that an item carries keeps the number of items
    and moves the number of done items by exactly one, up when the first
    item with that id was pending, down when it was done. *)
Theorem toggle_moves_progress_by_one id w :
  wf w -> ensureString (Some id) 120 <> [] ->
  ensureString (Some id) 120 ∈ ids (doc w) ->
  exists w' it,
    toggleDone id w = (Ret tt, w') /\
    it ∈ items (doc w) /\ i_id it = ensureString (Some id) 120 /\
    total (renderProgress (w_state w')) = total (renderProgress (w_state w)) /\
    if i_done it
    then S (done (renderProgress (w_state w'))) = done (renderProgress (w_state w))
    else done (renderProgress (w_state w')) = S (done (renderProgress (w_state w))).
Proof.
  intros W Hc H. rewrite (toggleDone_run id w W Hc).
  destruct (toggled_flips id (doc w) H) as (l1 & it & l2 & E & I & T).
  eexists. exists it. split; [reflexivity|].
  split. { rewrite E. apply elem_of_app. right. apply list_elem_of_here. }
  split; [exact I|].
  unfold renderProgress. cbn [total done].
  change (val (data (w_state (logged _ (logged _ (data_saved ?d _ _)))))) with d.
  fold (doc w). rewrite T, E.
  rewrite !filter_app, !length_app, !filter_cons. cbn [length].
  split; [reflexivity|].
  destruct it as [i c n e []]; cbn.
  - rewrite decide_False by discriminate. rewrite decide_True by reflexivity.
    cbn [length]. lia.
  - rewrite decide_True by reflexivity. rewrite decide_False by discriminate.
    cbn [length]. lia.
Qed.

Lemma toggle_moves_progress_by_one_witness :
  exists w' it,
    toggleDone (u "ii") sample_world = (Ret tt, w') /\
    it ∈ items (doc sample_world) /\
    i_id it = ensureString (Some (u "ii")) 120 /\
    total (renderProgress (w_state w'))
    = total (renderProgress (w_state sample_world)) /\
    if i_done it
    then S (done (renderProgress (w_state w')))
         = done (renderProgress (w_state sample_world))
    else done (renderProgress (w_state w'))
         = S (done (renderProgress (w_state sample_world))).
Proof.
  apply (toggle_moves_progress_by_one (u "ii") sample_world); by_computation.
Defined.

(** X10.  [wipeAll] always returns.  Afterwards the settings are the
    built-in defaults (motion and sound on, streak 0), the open tab is
    "all", the document is a fresh "salida" preset with newly drawn ids,
    and the trace ends with both save requests, the toast and the pulse. *)
Theorem wipeAll_resets uid w :
  wf w ->
  exists w',
    wipeAll uid w = (Ret tt, w') /\
    prefs w' = mkSettings (u "salida") true true 0 /\
    activeCat (w_state w') = u "all" /\
    mode (doc w') = u "salida" /\
    cats (doc w') = p_cats preset_salida /\
    Forall2 from_tpl (p_items preset_salida) (items (doc w')) /\
    completedOnce (doc w') = false /\
    ids (doc w') = uid <$> seq (w_uids w) 9 /\
    w_uids w' = (w_uids w + 9)%nat /\
    w_trace w'
    = w_trace w ++ notices (w_state w) (w_state w') (w_listeners w)
      ++ [SaveSettingsDebounced (prefs w'); SaveDataDebounced (doc w');
          Toasted TWiped; Haptic 14].
Proof.
  intros W. destruct (wipeAll_run uid w W) as (d & n & N & R).
  rewrite R. eexists. split; [reflexivity|].
  apply newPreset_Ret in N as (p & P & _ & Md & C & L & F & I & ->).
  injection P as <-.
  split; [reflexivity|]. split; [reflexivity|].
  change (doc (logged _ (logged _ (logged _ (logged _
            (committed (wipe_patch ?d _) _ _ _)))))) with d.
  split; [exact Md|]. split; [exact C|]. split; [exact F|].
  split; [exact L|]. split; [exact I|]. split; [reflexivity|].
  cbn [w_trace logged committed]. rewrite <- !app_assoc. reflexivity.
Qed.

Lemma wipeAll_resets_witness :
  exists w',
    wipeAll uid0 sample_world = (Ret tt, w') /\
    prefs w' = mkSettings (u "salida") true true 0 /\
    activeCat (w_state w') = u "all" /\
    mode (doc w') = u "salida" /\
    cats (doc w') = p_cats preset_salida /\
    Forall2 from_tpl (p_items preset_salida) (items (doc w')) /\
    completedOnce (doc w') = false /\
    ids (doc w') = uid0 <$> seq (w_uids sample_world) 9 /\
    w_uids w' = (w_uids sample_world + 9)%nat /\
    w_trace w'
    = w_trace sample_world
      ++ notices (w_state sample_world) (w_state w') (w_listeners sample_world)
      ++ [SaveSettingsDebounced (prefs w'); SaveDataDebounced (doc w');
          Toasted TWiped; Haptic 14].
Proof.
  apply (wipeAll_resets uid0 sample_world). by_computation.
Defined.

Lemma assoc_Some_key {A} k (l : list (jstr * A)) a :
  assoc k l = Some a -> k ∈ fst <$> l.
Proof.
  induction l as [|[k' a'] r IH]; [discriminate|]. simpl.
  destruct (decide (k = k')) as [->|N]; intros H.
  - apply list_elem_of_here.
  - apply list_elem_of_further. now apply IH.
Qed.

Lemma proto_key_throws uid m n :
  m ∈ object_prototype_keys -> newPreset uid m n = (Throw, n).
Proof.
  intros H. unfold newPreset, presetFor.
  destruct (assoc m catalog) as [p|] eqn:A.
  - exfalso. apply assoc_Some_key in A.
    assert (D : Forall (fun k => k ∉ fst <$> catalog) object_prototype_keys)
      by by_computation.
    rewrite Forall_forall in D. exact (D m H A).
  - rewrite bool_decide_eq_true_2 by exact H. reflexivity.
Qed.

(** X11.  [changeMode] is not atomic.  When the cleaned mode is the name
    of a property inherited from [Object.prototype] it throws after the
    settings were committed: [tripMode] is the new name and its save is
    requested, while the document, the data object and the open tab are
    the old ones, and no toast is shown. *)
Theorem changeMode_half_done uid mode w :
  wf w -> clean_mode mode ∈ object_prototype_keys ->
  exists w',
    changeMode uid mode w = (Throw, w') /\
    tripMode (prefs w') = clean_mode mode /\
    data (w_state w') = data (w_state w) /\
    activeCat (w_state w') = activeCat (w_state w) /\
    w_uids w' = w_uids w /\
    w_trace w'
    = w_trace w ++ notices (w_state w) (w_state w') (w_listeners w)
      ++ [SaveSettingsDebounced (prefs w')].
Proof.
  intros W H.
  rewrite (changeMode_throws uid mode w (w_uids w) W
             (proto_key_throws uid _ _ H)).
  eexists. split; [reflexivity|].
  split; [reflexivity|]. split; [reflexivity|]. split; [reflexivity|].
  split; [reflexivity|].
  cbn [w_trace settings_saved logged committed]. now rewrite <- app_assoc.
Qed.

Lemma changeMode_half_done_witness :
  exists w',
    changeMode uid0 (Some (u " constructor ")) sample_world = (Throw, w') /\
    tripMode (prefs w') = clean_mode (Some (u " constructor ")) /\
    data (w_state w') = data (w_state sample_world) /\
    activeCat (w_state w') = activeCat (w_state sample_world) /\
    w_uids w' = w_uids sample_world /\
    w_trace w'
    = w_trace sample_world
      ++ notices (w_state sample_world) (w_state w') (w_listeners sample_world)
      ++ [SaveSettingsDebounced (prefs w')].
Proof.
  apply (changeMode_half_done uid0 (Some (u " constructor ")) sample_world);
    by_computation.
Defined.

(** X12.  A mode outside the catalog that is no inherited property name
    is kept as the mode name in the settings and in the document, while
    the categories and the items are those of the "salida" preset; a blank
    or absent mode is treated as "salida". *)
Theorem changeMode_unknown_mode uid md w :
  wf w ->
  (assoc (clean_mode md) catalog = None ->
   clean_mode md ∉ object_prototype_keys ->
   exists w',
     changeMode uid md w = (Ret tt, w') /\
     tripMode (prefs w') = clean_mode md /\
     mode (doc w') = clean_mode md /\
     cats (doc w') = p_cats preset_salida /\
     Forall2 from_tpl (p_items preset_salida) (items (doc w'))) /\
  (trim (default [] md) = [] ->
   changeMode uid md w = changeMode uid (Some (u "salida")) w).
Proof.
  intros W. split.
  - intros A N.
    assert (P : presetFor (clean_mode md) = IsPreset preset_salida).
    { unfold presetFor. rewrite A. now rewrite bool_decide_eq_false_2. }
    destruct (newPreset_returns uid _ _ (w_uids w) P) as [d R].
    rewrite (changeMode_returns uid md w d _ W R).
    eexists. split; [reflexivity|]. split; [reflexivity|].
    apply newPreset_Ret in R as (p & P' & _ & Md & C & _ & F & _).
    rewrite P in P'. injection P' as <-.
    change (doc (logged _ (logged _ (logged _
              (committed (preset_patch ?d _) _ _ _))))) with d.
    split; [exact Md|]. split; [exact C|exact F].
  - intros E. unfold changeMode.
    assert (Q : ensureString md 24 = []).
    { apply ensureString_nil; [lia|exact E]. }
    rewrite Q. reflexivity.
Qed.

Lemma changeMode_unknown_mode_witness :
  (exists w',
     changeMode uid0 (Some (u "luna")) sample_world = (Ret tt, w') /\
     tripMode (prefs w') = clean_mode (Some (u "luna")) /\
     mode (doc w') = clean_mode (Some (u "luna")) /\
     cats (doc w') = p_cats preset_salida /\
     Forall2 from_tpl (p_items preset_salida) (items (doc w'))) /\
  changeMode uid0 (Some (u "  ")) sample_world
  = changeMode uid0 (Some (u "salida")) sample_world.
Proof.
  split.
  - apply (changeMode_unknown_mode uid0 (Some (u "luna")) sample_world);
      [by_computation|reflexivity|by_computation].
  - apply (changeMode_unknown_mode uid0 (Some (u "  ")) sample_world);
      [by_computation|reflexivity].
Defined.

Lemma filteredItems_all st :
  activeCat st = u "all" -> filteredItems st = items (val (data st)).
Proof. intros E. unfold filteredItems. now rewrite E. Qed.

(** X13.  After [wipeAll], and after a [changeMode] that returns, the
    list shows every item of the new document: both reset the open tab
    to "all". *)
Theorem fresh_list_fully_shown uid w :
  wf w ->
  (exists w', wipeAll uid w = (Ret tt, w') /\
              filteredItems (w_state w') = items (doc w')) /\
  (forall mode,
     clean_mode mode ∉ object_prototype_keys ->
     exists w', changeMode uid mode w = (Ret tt, w') /\
                filteredItems (w_state w') = items (doc w')).
Proof.
  intros W. split.
  - destruct (wipeAll_run uid w W) as (d & n & _ & R).
    rewrite R. eexists. split; [reflexivity|].
    now apply filteredItems_all.
  - intros mode N.
    destruct (presetFor_plain _ N) as [p P].
    destruct (newPreset_returns uid _ _ (w_uids w) P) as [d R].
    rewrite (changeMode_returns uid mode w d _ W R).
    eexists. split; [reflexivity|].
    now apply filteredItems_all.
Qed.

Lemma fresh_list_fully_shown_witness :
  (exists w', wipeAll uid0 sample_world = (Ret tt, w') /\
              filteredItems (w_state w') = items (doc w')) /\
  (exists w', changeMode uid0 (Some (u "playa")) sample_world = (Ret tt, w') /\
              filteredItems (w_state w') = items (doc w')).
Proof.
  destruct (fresh_list_fully_shown uid0 sample_world) as [P1 P2]; [by_computation|].
  split; [exact P1|]. apply (P2 (Some (u "playa"))). by_computation.
Defined.

(** X14.  A created item is put first in the document, yet the list
    shows it only when the open tab is "all" (or unset) or is the
    category the item was given; [createItem] leaves the open tab as it
    is. *)
Theorem new_item_shows_iff uid a w :
  wf w -> ensureString (a_name a) 60 <> [] ->
  exists it w',
    createItem uid a w = (Ret (mkResult true None), w') /\
    items (doc w') = it :: items (doc w) /\
    i_cat it = clean_cat a /\
    activeCat (w_state w') = activeCat (w_state w) /\
    (it ∈ filteredItems (w_state w') <->
     str_or (activeCat (w_state w)) (u "all") = u "all" \/
     activeCat (w_state w) = clean_cat a).
Proof.
  intros W Hc. rewrite (createItem_accepts uid a w W Hc).
  exists (new_item a (fst (drawn_id uid a w))). eexists.
  split; [reflexivity|]. split; [reflexivity|]. split; [reflexivity|].
  split; [reflexivity|].
  unfold filteredItems.
  change (activeCat (w_state (logged _ (logged _ (data_saved _ _ w)))))
    with (activeCat (w_state w)).
  change (items (val (data (w_state (logged _ (logged _
            (data_saved ?d _ w))))))) with (items d).
  cbn [items created with_latch with_items].
  destruct (decide (str_or (activeCat (w_state w)) (u "all") = u "all"))
    as [E|N].
  - split; [now left|]. intros _. apply list_elem_of_here.
  - rewrite list_elem_of_filter. split.
    + intros [Q _]. right. cbn [i_cat new_item] in Q.
      destruct (activeCat (w_state w)); [now destruct N|]. now symmetry.
    + intros [Q|Q]; [contradiction|]. split; [|apply list_elem_of_here].
      cbn [i_cat new_item]. rewrite Q.
      destruct (clean_cat a) eqn:C; [|reflexivity].
      rewrite Q in N. now destruct N.
Qed.

Lemma new_item_shows_iff_witness :
  exists it w',
    createItem uid0 (mkArgs (Some (u "Gafas")) None (Some (u "ropa")) None)
               sample_world = (Ret (mkResult true None), w') /\
    items (doc w') = it :: items (doc sample_world) /\
    i_cat it = clean_cat (mkArgs (Some (u "Gafas")) None (Some (u "ropa")) None) /\
    activeCat (w_state w') = activeCat (w_state sample_world) /\
    (it ∈ filteredItems (w_state w') <->
     str_or (activeCat (w_state sample_world)) (u "all") = u "all" \/
     activeCat (w_state sample_world)
     = clean_cat (mkArgs (Some (u "Gafas")) None (Some (u "ropa")) None)).
Proof.
  apply (new_item_shows_iff uid0
           (mkArgs (Some (u "Gafas")) None (Some (u "ropa")) None) sample_world);
    by_computation.
Defined.


(** * Escaping, grouping and slice subscriptions *)

Lemma esc_unit_cases c :
  (c = 38%N /\ esc_unit c = [38; 97; 109; 112; 59]%N) \/
  (c = 60%N /\ esc_unit c = [38; 108; 116; 59]%N) \/
  (c = 62%N /\ esc_unit c = [38; 103; 116; 59]%N) \/
  (c = 34%N /\ esc_unit c = [38; 113; 117; 111; 116; 59]%N) \/
  (c = 39%N /\ esc_unit c = [38; 35; 51; 57; 59]%N) \/
  (c <> 38%N /\ (c ∉ markup_units) /\ esc_unit c = [c]).
Proof.
  unfold esc_unit.
  destruct (decide (c = 38%N)) as [->|N1]; [left; now split|].
  destruct (decide (c = 60%N)) as [->|N2]; [right; left; now split|].
  destruct (decide (c = 62%N)) as [->|N3]; [do 2 right; left; now split|].
  destruct (decide (c = 34%N)) as [->|N4]; [do 3 right; left; now split|].
  destruct (decide (c = 39%N)) as [->|N5]; [do 4 right; left; now split|].
  do 5 right. split; [exact N1|]. split; [|reflexivity].
  unfold markup_units. rewrite !not_elem_of_cons.
  repeat split; try assumption. apply not_elem_of_nil.
Qed.

Lemma esc_cons c s : esc (Some (c :: s)) = esc_unit c ++ esc (Some s).
Proof. reflexivity. Qed.

(** X15.  The output of [esc] holds none of the code units that open or
    close a tag or an attribute value, and a string without any of the
    five replaced code units comes back unchanged. *)
Theorem esc_neutralises_markup s :
  Forall (fun c => c ∉ markup_units) (esc s) /\
  (Forall (fun c => c ∉ 38%N :: markup_units) (default [] s) ->
   esc s = default [] s).
Proof.
  unfold esc. generalize (default [] s) as l. intros l. split.
  - induction l as [|c r IH]; [constructor|].
    change (mjoin (esc_unit <$> c :: r))
      with (esc_unit c ++ mjoin (esc_unit <$> r)).
    apply Forall_app. split; [|exact IH].
    destruct (esc_unit_cases c)
      as [[_ ->]|[[_ ->]|[[_ ->]|[[_ ->]|[[_ ->]|(_ & N & ->)]]]]];
      try (apply (bool_decide_unpack _); vm_compute; exact I).
    now constructor.
  - induction 1 as [|c r H _ IH]; [reflexivity|].
    change (mjoin (esc_unit <$> c :: r))
      with (esc_unit c ++ mjoin (esc_unit <$> r)).
    rewrite IH.
    apply not_elem_of_cons in H as [N1 N].
    destruct (esc_unit_cases c)
      as [[-> _]|[[-> _]|[[-> _]|[[-> _]|[[-> _]|(_ & _ & ->)]]]]];
      try (exfalso; revert N; apply (bool_decide_unpack _); vm_compute; exact I);
      [congruence|reflexivity].
Qed.

Lemma esc_neutralises_markup_witness :
  Forall (fun c => c ∉ markup_units) (esc (Some (u "Llaves"))) /\
  esc (Some (u "Llaves")) = default [] (Some (u "Llaves")).
Proof.
  destruct (esc_neutralises_markup (Some (u "Llaves"))) as [P1 P2].
  split; [exact P1|]. apply P2. by_computation.
Defined.

(** X16.  [esc] is injective on strings: two different ids, names or
    emojis never give the same markup. *)
Theorem esc_injective s : forall t, esc (Some s) = esc (Some t) -> s = t.
Proof.
  induction s as [|a s IH]; intros [|b t] H.
  - reflexivity.
  - rewrite esc_cons in H. exfalso.
    destruct (esc_unit_cases b)
      as [[_ E]|[[_ E]|[[_ E]|[[_ E]|[[_ E]|(_ & _ & E)]]]]];
      rewrite E in H; discriminate.
  - rewrite esc_cons in H. exfalso.
    destruct (esc_unit_cases a)
      as [[_ E]|[[_ E]|[[_ E]|[[_ E]|[[_ E]|(_ & _ & E)]]]]];
      rewrite E in H; discriminate.
  - rewrite !esc_cons in H.
    destruct (esc_unit_cases a)
      as [[-> Ea]|[[-> Ea]|[[-> Ea]|[[-> Ea]|[[-> Ea]|(Na & _ & Ea)]]]]];
    destruct (esc_unit_cases b)
      as [[-> Eb]|[[-> Eb]|[[-> Eb]|[[-> Eb]|[[-> Eb]|(Nb & _ & Eb)]]]]];
    rewrite ?Ea, ?Eb in H; cbn [app] in H; simplify_eq;
    try congruence; f_equal; apply IH; assumption.
Qed.

Lemma esc_injective_witness :
  esc (Some (u "a<b")) = esc (Some (u "a<b")) /\ u "a<b" = u "a<b".
Proof.
  split; [reflexivity|].
  apply (esc_injective (u "a<b") (u "a<b")). reflexivity.
Defined.

(** ** The grouping of [shareList] *)

Lemma group_push_keys k it g :
  fst <$> group_push k it g
  = if decide (k ∈ fst <$> g) then fst <$> g else (fst <$> g) ++ [k].
Proof.
  induction g as [|[k' arr] r IH]; cbn [group_push].
  - rewrite decide_False by apply not_elem_of_nil. reflexivity.
  - cbn [fmap list_fmap fst]. destruct (decide (k' = k)) as [->|N].
    + rewrite decide_True by apply list_elem_of_here. reflexivity.
    + cbn [fmap list_fmap fst]. change (list_fmap _ _ fst) with (fmap (M:=list) fst).
      rewrite IH. destruct (decide (k ∈ fst <$> r)) as [I|I].
      * rewrite decide_True by now apply list_elem_of_further. reflexivity.
      * rewrite decide_False; [reflexivity|].
        intros Q. apply elem_of_cons in Q as [Q|Q]; [congruence|contradiction].
Qed.

Lemma group_entry_keeps l it e :
  fst e <> share_key it -> group_entry_ok l e -> group_entry_ok (l ++ [it]) e.
Proof.
  intros N [Ne Eq]. split; [exact Ne|].
  rewrite filter_app, filter_cons_False, filter_nil, app_nil_r by congruence.
  exact Eq.
Qed.

Lemma group_push_entries l it g :
  NoDup (fst <$> g) ->
  Forall (group_entry_ok l) g ->
  (share_key it ∉ fst <$> g ->
   filter (fun x => share_key x = share_key it) l = []) ->
  Forall (group_entry_ok (l ++ [it])) (group_push (share_key it) it g).
Proof.
  induction g as [|[k arr] r IH]; intros ND F Hn; cbn [group_push].
  - constructor; [|constructor]. split; [discriminate|]. cbn [fst snd].
    rewrite filter_app, Hn by apply not_elem_of_nil.
    now rewrite filter_cons_True.
  - cbn [fmap list_fmap fst] in ND, Hn.
    apply NoDup_cons in ND as [Nk ND].
    apply Forall_cons in F as [[Ne Eq] F]. cbn [fst snd] in Ne, Eq.
    destruct (decide (k = share_key it)) as [->|N].
    + constructor.
      * split; cbn [fst snd].
        { intros Q. apply app_eq_nil in Q as [_ Q]. discriminate. }
        rewrite filter_app, <- Eq. now rewrite filter_cons_True.
      * apply Forall_forall. intros e He.
        apply group_entry_keeps.
        { intros Q. apply Nk. rewrite <- Q. now apply list_elem_of_fmap_2. }
        rewrite Forall_forall in F. now apply F.
    + constructor.
      * apply (group_entry_keeps l it (k, arr) N). now split.
      * apply IH; [exact ND|exact F|].
        intros Q. apply Hn. apply not_elem_of_cons. split; [congruence|exact Q].
Qed.

Lemma filter_none {A} (P : A -> Prop) `{!forall x, Decision (P x)}
  (l : list A) : Forall (fun x => ~ P x) l -> filter P l = [].
Proof.
  induction 1 as [|x l Hx _ IH]; [reflexivity|].
  now rewrite filter_cons_False.
Qed.

Lemma group_push_ok l it g :
  group_ok l g -> group_ok (l ++ [it]) (group_push (share_key it) it g).
Proof.
  intros (ND & F & Cv). split; [|split].
  - rewrite group_push_keys. destruct (decide _) as [I|I]; [exact ND|].
    apply NoDup_app. split; [exact ND|]. split; [|apply NoDup_singleton].
    intros x Hx Q. apply list_elem_of_singleton in Q. congruence.
  - apply group_push_entries; [exact ND|exact F|].
    intros N. apply filter_none. apply Forall_forall. intros x Hx Q.
    rewrite Forall_forall in Cv. apply N. rewrite <- Q. now apply Cv.
  - rewrite group_push_keys. apply Forall_app. split.
    + eapply Forall_impl; [exact Cv|]. intros x Hx. cbn beta in Hx.
      destruct (decide _); [exact Hx|]. apply elem_of_app. now left.
    + constructor; [|constructor].
      destruct (decide _) as [I|I]; [exact I|].
      apply elem_of_app. right. apply list_elem_of_here.
Qed.

Lemma foldl_group_ok its : forall l g,
  group_ok l g ->
  group_ok (l ++ its)
           (foldl (fun g it => group_push (share_key it) it g) g its).
Proof.
  induction its as [|it r IH]; intros l g G; cbn [foldl].
  - now rewrite app_nil_r.
  - rewrite cons_middle, app_assoc. apply IH. now apply group_push_ok.
Qed.

(** X17.  The grouping that [shareList] builds is a partition of the
    items by the key [it.cat || 'otros']: no key comes twice, every entry
    holds, in list order, exactly the items with its key and at least
    one, and every item's key has an entry. *)
Theorem byCat_partitions its :
  NoDup (fst <$> byCat its) /\
  Forall (fun e => snd e <> [] /\
                   snd e = filter (fun it => share_key it = fst e) its)
         (byCat its) /\
  Forall (fun it => share_key it ∈ fst <$> byCat its) its.
Proof.
  apply (foldl_group_ok its [] []).
  split; [constructor|]. split; constructor.
Qed.

(** ** [select] *)

Section SelectFacts.

Context {A : Type}.
Variable selector : State -> A.
Variable equal : A -> A -> bool.

Lemma select_run_cons prev next r :
  select_run selector equal prev (next :: r)
  = if equal prev (selector next)
    then select_run selector equal prev r
    else ((selector next, prev) :: fst (select_run selector equal (selector next) r),
          snd (select_run selector equal (selector next) r)).
Proof.
  cbn [select_run]. unfold select_step.
  destruct (equal prev (selector next)).
  - now destruct (select_run selector equal prev r).
  - now destruct (select_run selector equal (selector next) r).
Qed.

(** X18.  The calls [select] makes to [onChange] form a chain: each call
    passes two slices the equality tells apart, the old slice of a call
    is the new slice of the call before it (the slice at subscription
    time for the first call), the slice remembered at the end is the
    last one reported, and the reported slices are, in order, slices of
    the states notified. *)
Theorem select_chain nexts : forall prev,
  let calls := fst (select_run selector equal prev nexts) in
  let final := snd (select_run selector equal prev nexts) in
  Forall (fun c => equal (snd c) (fst c) = false) calls /\
  snd <$> calls = take (length calls) (prev :: (fst <$> calls)) /\
  final = default prev (last (fst <$> calls)) /\
  fst <$> calls `sublist_of` selector <$> nexts.
Proof.
  induction nexts as [|next r IH]; intros prev.
  - cbn. repeat split; constructor.
  - cbv zeta. rewrite select_run_cons.
    destruct (equal prev (selector next)) eqn:E.
    + destruct (IH prev) as (F & O & L & S).
      split; [exact F|]. split; [exact O|]. split; [exact L|].
      cbn [fmap list_fmap]. now apply sublist_cons.
    + destruct (IH (selector next)) as (F & O & L & S).
      cbn [fst snd fmap list_fmap length take].
      split; [now constructor|].
      split; [now rewrite O at 1|].
      split.
      * rewrite L, last_cons.
        now destruct (last _).
      * now apply sublist_skip.
Qed.

End SelectFacts.

(** * Settings and persistence *)

Lemma Number_None StringToNumber v :
  Number_ StringToNumber v = None <-> ToString v = None.
Proof.
  destruct v as [| |[]|z|s|l|fs]; unfold Number_;
    try (cbn; split; discriminate); apply fmap_None.
Qed.

Lemma clampInt_range StringToNumber {S} v min max (s s' : S) z :
  min <= max ->
  clampInt StringToNumber v min max s = (Ret z, s') ->
  min <= z <= max /\ s' = s.
Proof.
  intros Hm. unfold clampInt.
  destruct (Number_ StringToNumber v) as [[| |q]|];
    unfold ret, throw; intros [= <- <-]; split; (lia || reflexivity).
Qed.

(** X19.  [clampInt]: a result lies between the bounds; an integer
    within the bounds is returned as it is; what [Number] turns into NaN
    or an infinity gives the lower bound (never the upper one); and the
    call throws exactly when the value cannot be converted to a
    primitive. *)
Theorem clampInt_clamps StringToNumber {S} v min max (s : S) :
  min <= max ->
  (forall z s', clampInt StringToNumber v min max s = (Ret z, s') ->
                min <= z <= max /\ s' = s) /\
  (forall n z, v = JNum n -> num_value n = Finite (inject_Z z) ->
               min <= z <= max ->
               clampInt StringToNumber v min max s = (Ret z, s)) /\
  (forall q, Number_ StringToNumber v = Some q ->
             (forall r, q <> Finite r) ->
             clampInt StringToNumber v min max s = (Ret min, s)) /\
  (clampInt StringToNumber v min max s = (Throw, s) <-> ToString v = None).
Proof.
  intros Hm. unfold clampInt. split; [|split; [|split]].
  - intros z s'. now apply clampInt_range.
  - intros n z -> Hn Hz. cbn [Number_]. rewrite Hn, Qfloor_Z. unfold ret.
    f_equal. f_equal. lia.
  - intros q -> Hq. destruct q as [| |r]; [reflexivity|reflexivity|].
    now destruct (Hq r).
  - rewrite <- (Number_None StringToNumber).
    destruct (Number_ StringToNumber v) as [[| |q]|]; unfold ret, throw;
      split; congruence.
Qed.

Lemma clampInt_clamps_witness :
  (forall z s', clampInt (fun _ => NaN) (JNum (num_of_int 1000007)) 0 999999 tt
                = (Ret z, s') ->
                0 <= z <= 999999 /\ s' = tt) /\
  (forall n z, JNum (num_of_int 1000007) = JNum n ->
               num_value n = Finite (inject_Z z) -> 0 <= z <= 999999 ->
               clampInt (fun _ => NaN) (JNum (num_of_int 1000007)) 0 999999 tt
               = (Ret z, tt)) /\
  (forall q, Number_ (fun _ => NaN) (JNum (num_of_int 1000007)) = Some q ->
             (forall r, q <> Finite r) ->
             clampInt (fun _ => NaN) (JNum (num_of_int 1000007)) 0 999999 tt
             = (Ret 0, tt)) /\
  (clampInt (fun _ => NaN) (JNum (num_of_int 1000007)) 0 999999 tt = (Throw, tt)
   <-> ToString (JNum (num_of_int 1000007)) = None).
Proof.
  apply (clampInt_clamps (fun _ => NaN) (JNum (num_of_int 1000007)) 0 999999 tt).
  lia.
Defined.

Lemma String_str_or {S} x d (n : S) :
  String_ (js_or (JStr x) (JStr d)) n = (Ret (str_or x d), n).
Proof. now destruct x. Qed.

Lemma sanitize_pure StringToNumber {S} v (s s' : S) r :
  sanitizeSettings StringToNumber v s = (r, s') -> s' = s.
Proof.
  unfold sanitizeSettings, bind, String_, clampInt, ret, throw.
  repeat case_match; intros; simplify_eq; reflexivity.
Qed.

Lemma sanitize_range StringToNumber {S} v (s s' : S) t :
  sanitizeSettings StringToNumber v s = (Ret t, s') ->
  0 <= streak t <= 999999.
Proof.
  unfold sanitizeSettings. intros H.
  bind_inv H as tm s1 Htm. bind_inv H as st s2 Hst. inv_ret H.
  cbn [streak].
  now apply clampInt_range in Hst.
Qed.

(** Sanitizing an object that starts with the four fields of settings
    held in memory. *)
Lemma sanitize_fields StringToNumber {S} t rest (s : S) :
  sanitizeSettings StringToNumber
    (JObj ([ (u "tripMode", JStr (tripMode t)); (u "motion", JBool (motion t));
             (u "sound", JBool (sound t));
             (u "streak", JNum (num_of_int (streak t))) ]
           ++ rest)) s
  = (Ret (sanitized t), s).
Proof.
  unfold sanitizeSettings. cbn [truthy].
  set (out := spread_defaults _).
  change (get out (u "tripMode")) with (JStr (tripMode t)).
  change (get out (u "streak")) with (JNum (num_of_int (streak t))).
  change (get out (u "motion")) with (JBool (motion t)).
  change (get out (u "sound")) with (JBool (sound t)).
  rewrite (bind_run _ _ _ _ _ (String_str_or _ _ s)).
  unfold clampInt. cbn [Number_ num_of_int num_value].
  rewrite Qfloor_Z. reflexivity.
Qed.

Lemma sanitize_settings_js StringToNumber {S} t (s : S) :
  sanitizeSettings StringToNumber (settings_js t) s = (Ret (sanitized t), s).
Proof. exact (sanitize_fields StringToNumber t [] s). Qed.

Lemma sanitize_spread StringToNumber {S} t (s : S) :
  sanitizeSettings StringToNumber (spread_defaults (settings_js t)) s
  = (Ret (sanitized t), s).
Proof.
  exact (sanitize_fields StringToNumber t
           [ (u "tripMode", JStr (tripMode DEFAULT_SETTINGS));
             (u "motion", JBool (motion DEFAULT_SETTINGS));
             (u "sound", JBool (sound DEFAULT_SETTINGS));
             (u "streak", JNum (num_of_int (streak DEFAULT_SETTINGS))) ] s).
Qed.

Lemma sanitized_idem t : sanitized (sanitized t) = sanitized t.
Proof.
  unfold sanitized. cbn [tripMode motion sound streak]. f_equal.
  - now destruct (tripMode t).
  - lia.
Qed.

Lemma sanitize_defaults StringToNumber {S} v (s : S) :
  own_props v = [] ->
  sanitizeSettings StringToNumber (spread_defaults v) s
  = (Ret DEFAULT_SETTINGS, s).
Proof.
  intros N. unfold spread_defaults. rewrite N.
  exact (sanitize_settings_js StringToNumber DEFAULT_SETTINGS s).
Qed.

Lemma loadSettings_returns StringToNumber {S} stored (s : S) :
  exists t, loadSettings StringToNumber stored s = (Ret t, s).
Proof.
  assert (D : sanitizeSettings StringToNumber (spread_defaults JUndefined) s
              = (Ret DEFAULT_SETTINGS, s)).
  { now apply sanitize_defaults. }
  assert (C : forall v, exists t,
             catch (sanitizeSettings StringToNumber v)
                   (sanitizeSettings StringToNumber (spread_defaults JUndefined)) s
             = (Ret t, s)).
  { intros v. unfold catch.
    destruct (sanitizeSettings StringToNumber v s) as [[t|] s1] eqn:E;
      pose proof (sanitize_pure _ _ _ _ _ E) as ->.
    - now exists t.
    - rewrite D. now exists DEFAULT_SETTINGS. }
  destruct stored as [| | |v]; unfold loadSettings.
  - unfold catch, throw at 1. rewrite D. now exists DEFAULT_SETTINGS.
  - apply C.
  - unfold catch, throw at 1. rewrite D. now exists DEFAULT_SETTINGS.
  - apply C.
Qed.

(** X20.  [loadSettings] never throws and leaves a streak between 0 and
    999999.  It gives the default settings when nothing is stored, when
    reading or parsing fails, and when the stored value has no property
    to spread (null, a boolean, a number, an empty string, an empty array
    or an empty object). *)
Theorem loadSettings_total StringToNumber {S} stored (s : S) :
  exists t,
    loadSettings StringToNumber stored s = (Ret t, s) /\
    0 <= streak t <= 999999 /\
    (not_parsed stored -> t = DEFAULT_SETTINGS) /\
    (forall v, stored = Parsed v -> own_props v = [] ->
               t = DEFAULT_SETTINGS).
Proof.
  assert (D : sanitizeSettings StringToNumber (spread_defaults JUndefined) s
              = (Ret DEFAULT_SETTINGS, s)).
  { now apply sanitize_defaults. }
  assert (D0 : sanitizeSettings StringToNumber (spread_defaults (JObj [])) s
               = (Ret DEFAULT_SETTINGS, s)).
  { exact (sanitize_fields StringToNumber DEFAULT_SETTINGS [] s). }
  assert (R : 0 <= streak DEFAULT_SETTINGS <= 999999) by (cbn; lia).
  destruct stored as [| | |v]; unfold loadSettings, catch.
  - unfold throw at 1. rewrite D. exists DEFAULT_SETTINGS.
    split; [reflexivity|]. split; [exact R|]. split; [reflexivity|discriminate].
  - rewrite D0. exists DEFAULT_SETTINGS.
    split; [reflexivity|]. split; [exact R|]. split; [reflexivity|discriminate].
  - unfold throw at 1. rewrite D. exists DEFAULT_SETTINGS.
    split; [reflexivity|]. split; [exact R|]. split; [reflexivity|discriminate].
  - destruct (sanitizeSettings StringToNumber (spread_defaults v) s)
      as [[t|] s1] eqn:E.
    + pose proof (sanitize_pure _ _ _ _ _ E) as ->.
      exists t. split; [reflexivity|].
      split; [exact (sanitize_range _ _ _ _ _ E)|].
      split; [intros []|].
      intros v' [= <-] N. rewrite (sanitize_defaults _ _ _ N) in E. congruence.
    + pose proof (sanitize_pure _ _ _ _ _ E) as ->. rewrite D.
      exists DEFAULT_SETTINGS.
      split; [reflexivity|]. split; [exact R|]. split; [reflexivity|].
      intros v' [= <-] N. rewrite (sanitize_defaults _ _ _ N) in E. congruence.
Qed.

Lemma loadSettings_total_witness :
  (exists t,
     loadSettings (fun _ => NaN) Malformed tt = (Ret t, tt) /\
     0 <= streak t <= 999999 /\
     t = DEFAULT_SETTINGS) /\
  (exists t,
     loadSettings (fun _ => NaN) (Parsed (JArr [])) tt = (Ret t, tt) /\
     t = DEFAULT_SETTINGS) /\
  (exists t,
     loadSettings (fun _ => NaN)
                  (Parsed (JArr [JStr (u "a"); JNum (num_of_int 7)])) tt
     = (Ret t, tt) /\
     0 <= streak t <= 999999).
Proof.
  split; [|split].
  - destruct (loadSettings_total (fun _ => NaN) Malformed tt)
      as (t & L & R & D & _).
    exists t. split; [exact L|]. split; [exact R|]. apply D. exact I.
  - destruct (loadSettings_total (fun _ => NaN) (Parsed (JArr [])) tt)
      as (t & L & _ & _ & D).
    exists t. split; [exact L|]. now apply (D (JArr [])).
  - destruct (loadSettings_total (fun _ => NaN)
                (Parsed (JArr [JStr (u "a"); JNum (num_of_int 7)])) tt)
      as (t & L & R & _).
    exists t. now split.
Defined.

(** X21.  Settings round trip: after [saveSettings] has written,
    [loadSettings] gives the saved settings with an empty [tripMode]
    replaced by the default and the streak brought into 0..999999, hence
    the saved settings themselves when they need neither; the data entry
    is untouched, and a write the storage refuses changes nothing. *)
Theorem settings_round_trip StringToNumber {S} t sto (s : S) :
  loadSettings StringToNumber
    (settings_cell (Persist.saveSettings StringToNumber true t sto)) s
  = (Ret (sanitized t), s) /\
  data_cell (Persist.saveSettings StringToNumber true t sto) = data_cell sto /\
  Persist.saveSettings StringToNumber false t sto = sto /\
  (tripMode t <> [] -> 0 <= streak t <= 999999 -> sanitized t = t).
Proof.
  unfold Persist.saveSettings.
  rewrite (sanitize_settings_js StringToNumber t tt).
  cbn [settings_cell data_cell].
  split; [|split; [reflexivity|split; [reflexivity|]]].
  - unfold loadSettings, catch.
    rewrite (sanitize_spread StringToNumber (sanitized t) s).
    now rewrite sanitized_idem.
  - intros N R. destruct t as [tm mo so st]. unfold sanitized. cbn in *.
    f_equal; [now destruct tm|lia].
Qed.

Lemma settings_round_trip_witness :
  loadSettings (fun _ => NaN)
    (settings_cell (Persist.saveSettings (fun _ => NaN) true
                      (mkSettings (u "playa") false true 7)
                      (mkStorage NoEntry NoEntry))) tt
  = (Ret (mkSettings (u "playa") false true 7), tt).
Proof.
  destruct (settings_round_trip (fun _ => NaN)
              (mkSettings (u "playa") false true 7)
              (mkStorage NoEntry NoEntry) tt) as (R & _ & _ & E).
  rewrite <- E at 2; [exact R|discriminate|cbn; lia].
Defined.

(** * Repair, saving and loading of documents *)

Lemma mapM_Forall2 {S A B} (f : A -> ST S B) (R : A -> B -> Prop) :
  (forall x s y s', f x s = (Ret y, s') -> R x y) ->
  forall l s l' s', mapM f l s = (Ret l', s') -> Forall2 R l l'.
Proof.
  intros Hf. induction l as [|x r IH]; intros s l' s' H; cbn [mapM] in H.
  - inv_ret H. constructor.
  - bind_inv H as y s1 Hy. bind_inv H as ys s2 Hys. inv_ret H.
    constructor; [eapply Hf, Hy|eapply IH, Hys].
Qed.

Lemma mapM_total {S A B} (f : A -> ST S B) (l : list A) :
  Forall (fun x => forall s, exists y s', f x s = (Ret y, s')) l ->
  forall s, exists l' s', mapM f l s = (Ret l', s').
Proof.
  induction 1 as [|x r Hx _ IH]; intros s; cbn [mapM].
  - now exists [], s.
  - destruct (Hx s) as (y & s1 & E). destruct (IH s1) as (ys & s2 & E').
    exists (y :: ys), s2.
    now rewrite (bind_run _ _ _ _ _ E), (bind_run _ _ _ _ _ E').
Qed.

Section RepairMore.

Variable uid : nat -> jstr.

(** What [repairItem] keeps of a stored item, before the re-pointing. *)
Lemma repairItem_fields it n it' n' :
  repairItem uid it n = (Ret it', n') ->
  i_done it' = truthy (get it (u "done")) /\
  (exists nm, ToString (js_or (get it (u "name")) (JStr (u "Sin nombre")))
              = Some nm /\ i_name it' = slice0 80 nm) /\
  ToString (js_or (get it (u "cat")) (JStr (u "otros"))) = Some (i_cat it').
Proof.
  unfold repairItem. intros H.
  bind_inv H as id n1 Hid. clear Hid.
  bind_inv H as c n2 Hc. apply String_Ret in Hc as [Hc ->].
  bind_inv H as nm n3 Hnm. apply String_Ret in Hnm as [Hnm ->].
  bind_inv H as e n4 He. inv_ret H.
  cbn [i_done i_name i_cat]. split; [reflexivity|]. split; [|exact Hc].
  now exists nm.
Qed.

(** The items of a repaired object, one for each stored item. *)
Lemma repaired_items v m n d n' lc li :
  is_object v = true ->
  get v (u "cats") = JArr lc -> lc <> [] ->
  get v (u "items") = JArr li ->
  repairData uid v m n = (Ret d, n') ->
  Forall2 (repaired_from (cat_ids d)) li (items d).
Proof.
  intros O Gc Nc Gi. unfold repairData, is_object in *.
  apply andb_true_iff in O as [-> ->]. cbn [negb orb].
  rewrite Gc, Gi. unfold map_if_array. intros H.
  bind_inv H as md n0 Hmd. apply String_Ret in Hmd as [Hmd ->].
  bind_inv H as ocats n1 Hc. bind_inv Hc as cs n2 Hcs. inv_ret Hc.
  bind_inv H as oitems n3 Hi. bind_inv Hi as its n4 Hits. inv_ret Hi.
  destruct cs as [|c0 cs].
  { apply (mapM_Forall2 repairCat (fun _ _ => True) (fun _ _ _ _ _ => I))
      in Hcs. apply Forall2_length in Hcs. destruct lc; [congruence|discriminate]. }
  bind_inv H as its' n5 Hd. inv_ret H.
  unfold cat_ids. cbn [cats items].
  apply dedupe_Ret in Hd as [_ F].
  pose proof (mapM_Forall2 (repairItem uid) _
                (fun x s y s' E => repairItem_fields x s y s' E) _ _ _ _ Hits)
    as F0.
  set (cids := c_id <$> c0 :: cs) in *.
  assert (Hd : hd [] cids = c_id c0) by reflexivity.
  clearbody cids. clear -F F0 Hd.
  revert its' F. induction F0 as [|raw it li its R _ IH]; intros r F.
  - inversion F. constructor.
  - cbn [fmap list_fmap] in F. inversion F as [|? b ? r' Hb F']; subst.
    constructor; [|apply IH; exact F'].
    destruct R as (Rd & (nm & Hn & Rn) & Rc).
    rewrite Hb. unfold repaired_from, with_id. cbn [i_done i_name i_cat].
    unfold repoint.
    destruct (bool_decide (i_cat it ∈ (list_to_set cids : gset jstr))) eqn:E.
    + apply bool_decide_eq_true in E. apply elem_of_list_to_set in E.
      split; [exact Rd|]. split; [now exists nm|].
      exists (i_cat it). split; [exact Rc|]. now rewrite decide_True.
    + apply bool_decide_eq_false in E. rewrite elem_of_list_to_set in E.
      cbn [with_cat i_done i_name i_cat].
      split; [exact Rd|]. split; [now exists nm|].
      exists (i_cat it). split; [exact Rc|]. rewrite decide_False by exact E.
      rewrite Hd.
      destruct (bool_decide (u "otros" ∈ (list_to_set cids : gset jstr))) eqn:E'.
      * apply bool_decide_eq_true in E'. apply elem_of_list_to_set in E'.
        now rewrite decide_True.
      * apply bool_decide_eq_false in E'. rewrite elem_of_list_to_set in E'.
        now rewrite decide_False.
Qed.

(** X22.  Repair loses no item.  For a stored object whose [cats] is a
    non-empty array and whose [items] is an array, the repaired document
    has one item for each stored one, in the same order, with the same
    truthiness of [done], the first 80 code units of the name, and the
    stored category when a repaired category has that id, else the
    fallback category; it has one category for each stored one, and
    keeps the latch and the resolved mode. *)
Theorem repair_keeps_items v m n d n' lc li :
  is_object v = true ->
  get v (u "cats") = JArr lc -> lc <> [] ->
  get v (u "items") = JArr li ->
  repairData uid v m n = (Ret d, n') ->
  Forall2 (repaired_from (cat_ids d)) li (items d) /\
  length (cats d) = length lc /\
  completedOnce d = truthy (get v (u "__completedOnce")) /\
  resolved_mode v m = Some (mode d).
Proof.
  intros O Gc Nc Gi H.
  split; [exact (repaired_items v m n d n' lc li O Gc Nc Gi H)|].
  revert H. unfold repairData, is_object in *.
  apply andb_true_iff in O as [-> ->]. cbn [negb orb].
  rewrite Gc, Gi. unfold map_if_array. intros H.
  bind_inv H as md n0 Hmd. apply String_Ret in Hmd as [Hmd ->].
  bind_inv H as ocats n1 Hc. bind_inv Hc as cs n2 Hcs. inv_ret Hc.
  bind_inv H as oitems n3 Hi. bind_inv Hi as its n4 Hits. inv_ret Hi.
  assert (Lc : length cs = length lc).
  { symmetry. eapply Forall2_length.
    exact (mapM_Forall2 repairCat (fun _ _ => True)
             (fun _ _ _ _ _ => I) _ _ _ _ Hcs). }
  destruct cs as [|c0 cs]; [destruct lc; [congruence|discriminate]|].
  bind_inv H as its' n5 Hd. inv_ret H.
  cbn [cats completedOnce mode].
  split; [exact Lc|]. split; [reflexivity|exact Hmd].
Qed.

Lemma repair_emoji_js o n :
  exists e, repair_emoji (JObj [(u "emoji", opt_js o)]) n = (Ret e, n).
Proof.
  unfold repair_emoji.
  change (get (JObj [(u "emoji", opt_js o)]) (u "emoji")) with (opt_js o).
  destruct o as [[|a l]|]; eexists; reflexivity.
Qed.

Lemma repairCat_js c n : exists c', repairCat (cat_js c) n = (Ret c', n).
Proof.
  unfold repairCat. rewrite get_cat_id, get_cat_name.
  rewrite (bind_run _ _ _ _ _ (String_str_or _ _ n)).
  rewrite (bind_run _ _ _ _ _ (String_str_or _ _ n)).
  unfold repair_emoji. rewrite get_cat_emoji.
  destruct (c_emoji c) as [[|a l]|]; eexists; reflexivity.
Qed.

Lemma repairItem_js it n :
  exists it' n', repairItem uid (item_js it) n = (Ret it', n').
Proof.
  unfold repairItem.
  rewrite get_item_id, get_item_cat, get_item_name, get_item_done.
  unfold repair_emoji. rewrite get_item_emoji.
  destruct (i_id it) as [|a l]; cbn [truthy str_truthy].
  - rewrite (bind_run _ _ _ _ _ (makeId_run uid n)).
    rewrite (bind_run _ _ _ _ _ (String_str_or _ _ _)).
    rewrite (bind_run _ _ _ _ _ (String_str_or _ _ _)).
    destruct (i_emoji it) as [[|b k]|]; eexists; eexists; reflexivity.
  - unfold String_ at 1. cbn [ToString].
    unfold bind at 1, ret at 1.
    rewrite (bind_run _ _ _ _ _ (String_str_or _ _ _)).
    rewrite (bind_run _ _ _ _ _ (String_str_or _ _ _)).
    destruct (i_emoji it) as [[|b k]|]; eexists; eexists; reflexivity.
Qed.

(** Repairing a document held in memory returns whenever it has a
    category. *)
Lemma repair_memory_returns d m n :
  cats d <> [] -> exists d' n', repairData uid (doc_js d) m n = (Ret d', n').
Proof.
  intros Nc. unfold repairData.
  change (negb (truthy (doc_js d)) || negb (typeof_object (doc_js d)))
    with false. cbv iota.
  rewrite get_doc_mode, get_doc_cats, get_doc_items.
  assert (Hm : exists md, String_ (S:=nat)
                 (js_or (JStr (mode d))
                    (js_or (JStr m) (JStr (tripMode DEFAULT_SETTINGS)))) n
               = (Ret md, n)).
  { unfold String_, js_or. destruct (truthy (JStr (mode d))).
    - eexists; reflexivity.
    - destruct (truthy (JStr m)); eexists; reflexivity. }
  destruct Hm as [md Hm]. rewrite (bind_run _ _ _ _ _ Hm).
  destruct (mapM_total repairCat (cat_js <$> cats d)) with (s := n)
    as (cs & n1 & Hcs).
  { apply Forall_fmap, Forall_true. intros c s. destruct (repairCat_js c s) as [c' E].
    now exists c', s. }
  pose proof (mapM_pure repairCat
                (fun x s y s' E => proj2 (repairCat_Ret x s y s' E))
                _ _ _ _ Hcs) as ->.
  destruct (mapM_total (repairItem uid) (item_js <$> items d)) with (s := n)
    as (its & n2 & Hits).
  { apply Forall_fmap, Forall_true. intros it s. apply repairItem_js. }
  unfold map_if_array.
  rewrite (bind_run _ _ n (Some cs) n); cycle 1.
  { now rewrite (bind_run _ _ _ _ _ Hcs). }
  rewrite (bind_run _ _ n (Some its) n2); cycle 1.
  { now rewrite (bind_run _ _ _ _ _ Hits). }
  assert (Lc : length (cat_js <$> cats d) = length cs).
  { eapply Forall2_length.
    exact (mapM_Forall2 repairCat (fun _ _ => True)
             (fun _ _ _ _ _ => I) _ _ _ _ Hcs). }
  destruct cs as [|c0 cs].
  { rewrite length_fmap in Lc. destruct (cats d); [congruence|discriminate]. }
  cbv iota beta.
  match goal with
  | |- context [dedupe uid ?seen ?l] =>
      destruct (dedupe_total uid l seen n2) as (r & n3 & E & _ & _)
  end.
  rewrite (bind_run _ _ _ _ _ E). eexists. eexists. reflexivity.
Qed.

(** X23.  [saveData] repairs before it writes.  For every document held
    in memory that has a category the call returns, and what it stores
    is a well-shaped document (every item in a known category) that has
    the same number of items, each with its done flag and with the first
    80 code units of its name ("Sin nombre" for an empty one); the
    settings entry is untouched, and a write the storage refuses changes
    nothing. *)
Theorem saveData_persists_repaired d sto n :
  cats d <> [] ->
  (exists d' n',
     Persist.saveData uid true d sto n
     = (Ret (mkStorage (Parsed (doc_js d')) (settings_cell sto)), n') /\
     shape_ok d' /\
     Forall2 (fun a b => i_done b = i_done a /\
                         i_name b = slice0 80 (str_or (i_name a) (u "Sin nombre")))
             (items d) (items d')) /\
  (exists n', Persist.saveData uid false d sto n = (Ret sto, n')).
Proof.
  intros Nc.
  destruct (repair_memory_returns d (str_or (mode d) (tripMode DEFAULT_SETTINGS))
              n Nc) as (d' & n' & R).
  unfold Persist.saveData, catch.
  rewrite !(bind_run _ _ _ _ _ R). split.
  - exists d', n'. split; [reflexivity|].
    split; [exact (repairData_shape uid _ _ _ _ _ R)|].
    assert (F : Forall2 (repaired_from (cat_ids d'))
                        (item_js <$> items d) (items d')).
    { apply (repaired_items (doc_js d)
               (str_or (mode d) (tripMode DEFAULT_SETTINGS)) n d' n'
               (cat_js <$> cats d) (item_js <$> items d));
        [reflexivity|reflexivity| |reflexivity|exact R].
      destruct (cats d); [congruence|discriminate]. }
    rewrite Forall2_fmap_l in F. eapply Forall2_impl; [exact F|].
    intros a b (Rd & (nm & Hn & Rn) & _). cbn in Rd.
    split; [exact Rd|].
    rewrite Rn. f_equal. rewrite get_item_name in Hn.
    assert (Q : ToString (js_or (JStr (i_name a)) (JStr (u "Sin nombre")))
                = Some (str_or (i_name a) (u "Sin nombre")))
      by now destruct (i_name a).
    congruence.
  - now exists n'.
Qed.

End RepairMore.

Lemma saveData_persists_repaired_witness :
  (exists d' n',
     Persist.saveData uid0 true sample_doc (mkStorage NoEntry NoEntry) 9%nat
     = (Ret (mkStorage (Parsed (doc_js d')) NoEntry), n') /\
     shape_ok d' /\
     Forall2 (fun a b => i_done b = i_done a /\
                         i_name b = slice0 80 (str_or (i_name a) (u "Sin nombre")))
             (items sample_doc) (items d')) /\
  (exists n', Persist.saveData uid0 false sample_doc (mkStorage NoEntry NoEntry) 9%nat
              = (Ret (mkStorage NoEntry NoEntry), n')).
Proof.
  apply (saveData_persists_repaired uid0 sample_doc (mkStorage NoEntry NoEntry) 9%nat).
  by_computation.
Defined.

Lemma repair_keeps_items_witness :
  exists d n',
    repairData uid0 stored_doc (u "salida") O = (Ret d, n') /\
    Forall2 (repaired_from (cat_ids d))
            [ JObj [ (u "id", JStr (u "p1")); (u "cat", JStr (u "docs"));
                     (u "name", JStr (u "Pasaporte")); (u "done", JBool true) ];
              JObj [ (u "cat", JStr (u "docs")); (u "name", JStr (u "Tiquetes")) ];
              JObj [ (u "id", JStr (u "p3")); (u "cat", JStr (u "salud"));
                     (u "name", JStr (u "Medicinas")) ] ]
            (items d) /\
    length (cats d) = 2%nat /\
    completedOnce d = false /\
    resolved_mode stored_doc (u "salida") = Some (mode d).
Proof.
  destruct (repairData uid0 stored_doc (u "salida") O) as [[d|] n'] eqn:E;
    [|vm_compute in E; discriminate].
  exists d, n'. split; [reflexivity|].
  apply (repair_keeps_items uid0 stored_doc (u "salida") O d n'
           [ JObj [ (u "id", JStr (u "docs")); (u "name", JStr (u "Documentos")) ];
             JObj [ (u "id", JStr (u "otros")); (u "name", JStr (u "Otros"));
                    (u "emoji", JStr [10024]%N) ] ]);
    [reflexivity|reflexivity|discriminate|reflexivity|exact E].
Defined.

(** X24.  Data round trip: a well-shaped, settled document is stored as
    it is, without drawing an id, and [loadData] gives it back whatever
    the mode argument. *)
Theorem data_round_trip uid d sto a n :
  shape_ok d -> settled d ->
  Persist.saveData uid true d sto n
  = (Ret (mkStorage (Parsed (doc_js d)) (settings_cell sto)), n) /\
  loadData uid a (Parsed (doc_js d)) n = (Ret d, n).
Proof.
  intros Sh St. split.
  - unfold Persist.saveData, catch.
    now rewrite !(bind_run _ _ _ _ _ (repair_fixed uid d _ n Sh St)).
  - unfold loadData, catch. now rewrite (repair_fixed uid d _ n Sh St).
Qed.

Lemma data_round_trip_witness :
  Persist.saveData uid0 true sample_doc (mkStorage NoEntry NoEntry) 9%nat
  = (Ret (mkStorage (Parsed (doc_js sample_doc)) NoEntry), 9%nat) /\
  loadData uid0 (ModeStr (u "viaje")) (Parsed (doc_js sample_doc)) 9%nat
  = (Ret sample_doc, 9%nat).
Proof.
  apply (data_round_trip uid0 sample_doc (mkStorage NoEntry NoEntry)
           (ModeStr (u "viaje")) 9%nat); by_computation.
Defined.

Lemma loadData_returns uid a st n :
  resolve_mode a ∉ object_prototype_keys ->
  exists d n', loadData uid a st n = (Ret d, n').
Proof.
  intros N. destruct (presetFor_plain _ N) as [p P].
  assert (T : forall k, exists d, newPreset uid (resolve_mode a) k
                                  = (Ret d, (k + length (p_items p))%nat)).
  { intros k. exact (newPreset_returns uid _ _ k P). }
  unfold loadData, catch. destruct st as [| | |v].
  - unfold throw at 1. destruct (T n) as [d R]. rewrite R. now eexists _, _.
  - destruct (T n) as [d R]. rewrite R. now eexists _, _.
  - unfold throw at 1. destruct (T n) as [d R]. rewrite R. now eexists _, _.
  - destruct (repairData uid v (resolve_mode a) n) as [[d|] n1];
      [now eexists _, _|].
    destruct (T n1) as [d R]. rewrite R. now eexists _, _.
Qed.

Lemma loadData_throws uid a st n :
  resolve_mode a ∈ object_prototype_keys -> not_parsed st ->
  loadData uid a st n = (Throw, n).
Proof.
  intros H Np. unfold loadData, catch.
  destruct st as [| | |v]; [| | |destruct Np].
  - unfold throw at 1. apply proto_key_throws, H.
  - rewrite (proto_key_throws uid _ n H). apply proto_key_throws, H.
  - unfold throw at 1. apply proto_key_throws, H.
Qed.

(** X25.  [loadData] returns a well-shaped document for every stored
    value, readable or not, as long as the mode it falls back on is not
    the name of a property inherited from [Object.prototype]; with such
    a mode and nothing usable in storage it throws. *)
Theorem loadData_total uid a st n :
  (resolve_mode a ∉ object_prototype_keys ->
   exists d n', loadData uid a st n = (Ret d, n') /\ shape_ok d) /\
  (resolve_mode a ∈ object_prototype_keys -> not_parsed st ->
   loadData uid a st n = (Throw, n)).
Proof.
  split.
  - intros N. destruct (loadData_returns uid a st n N) as (d & n' & E).
    exists d, n'. split; [exact E|].
    exact (loadData_shape uid _ _ _ _ _ E).
  - apply loadData_throws.
Qed.

Lemma loadData_total_witness :
  (exists d n', loadData uid0 (ModeStr (u "gira")) (Parsed throwing_item_doc) O
                = (Ret d, n') /\ shape_ok d) /\
  loadData uid0 (ModeSettings (mkSettings (u "valueOf") true true 0)) NoEntry O
  = (Throw, O).
Proof.
  split.
  - apply (loadData_total uid0 (ModeStr (u "gira")) (Parsed throwing_item_doc) O).
    by_computation.
  - apply (loadData_total uid0
             (ModeSettings (mkSettings (u "valueOf") true true 0)) NoEntry O);
      [by_computation|exact I].
Defined.

(** X26.  The two loads of [boot].  The settings always load; the store
    is then built, well formed, with a well-shaped document, the open tab
    "all" and the persistence subscriber as its only listener, unless the
    loaded [tripMode] is the name of a property inherited from
    [Object.prototype] and no document can be read, in which case [boot]
    throws. *)
Theorem boot_load_outcome StringToNumber uid sto n :
  exists t,
    loadSettings StringToNumber (settings_cell sto) n = (Ret t, n) /\
    (str_or (tripMode t) (tripMode DEFAULT_SETTINGS) ∉ object_prototype_keys ->
     exists w n',
       boot_load StringToNumber uid sto n = (Ret w, n') /\
       wf w /\ prefs w = t /\ shape_ok (doc w) /\
       activeCat (w_state w) = u "all" /\ w_uids w = n' /\
       w_listeners w = [persist_bridge] /\ w_trace w = []) /\
    (str_or (tripMode t) (tripMode DEFAULT_SETTINGS) ∈ object_prototype_keys ->
     not_parsed (data_cell sto) ->
     boot_load StringToNumber uid sto n = (Throw, n)).
Proof.
  destruct (loadSettings_returns StringToNumber (settings_cell sto) n)
    as (t & L).
  exists t. split; [exact L|]. unfold boot_load.
  rewrite (bind_run _ _ _ _ _ L).
  split.
  - intros N.
    destruct (loadData_returns uid (ModeSettings t) (data_cell sto) n N)
      as (d & n' & R).
    pose proof (loadData_shape uid _ _ _ _ _ R) as Sh.
    rewrite (bind_run _ _ _ _ _ R).
    eexists. eexists. split; [reflexivity|].
    split; [unfold wf; cbn; lia|]. split; [reflexivity|].
    split; [exact Sh|]. now repeat split.
  - intros H Np.
    now rewrite (bind_throw _ _ _ _
                   (loadData_throws uid (ModeSettings t) _ n H Np)).
Qed.

Lemma boot_load_outcome_witness :
  (exists w n',
     boot_load (fun _ => NaN) uid0 (mkStorage NoEntry NoEntry) O = (Ret w, n') /\
     wf w /\ shape_ok (doc w) /\ w_listeners w = [persist_bridge]) /\
  boot_load (fun _ => NaN) uid0
    (mkStorage NoEntry (Parsed (JObj [(u "tripMode", JStr (u "constructor"))])))
    O = (Throw, O).
Proof.
  split.
  - destruct (boot_load_outcome (fun _ => NaN) uid0
                (mkStorage NoEntry NoEntry) O) as (t & L & T & _).
    assert (E : t = DEFAULT_SETTINGS).
    { vm_compute in L. injection L as <-. reflexivity. }
    destruct T as (w & n' & R & W & _ & Sh & _ & _ & Ls & _).
    { rewrite E. by_computation. }
    now exists w, n'.
  - destruct (boot_load_outcome (fun _ => NaN) uid0
                (mkStorage NoEntry
                   (Parsed (JObj [(u "tripMode", JStr (u "constructor"))]))) O)
      as (t & L & _ & T).
    apply T; [|exact I].
    assert (E : t = mkSettings (u "constructor") true true 0).
    { vm_compute in L. injection L as <-. reflexivity. }
    rewrite E. by_computation.
Defined.
